(** * Batch speech-to-text scripts: clip selection, Clova upload client,
      transcript extraction, Google and Vosk transcription.

    The scripts of the repository are embedded as Rocq functions: the clip
    selection that [stt_clova.py], [stt_google.py], [stt_vosk.py] and
    [stt_whisper.py] share, the Clova client with its error formatting and
    transcript extraction, and the Google and Vosk transcription runs.
    Python exceptions are an explicit error type, mutable dictionaries
    live in a store of objects addressed by location, and the file system,
    the HTTP endpoint, ffmpeg and the recognisers are explicit inputs.

    Strings are Stdlib strings read as sequences of code points below 256;
    on that range [str.strip], [str.split], [int] and [json.dumps] are
    modelled exactly as CPython 3.11 computes them. *)

From Stdlib Require Import ZArith List String Ascii Bool Lia.
From Stdlib Require Import Sorting.Sorted Sorting.Permutation DecimalString.
From stdpp Require Import base gmap strings list.
From Equations Require Import Equations.
Import ListNotations.

Local Open Scope string_scope.
Local Open Scope Z_scope.
Local Open Scope list_scope.

(** ** Python primitives used by the scripts *)
Module Py.

(** Exceptions that the modelled code can raise or let through. *)
Inductive exn : Type :=
| IndexError
| ValueError
| TypeError
| AttributeError
| FileNotFoundError
| CalledProcessError
| TimeoutError
| WaveError
| SystemExit (msg : string).

(** Computations that return a value or raise. *)
Definition M (A : Type) : Type := (exn + A)%type.

Definition ret {A : Type} (a : A) : M A := inr a.

Definition raise {A : Type} (e : exn) : M A := inl e.

Definition bind {A B : Type} (m : M A) (k : A -> M B) : M B :=
  match m with
  | inl e => inl e
  | inr a => k a
  end.

(** [try: m except ...: h e]; the handler re-raises what it does not catch. *)
Definition try_except {A : Type} (m : M A) (h : exn -> M A) : M A :=
  match m with
  | inl e => h e
  | inr a => inr a
  end.

Notation "'do' x <- m ; k" := (bind m (fun x => k))
  (at level 10, x name, m at level 100, k at level 200).

(** Computations over a state [S] that return a value or raise; the state
    reached when an exception is raised is kept. *)
Definition ST (S A : Type) : Type := S -> M A * S.

Definition st_ret {S A : Type} (a : A) : ST S A := fun s => (inr a, s).

Definition st_raise {S A : Type} (e : exn) : ST S A := fun s => (inl e, s).

Definition st_lift {S A : Type} (m : M A) : ST S A := fun s => (m, s).

Definition st_bind {S A B : Type} (m : ST S A) (k : A -> ST S B) : ST S B :=
  fun s =>
    match m s with
    | (inl e, s') => (inl e, s')
    | (inr a, s') => k a s'
    end.

Notation "'run' x <- m ; k" := (st_bind m (fun x => k))
  (at level 10, x name, m at level 100, k at level 200).

Notation "'run_' m ; k" := (st_bind m (fun _ => k))
  (at level 10, m at level 100, k at level 200).

Definition code (c : ascii) : N := N_of_ascii c.

(** [str.isspace] for one character (Py_UNICODE_ISSPACE): TAB..CR, FS..US,
    SPACE, NEL and NBSP are the white-space code points below 256. *)
Definition isspace (c : ascii) : bool :=
  let n := code c in
  ((9 <=? n) && (n <=? 13) || (28 <=? n) && (n <=? 31) || (n =? 32)
   || (n =? 133) || (n =? 160))%N.

(** The C-locale test Py_ISSPACE that [int] applies to its ASCII buffer. *)
Definition c_isspace (c : ascii) : bool :=
  let n := code c in ((9 <=? n) && (n <=? 13) || (n =? 32))%N.

Definition isdigit (c : ascii) : bool :=
  let n := code c in ((48 <=? n) && (n <=? 57))%N.

Definition digit_value (c : ascii) : Z := Z.of_N (code c) - 48.

Fixpoint lstrip_chars (l : list ascii) : list ascii :=
  match l with
  | [] => []
  | c :: r => if isspace c then lstrip_chars r else l
  end.

Definition rstrip_chars (l : list ascii) : list ascii :=
  rev (lstrip_chars (rev l)).

Definition strip_chars (l : list ascii) : list ascii :=
  rstrip_chars (lstrip_chars l).

(** [s.strip()] *)
Definition strip (s : string) : string :=
  string_of_list_ascii (strip_chars (list_ascii_of_string s)).

(** A character list that does not start and does not end with white space. *)
Definition clean (l : list ascii) : Prop :=
  match l with [] => True | c :: _ => isspace c = false end
  /\ match rev l with [] => True | c :: _ => isspace c = false end.

(** A string that is trimmed already and not empty. *)
Definition trimmed (s : string) : Prop :=
  clean (list_ascii_of_string s) /\ s <> EmptyString.

(** [sep.join(parts)] *)
Definition join (sep : string) (parts : list string) : string :=
  String.concat sep parts.

(** Truth value of a [str]. *)
Definition str_truthy (s : string) : bool :=
  match s with
  | EmptyString => false
  | String _ _ => true
  end.

(** [s.split(sep, 1)] for a one-character separator: cut at the first
    occurrence, or the whole string alone when there is none. *)
Fixpoint split1_chars (sep : ascii) (l : list ascii)
  : list ascii * option (list ascii) :=
  match l with
  | [] => ([], None)
  | c :: r =>
      if Ascii.eqb c sep then ([], Some r)
      else let '(a, b) := split1_chars sep r in (c :: a, b)
  end.

Definition split1 (sep : ascii) (s : string) : list string :=
  match split1_chars sep (list_ascii_of_string s) with
  | (a, None) => [string_of_list_ascii a]
  | (a, Some b) => [string_of_list_ascii a; string_of_list_ascii b]
  end.

(** [l[i]] for a non-negative index. *)
Definition index {A : Type} (l : list A) (i : nat) : M A :=
  match nth_error l i with
  | Some x => ret x
  | None => raise IndexError
  end.

(** [l[:n]]: the first [n] items, or all but the last [-n] when [n < 0]. *)
Definition slice_to {A : Type} (l : list A) (n : Z) : list A :=
  if 0 <=? n then firstn (Z.to_nat n) l
  else firstn (length l - Z.to_nat (- n))%nat l.

(** [l.sort(key=key)] with integer keys: the stable ascending sort. *)
Fixpoint insert_by_key {A : Type} (key : A -> Z) (x : A) (l : list A) : list A :=
  match l with
  | [] => [x]
  | y :: r =>
      if key x <=? key y then x :: y :: r
      else y :: insert_by_key key x r
  end.

Fixpoint sort_by_key {A : Type} (key : A -> Z) (l : list A) : list A :=
  match l with
  | [] => []
  | x :: r => insert_by_key key x (sort_by_key key r)
  end.

(** Ascending, and strictly ascending, by key. *)
Definition key_le {A : Type} (key : A -> Z) (a b : A) : Prop := key a <= key b.

Definition key_lt {A : Type} (key : A -> Z) (a b : A) : Prop := key a < key b.

(** *** [int(s)] in base 10 (PyLong_FromUnicodeObject, PyLong_FromString) *)

(** _PyUnicode_TransformDecimalAndSpaceToASCII: an all-ASCII string is kept
    as it is; otherwise white space above 126 becomes a blank and the first
    other character above 126 becomes ['?'] and ends the buffer (no code
    point in 127..255 is a decimal digit). *)
Fixpoint to_ascii_buffer (l : list ascii) : list ascii :=
  match l with
  | [] => []
  | c :: r =>
      if (code c <? 127)%N then c :: to_ascii_buffer r
      else if isspace c then " "%char :: to_ascii_buffer r
      else ["?"%char]
  end.

Definition transform_decimal_and_space (l : list ascii) : list ascii :=
  if forallb (fun c => (code c <? 128)%N) l then l else to_ascii_buffer l.

Fixpoint skip_c_space (l : list ascii) : list ascii :=
  match l with
  | [] => []
  | c :: r => if c_isspace c then skip_c_space r else l
  end.

(** The digit scan: digits with single underscores between them. [prev_us]
    tells whether the previous character was an underscore; the result is
    the value, the number of digits and the unread rest, or [None] for a
    doubled or trailing underscore. *)
Fixpoint scan_digits (prev_us : bool) (acc : Z) (ndigits : nat) (l : list ascii)
  : option (Z * nat * list ascii) :=
  match l with
  | [] => if prev_us then None else Some (acc, ndigits, [])
  | c :: r =>
      if Ascii.eqb c "_"%char then
        if prev_us then None else scan_digits true acc ndigits r
      else if isdigit c then
        scan_digits false (10 * acc + digit_value c) (S ndigits) r
      else if prev_us then None else Some (acc, ndigits, l)
  end.

(** sys.int_info.default_max_str_digits *)
Definition int_max_str_digits : nat := 4300.

Definition int_of_chars (l : list ascii) : M Z :=
  let l1 := skip_c_space (transform_decimal_and_space l) in
  let '(negative, l2) :=
    match l1 with
    | c :: r =>
        if Ascii.eqb c "+"%char then (false, r)
        else if Ascii.eqb c "-"%char then (true, r)
        else (false, l1)
    | [] => (false, l1)
    end in
  match l2 with
  | c :: _ =>
      if Ascii.eqb c "_"%char then raise ValueError
      else
        match scan_digits false 0 0 l2 with
        | None => raise ValueError
        | Some (v, nd, rest) =>
            if (nd =? 0)%nat then raise ValueError
            else if (int_max_str_digits <? nd)%nat then raise ValueError
            else
              match skip_c_space rest with
              | [] => ret (if negative then - v else v)
              | _ :: _ => raise ValueError
              end
        end
  | [] => raise ValueError
  end.

(** [int(s)] *)
Definition int (s : string) : M Z := int_of_chars (list_ascii_of_string s).

End Py.

(** ** Clip selection

    [parse_clip_id] and [select_targets] are the same text in the four
    scripts, so one embedding serves all of them. *)
Module Select.
Import Py.

(** A path below [VOICE_DIR] is represented by its file name. *)
Definition Path : Type := string.

(** What [VOICE_DIR] holds: the entry names in the order the operating
    system lists them, and whether names match case-insensitively (as
    pathlib does on Windows). *)
Record Dir : Type := {
  entries : list Path;
  case_insensitive : bool
}.

Definition ascii_lower (c : ascii) : ascii :=
  if ((65 <=? code c) && (code c <=? 90))%N then ascii_of_N (code c + 32) else c.

Definition char_match (ci : bool) (p c : ascii) : bool :=
  if ci then Ascii.eqb (ascii_lower p) (ascii_lower c) else Ascii.eqb p c.

Fixpoint prefix_match (ci : bool) (p l : list ascii) : bool :=
  match p, l with
  | [], _ => true
  | _ :: _, [] => false
  | a :: p', c :: l' => char_match ci a c && prefix_match ci p' l'
  end.

(** Does a name match the pattern [MYR_*.mp4]? *)
Definition glob_match (ci : bool) (name : Path) : bool :=
  let l := list_ascii_of_string name in
  (8 <=? length l)%nat
  && prefix_match ci (list_ascii_of_string "MYR_") l
  && prefix_match ci (rev (list_ascii_of_string ".mp4")) (rev l).

(** [VOICE_DIR.glob("MYR_*.mp4")] *)
Definition glob (d : Dir) : list Path :=
  List.filter (glob_match (case_insensitive d)) (entries d).

(** [name.rfind('.')], scanning with the current position and the last hit. *)
Fixpoint rfind_dot (l : list ascii) (i : nat) (last : option nat) : option nat :=
  match l with
  | [] => last
  | c :: r => rfind_dot r (S i) (if Ascii.eqb c "."%char then Some i else last)
  end.

(** [path.stem]: the name without its last suffix. *)
Definition stem (path : Path) : string :=
  let l := list_ascii_of_string path in
  match rfind_dot l 0 None with
  | Some i =>
      if ((0 <? i) && (i <? length l - 1))%nat
      then string_of_list_ascii (firstn i l)
      else path
  | None => path
  end.

Definition parse_clip_id (path : Path) : M (option Z) :=
  try_except
    (do tok <- index (split1 "_"%char (stem path)) 1;
     do n <- int tok;
     ret (Some n))
    (fun e =>
       match e with
       | IndexError | ValueError => ret None
       | _ => raise e
       end).

(** The loop of [select_targets] over the globbed paths, with the list
    [numbered] built so far. *)
Fixpoint collect (start_id : Z) (paths : list Path) (numbered : list (Z * Path))
  : M (list (Z * Path)) :=
  match paths with
  | [] => ret numbered
  | mp4 :: rest =>
      do clip_id <- parse_clip_id mp4;
      match clip_id with
      | None => collect start_id rest numbered
      | Some id =>
          if id <? start_id then collect start_id rest numbered
          else collect start_id rest (numbered ++ [(id, mp4)])
      end
  end.

Definition select_targets (d : Dir) (start_id limit : Z) : M (list Path) :=
  do numbered <- collect start_id (glob d) [];
  ret (map snd (slice_to (sort_by_key fst numbered) limit)).

(** The identifier of a path, when it has one. *)
Definition clip_id (path : Path) : option Z :=
  match parse_clip_id path with
  | inr o => o
  | inl _ => None
  end.

(** The sort key of a path: its identifier (0 for a path without one). *)
Definition clip_key (path : Path) : Z :=
  match clip_id path with
  | Some id => id
  | None => 0
  end.

(** A path passes the filter when it has an identifier of at least [start_id]. *)
Definition qualifies (start_id : Z) (path : Path) : bool :=
  match clip_id path with
  | Some id => start_id <=? id
  | None => false
  end.

(** The token after the first underscore of the stem, when there is one. *)
Definition token (path : Path) : option string :=
  nth_error (split1 "_"%char (stem path)) 1.

(** A character that no accepted integer literal contains. *)
Definition foreign_char (c : ascii) : bool :=
  negb (isdigit c || Ascii.eqb c "_"%char || Ascii.eqb c "+"%char
        || Ascii.eqb c "-"%char || isspace c).

(** The pairs that the loop of [select_targets] appends. *)
Definition tagged (start_id : Z) (paths : list Path) : list (Z * Path) :=
  map (fun p => (clip_key p, p)) (List.filter (qualifies start_id) paths).

(** A file name is malformed when its stem has no token after an
    underscore, or when [int] rejects the token. *)
Definition malformed (p : Path) : Prop :=
  match token p with
  | None => True
  | Some tok => int tok = inl ValueError
  end.

(** Directories used as examples. *)
Definition unpadded_dir : Dir :=
  {| entries := ["MYR_10.mp4"; "MYR_9.mp4"; "MYR_x.mp4"; "MYR_11.mp4"; "MYR_3.mp4"];
     case_insensitive := false |}.

Definition padded_dir : Dir :=
  {| entries := ["MYR_1.mp4"; "MYR_01.mp4"]; case_insensitive := false |}.

Definition scenario_names : list Path :=
  ["MYR_17390_x.mp4"; "MYR_17388_y.mp4"; "MYR_bad.mp4"; "MYR_17395_z.mp4"].

Definition plain_names : list Path :=
  ["MYR_17390.mp4"; "MYR_17388.mp4"; "MYR_bad.mp4"; "MYR_17395.mp4"].

End Select.

(** ** JSON values and [json.dumps] *)
Module Json.
Import Py.

#[local] Set Warnings "-register-all".

(** What [json.loads] builds. An object keeps its members in insertion
    order, as a Python [dict] does. A float is carried by the text that
    [repr] gives it; no arithmetic is done on it. *)
Inductive value : Type :=
| Null
| Bool (b : bool)
| Int (n : Z)
| Float (repr : string)
| Str (s : string)
| Arr (items : list value)
| Obj (members : list (string * value)).

(** [d.get(key)]: the value bound to [key], or [None] in Python. *)
Fixpoint obj_get (members : list (string * value)) (key : string) : option value :=
  match members with
  | [] => None
  | (k, v) :: rest => if String.eqb k key then Some v else obj_get rest key
  end.

(** [payload.get(key)]; only a [dict] has the method. *)
Definition get (payload : value) (key : string) : M value :=
  match payload with
  | Obj members =>
      match obj_get members key with
      | Some v => ret v
      | None => ret Null
      end
  | _ => raise AttributeError
  end.

(** Truth value of a loaded JSON value. *)
Definition truthy (v : value) : bool :=
  match v with
  | Null => false
  | Bool b => b
  | Int n => negb (n =? 0)
  | Float r => negb (String.eqb r "0.0" || String.eqb r "-0.0")
  | Str s => str_truthy s
  | Arr items => match items with [] => false | _ :: _ => true end
  | Obj members => match members with [] => false | _ :: _ => true end
  end.

Definition dquote : ascii := ascii_of_N 34.

Definition backslash : ascii := ascii_of_N 92.

Definition hex_digit (n : N) : ascii :=
  if (n <? 10)%N then ascii_of_N (48 + n) else ascii_of_N (87 + n).

(** One character inside a JSON string with [ensure_ascii=False]: the quote,
    the backslash and the control characters are escaped. *)
Definition escape_char (c : ascii) : list ascii :=
  let n := code c in
  if (n =? 34)%N then [backslash; dquote]
  else if (n =? 92)%N then [backslash; backslash]
  else if (n =? 10)%N then list_ascii_of_string "\n"
  else if (n =? 13)%N then list_ascii_of_string "\r"
  else if (n =? 9)%N then list_ascii_of_string "\t"
  else if (n =? 8)%N then list_ascii_of_string "\b"
  else if (n =? 12)%N then list_ascii_of_string "\f"
  else if (n <? 32)%N then
    list_ascii_of_string "\u00" ++ [hex_digit (n / 16); hex_digit (n mod 16)]
  else [c].

Definition quote (s : string) : string :=
  String dquote
    (string_of_list_ascii
       (flat_map escape_char (list_ascii_of_string s) ++ [dquote])).

(** [str(n)] for an [int]. *)
Definition decimal (n : Z) : string := NilZero.string_of_int (Z.to_int n).

(** [json.dumps(v, ensure_ascii=False)] *)
Fixpoint dumps (v : value) : string :=
  match v with
  | Null => "null"
  | Bool true => "true"
  | Bool false => "false"
  | Int n => decimal n
  | Float r => r
  | Str s => quote s
  | Arr items =>
      String.append "[" (String.append (join ", " (map dumps items)) "]")
  | Obj members =>
      String.append "{"
        (String.append
           (join ", "
              (map (fun kv : string * value =>
                      let (k, x) := kv in
                      String.append (quote k) (String.append ": " (dumps x)))
                   members))
           "}")
  end.

Fixpoint spaces (n : nat) : string :=
  match n with
  | O => EmptyString
  | S m => String " "%char (spaces m)
  end.

(** A line break followed by the indentation of nesting depth [level]. *)
Definition newline_indent (level : nat) : string :=
  String (ascii_of_nat 10) (spaces (2 * level)).

(** [json.dumps(v, ensure_ascii=False, indent=2)] at nesting depth [level]. *)
Fixpoint dumps_indent (level : nat) (v : value) : string :=
  match v with
  | Null => "null"
  | Bool true => "true"
  | Bool false => "false"
  | Int n => decimal n
  | Float r => r
  | Str s => quote s
  | Arr [] => "[]"
  | Arr items =>
      String.append "["
        (String.append (newline_indent (S level))
           (String.append
              (join (String.append "," (newline_indent (S level)))
                    (map (dumps_indent (S level)) items))
              (String.append (newline_indent level) "]")))
  | Obj [] => "{}"
  | Obj members =>
      String.append "{"
        (String.append (newline_indent (S level))
           (String.append
              (join (String.append "," (newline_indent (S level)))
                    (map (fun kv : string * value =>
                            let (k, x) := kv in
                            String.append (quote k)
                              (String.append ": " (dumps_indent (S level) x)))
                         members))
              (String.append (newline_indent level) "}")))
  end.

End Json.

(** ** The object store: mutable dictionaries and lists by reference *)
Module Store.
Import Py.

(** A Python value: an immutable scalar or a reference to an object. *)
Inductive val : Type :=
| VNone
| VBool (b : bool)
| VInt (n : Z)
| VFloat (repr : string)
| VStr (s : string)
| VRef (l : positive).

(** Objects in the store. A [dict] keeps its items in insertion order. *)
Inductive obj : Type :=
| ODict (items : list (string * val))
| OList (items : list val)
| OClient (invoke_url secret : string) (default_params : positive).

(** [key in d] and [d[key]] on the items of a dictionary. *)
Fixpoint dict_get (d : list (string * val)) (key : string) : option val :=
  match d with
  | [] => None
  | (k, v) :: rest => if String.eqb k key then Some v else dict_get rest key
  end.

(** [d[key] = v]: an existing key keeps its place, a new key goes last. *)
Fixpoint dict_set (key : string) (v : val) (d : list (string * val))
  : list (string * val) :=
  match d with
  | [] => [(key, v)]
  | (k, x) :: rest =>
      if String.eqb k key then (k, v) :: rest
      else (k, x) :: dict_set key v rest
  end.

(** [{**base, **extra}]: the items of [extra] are set one after the other. *)
Definition dict_update (base extra : list (string * val)) : list (string * val) :=
  fold_left (fun d kv => dict_set (fst kv) (snd kv) d) extra base.

(** A dictionary has each key once. *)
Definition dict_wf (d : list (string * val)) : Prop := List.NoDup (map fst d).

(** A value refers to a live object, or to none. *)
Definition valid (h : gmap positive obj) (v : val) : Prop :=
  match v with
  | VRef l => is_Some (h !! l)
  | _ => True
  end.

(** Truth value: [None], [False], zero, and empty strings and containers
    are false. *)
Definition truthy (h : gmap positive obj) (v : val) : bool :=
  match v with
  | VNone => false
  | VBool b => b
  | VInt n => negb (n =? 0)
  | VFloat r => negb (String.eqb r "0.0" || String.eqb r "-0.0")
  | VStr s => str_truthy s
  | VRef l =>
      match h !! l with
      | Some (ODict []) | Some (OList []) => false
      | _ => true
      end
  end.

Definition is_none (v : val) : bool :=
  match v with
  | VNone => true
  | _ => false
  end.

(** [mapM] for computations that may raise. *)
Fixpoint map_m {A B : Type} (f : A -> M B) (l : list A) : M (list B) :=
  match l with
  | [] => ret []
  | a :: rest => do b <- f a; do bs <- map_m f rest; ret (b :: bs)
  end.

(** The JSON tree that [json.dumps] walks from a value. Every reference
    followed uses one unit of [fuel]; running out of it means a reference
    cycle, for which [json.dumps] raises [ValueError]. A client object is
    not serialisable. *)
Fixpoint resolve (fuel : nat) (h : gmap positive obj) (v : val) : M Json.value :=
  match v with
  | VNone => ret Json.Null
  | VBool b => ret (Json.Bool b)
  | VInt n => ret (Json.Int n)
  | VFloat r => ret (Json.Float r)
  | VStr s => ret (Json.Str s)
  | VRef l =>
      match fuel with
      | O => raise ValueError
      | S fuel' =>
          match h !! l with
          | Some (ODict items) =>
              do members <-
                map_m (fun kv : string * val =>
                         do x <- resolve fuel' h (snd kv); ret (fst kv, x))
                      items;
              ret (Json.Obj members)
          | Some (OList items) =>
              do xs <- map_m (resolve fuel' h) items;
              ret (Json.Arr xs)
          | Some (OClient _ _ _) | None => raise TypeError
          end
      end
  end.

(** [json.dumps(v, ensure_ascii=False)] on a value in the store. A chain of
    references longer than the number of objects repeats one of them. *)
Definition json_dumps (h : gmap positive obj) (v : val) : M string :=
  do j <- resolve (S (size h)) h v;
  ret (Json.dumps j).

End Store.

(** ** [stt_clova.py]: responses, error formatting, transcript extraction *)
Module Clova.
Import Py Json Store.

Definition LANGUAGE : string := "ko-KR".

Definition CLOVA_COMPLETION : string := "sync".

Definition START_ID : Z := 17388.

Definition TARGET_COUNT : Z := 20.

(** A [requests.Response] as the script observes it. [json_body] is what
    [response.json()] returns; [None] stands for a body that is not JSON,
    where the call raises [ValueError]. *)
Record Response : Type := {
  status_code : Z;
  reason : string;
  text : string;
  json_body : option value
}.

(** [response.ok]: false exactly for a status from 400 to 599. *)
Definition ok (r : Response) : bool :=
  negb ((400 <=? status_code r) && (status_code r <? 600)).

(** [response.json()] *)
Definition response_json (r : Response) : M value :=
  match json_body r with
  | Some payload => ret payload
  | None => raise ValueError
  end.

Definition _format_error (response : Response) : M string :=
  try_except
    (do payload <- response_json response;
     ret (dumps payload))
    (fun e =>
       match e with
       | ValueError =>
           let body := strip (text response) in
           ret (if str_truthy body then body else reason response)
       | _ => raise e
       end).

(** The loop over the known keys: the first key bound to a string that is
    not blank gives its trimmed value. *)
Fixpoint first_text (payload : value) (keys : list string) : M (option string) :=
  match keys with
  | [] => ret None
  | key :: rest =>
      do v <- get payload key;
      match v with
      | Str t =>
          if str_truthy (strip t) then ret (Some (strip t))
          else first_text payload rest
      | _ => first_text payload rest
      end
  end.

(** The comprehension over the segments: the text of every [dict] segment
    whose [segment.get("text")] is true. *)
Fixpoint segment_lines (segments : list value) : list value :=
  match segments with
  | [] => []
  | Obj members :: rest =>
      match obj_get members "text" with
      | Some v => if Json.truthy v then v :: segment_lines rest else segment_lines rest
      | None => segment_lines rest
      end
  | _ :: rest => segment_lines rest
  end.

(** The items of [sep.join(...)] must all be strings. *)
Fixpoint as_strings (vs : list value) : M (list string) :=
  match vs with
  | [] => ret []
  | Str s :: rest => do ss <- as_strings rest; ret (s :: ss)
  | _ :: _ => raise TypeError
  end.

Definition known_keys : list string := ["text"; "textData"; "result"; "transcript"].

Definition newline : string := String (ascii_of_nat 10) EmptyString.

Definition extract_transcript (response : Response) : M string :=
  match response_json response with
  | inl ValueError => ret (strip (text response))
  | inl e => raise e
  | inr payload =>
      do direct <- first_text payload known_keys;
      match direct with
      | Some t => ret t
      | None =>
          do segments <- get payload "segments";
          let fallback := ret (dumps_indent 0 payload) in
          match segments with
          | Arr items =>
              match segment_lines items with
              | [] => fallback
              | lines =>
                  do ss <- as_strings lines;
                  ret (strip (join newline ss))
              end
          | _ => fallback
          end
      end
  end.

(** The text of a segment that the comprehension keeps, when the segment is
    an object whose text is a non-empty string. *)
Definition segment_text (segment : value) : list string :=
  match segment with
  | Obj members =>
      match obj_get members "text" with
      | Some (Str s) => if str_truthy s then [s] else []
      | _ => []
      end
  | _ => []
  end.

(** The claim's wording for a payload with a segments list only: the text
    fields of the segments, joined by newlines. *)
Definition segment_texts_joined (segments : list value) : string :=
  join newline (flat_map segment_text segments).

(** The text of a segment, if it has one that counts as true, is a string. *)
Definition text_is_string (segment : value) : Prop :=
  match segment with
  | Obj members =>
      match obj_get members "text" with
      | Some (Str _) | None => True
      | Some v => Json.truthy v = false
      end
  | _ => True
  end.

(** A key holds no usable direct text: it is missing, not a string, or blank. *)
Definition no_direct_text (members : list (string * value)) (key : string) : Prop :=
  match obj_get members key with
  | Some (Str t) => strip t = EmptyString
  | _ => True
  end.

(** A successful response whose body is the JSON text of [payload]. *)
Definition response_of (payload : value) : Response :=
  {| status_code := 200; reason := "OK"; text := dumps payload;
     json_body := Some payload |}.

(** Payloads used as examples. *)
Definition empty_segments_payload : value := Obj [("segments", Arr [])].

Definition blank_text_payload : value :=
  Obj [("text", Str "  "); ("segments", Arr [Obj [("text", Str "hello")]])].

Definition both_payload : value :=
  Obj [("result", Str " done "); ("text", Int 3);
       ("segments", Arr [Obj [("text", Str "hello")]])].

Definition segments_payload : value :=
  Obj [("segments",
        Arr [Obj [("text", Str "first")]; Obj [("speaker", Int 1)];
             Obj [("text", Str "second")]])].

Definition unknown_payload : value := Obj [("status", Str "queued")].

(** *** The client and its upload request *)

(** What is posted: the target, the API key header, the clip sent as
    [media], the JSON text of the parameter block, and the time limit. *)
Record Request : Type := {
  url : string;
  api_key : string;
  media : Select.Path;
  params : string;
  timeout : Z
}.

(** The state the script acts on: the object store, the requests posted so
    far (latest last) and the files written below [RESULT_DIR] (latest
    last). Progress lines written with [print] are not recorded. *)
Record World : Type := {
  heap : gmap positive obj;
  posts : list Request;
  written : list (string * string)
}.

(** The surroundings: how the endpoint answers a request given the
    requests before it, and which clips can be opened. *)
Record Env : Type := {
  endpoint : list Request -> Request -> M Response;
  readable : Select.Path -> bool
}.

Definition set_heap (w : World) (h : gmap positive obj) : World :=
  {| heap := h; posts := posts w; written := written w |}.

(** A new object at a location not in use. *)
Definition alloc (o : obj) : ST World positive :=
  fun w =>
    let l := fresh (dom (heap w)) in
    (inr l, set_heap w (<[l := o]> (heap w))).

Definition read_dict (l : positive) : ST World (list (string * val)) :=
  fun w =>
    match heap w !! l with
    | Some (ODict items) => (inr items, w)
    | _ => (inl TypeError, w)
    end.

Definition dict_contains (l : positive) (key : string) : ST World bool :=
  run items <- read_dict l;
  st_ret (match dict_get items key with Some _ => true | None => false end).

Definition dict_setitem (l : positive) (key : string) (v : val) : ST World unit :=
  run items <- read_dict l;
  fun w => (inr tt, set_heap w (<[l := ODict (dict_set key v items)]> (heap w))).

Definition truthy_st (v : val) : ST World bool :=
  fun w => (inr (truthy (heap w) v), w).

Definition when (b : bool) (m : ST World unit) : ST World unit :=
  if b then m else st_ret tt.

(** The attributes of a client object. *)
Definition read_client (self : positive) : ST World (string * string * positive) :=
  fun w =>
    match heap w !! self with
    | Some (OClient u s dp) => (inr (u, s, dp), w)
    | _ => (inl AttributeError, w)
    end.

(** [ClovaSpeechClient(invoke_url, secret, default_params)], where
    [default_params] is [None] or refers to a dictionary:
    [dict(default_params) if default_params else {}]. *)
Definition client_init (invoke_url secret : string) (default_params : val)
  : ST World positive :=
  run t <- truthy_st default_params;
  run items <-
    (if t then
       match default_params with
       | VRef l => read_dict l
       | _ => st_raise TypeError
       end
     else st_ret []);
  run dp <- alloc (ODict items);
  alloc (OClient invoke_url secret dp).

(** The arguments of [req_upload] after [file]. *)
Record UploadArgs : Type := {
  completion : val;
  callback : val;
  userdata : val;
  forbiddens : val;
  boostings : val;
  word_alignment : val;
  full_text : val;
  diarization : val;
  sed : val
}.

(** A call that passes [completion] only, as [run_clova] does. *)
Definition default_args (completion : string) : UploadArgs :=
  {| completion := VStr completion; callback := VNone; userdata := VNone;
     forbiddens := VNone; boostings := VNone;
     word_alignment := VBool true; full_text := VBool true;
     diarization := VNone; sed := VNone |}.

(** The fixed base of the parameter block. *)
Definition base_params (a : UploadArgs) : list (string * val) :=
  [("language", VStr LANGUAGE); ("completion", completion a)].

(** Lines 80 to 101 of [req_upload]: the parameter block, built in a new
    dictionary; returns its location. *)
Definition build_request_body (self : positive) (a : UploadArgs) : ST World positive :=
  run c <- read_client self;
  run defaults <- read_dict (snd c);
  run body <- alloc (ODict (dict_update (base_params a) defaults));
  run has_wa <- dict_contains body "wordAlignment";
  run_ when (negb has_wa) (dict_setitem body "wordAlignment" (word_alignment a));
  run has_ft <- dict_contains body "fullText";
  run_ when (negb has_ft) (dict_setitem body "fullText" (full_text a));
  run_ when (negb (is_none (callback a))) (dict_setitem body "callback" (callback a));
  run_ when (negb (is_none (userdata a))) (dict_setitem body "userdata" (userdata a));
  run use_forbiddens <- truthy_st (forbiddens a);
  run_ when use_forbiddens (dict_setitem body "forbiddens" (forbiddens a));
  run use_boostings <- truthy_st (boostings a);
  run_ when use_boostings (dict_setitem body "boostings" (boostings a));
  run_ when (negb (is_none (diarization a))) (dict_setitem body "diarization" (diarization a));
  run_ when (negb (is_none (sed a))) (dict_setitem body "sed" (sed a));
  st_ret body.

(** [open(file, "rb")] *)
Definition open_rb (env : Env) (file : Select.Path) : ST World unit :=
  if readable env file then st_ret tt else st_raise FileNotFoundError.

(** [requests.post(...)]: the request is recorded, then answered. *)
Definition post (env : Env) (r : Request) : ST World Response :=
  fun w =>
    (endpoint env (posts w) r,
     {| heap := heap w; posts := posts w ++ [r]; written := written w |}).

Definition req_upload (env : Env) (self : positive) (file : Select.Path)
  (a : UploadArgs) : ST World Response :=
  run body <- build_request_body self a;
  run c <- read_client self;
  run_ open_rb env file;
  run params <- (fun w => (json_dumps (heap w) (VRef body), w));
  post env {| url := String.append (fst (fst c)) "/recognizer/upload";
              api_key := snd (fst c);
              media := file;
              params := params;
              timeout := 300 |}.

(** [output_file.write_text(transcript)] for [RESULT_DIR / name]. *)
Definition write_text (name content : string) : ST World unit :=
  fun w =>
    (inr tt,
     {| heap := heap w; posts := posts w;
        written := written w ++ [(name, content)] |}).

Definition failure_message (clip : Select.Path) (response : Response)
  (detail : string) : string :=
  String.concat EmptyString
    ["Clova Speech request failed for "; clip; " (";
     decimal (status_code response); " "; reason response; "): "; detail].

Definition run_clova (env : Env) (client : positive) (clip : Select.Path)
  : ST World unit :=
  run response <- req_upload env client clip (default_args CLOVA_COMPLETION);
  if negb (ok response) then
    run detail <- st_lift (_format_error response);
    st_raise (SystemExit (failure_message clip response detail))
  else
    run transcript <- st_lift (extract_transcript response);
    write_text (String.append (Select.stem clip) ".txt") transcript.

(** The loop of [main] over the selected clips. *)
Fixpoint run_all (env : Env) (client : positive) (targets : list Select.Path)
  : ST World unit :=
  match targets with
  | [] => st_ret tt
  | clip :: rest => run_ run_clova env client clip; run_all env client rest
  end.

(** The dictionary that [build_request_body] leaves at the location it
    returns. *)
Definition built_body (self : positive) (a : UploadArgs) (w : World)
  : M (list (string * val)) :=
  match build_request_body self a w with
  | (inr l, w') =>
      match heap w' !! l with
      | Some (ODict items) => ret items
      | _ => raise TypeError
      end
  | (inl e, _) => raise e
  end.

(** The world with dictionary [d] stored at [l]. *)
Definition with_body (w : World) (l : positive) (d : list (string * val)) : World :=
  set_heap w (<[l := ODict d]> (heap w)).

(** [if key not in d: d[key] = v] and [if b: d[key] = v] on the items. *)
Definition set_default (key : string) (v : val) (d : list (string * val))
  : list (string * val) :=
  match dict_get d key with
  | Some _ => d
  | None => dict_set key v d
  end.

Definition set_if (b : bool) (key : string) (v : val) (d : list (string * val))
  : list (string * val) :=
  if b then dict_set key v d else d.

(** The items of the parameter block for default parameters [defaults],
    read off the steps of [build_request_body]; [h] is the store in which
    the truth of [forbiddens] and [boostings] is looked up. *)
Definition body_items (h : gmap positive obj) (defaults : list (string * val))
  (a : UploadArgs) : list (string * val) :=
  let d := dict_update (base_params a) defaults in
  let d := set_default "wordAlignment" (word_alignment a) d in
  let d := set_default "fullText" (full_text a) d in
  let d := set_if (negb (is_none (callback a))) "callback" (callback a) d in
  let d := set_if (negb (is_none (userdata a))) "userdata" (userdata a) d in
  let d := set_if (truthy h (forbiddens a)) "forbiddens" (forbiddens a) d in
  let d := set_if (truthy h (boostings a)) "boostings" (boostings a) d in
  let d := set_if (negb (is_none (diarization a))) "diarization" (diarization a) d in
  set_if (negb (is_none (sed a))) "sed" (sed a) d.

(** The request that [req_upload] posts for a client with address [u] and
    key [s]. *)
Definition upload_request (u s : string) (file : Select.Path) (p : string) : Request :=
  {| url := String.append u "/recognizer/upload"; api_key := s; media := file;
     params := p; timeout := 300 |}.

(** The world after a request was posted from the world [w]. *)
Definition posted (w : World) (r : Request) : World :=
  {| heap := heap w; posts := posts w ++ [r]; written := written w |}.

(** What the block holds for a key that the options leave out, in a call
    that passes [completion] only. *)
Definition fallback_params (completion : string) : list (string * val) :=
  [("language", VStr LANGUAGE); ("completion", VStr completion);
   ("wordAlignment", VBool true); ("fullText", VBool true)].

(** A run of [req_upload] calls, one after the other, whatever they return. *)
Fixpoint upload_calls (env : Env)
  (calls : list (positive * Select.Path * UploadArgs)) (w : World) : World :=
  match calls with
  | [] => w
  | (self, file, a) :: rest =>
      upload_calls env rest (snd (req_upload env self file a w))
  end.

(** Worlds, options and surroundings used as examples. *)
Definition options_world : World :=
  {| heap := {[ 1%positive :=
                  ODict [("wordAlignment", VBool false); ("language", VStr "en");
                         ("diarization", VRef 2)];
                2%positive := ODict [("enable", VBool false)] ]};
     posts := []; written := [] |}.

Definition failing_env : Env :=
  {| endpoint := fun _ _ =>
       inr {| status_code := 500; reason := "Server Error"; text := " boom ";
              json_body := None |};
     readable := fun _ => true |}.

(** An endpoint that answers 304 with an empty body. *)
Definition not_modified_env : Env :=
  {| endpoint := fun _ _ =>
       inr {| status_code := 304; reason := "Not Modified"; text := EmptyString;
              json_body := None |};
     readable := fun _ => true |}.

End Clova.

(** ** Files, temporary directories and ffmpeg *)
Module Fs.
Import Py.

(** Where a file lives: below [VOICE_DIR], below [RESULT_DIR], or in the
    temporary directory numbered [dir]. *)
Inductive path : Type :=
| InVoice (name : string)
| InResult (name : string)
| InTemp (dir : nat) (name : string).

#[export] Instance path_eq_dec : EqDecision path.
Proof. solve_decision. Defined.

Definition path_code (p : path) : string + string + nat * string :=
  match p with
  | InVoice n => inl (inl n)
  | InResult n => inl (inr n)
  | InTemp d n => inr (d, n)
  end.

Definition path_decode (c : string + string + nat * string) : path :=
  match c with
  | inl (inl n) => InVoice n
  | inl (inr n) => InResult n
  | inr (d, n) => InTemp d n
  end.

#[export] Instance path_countable : Countable path.
Proof.
  apply (inj_countable' path_code path_decode). intros []; reflexivity.
Defined.

(** What happens to files, in order. *)
Inductive event : Type :=
| MkTemp (dir : nat)
| Cleanup (dir : nat)
| ReadFile (p : path)
| WriteFile (p : path).

(** File contents by path, the number of the next temporary directory, and
    the events so far (latest last). *)
Record World : Type := {
  fs : gmap path string;
  next_tmp : nat;
  trace : list event
}.

(** ffmpeg: whether the executable is found, and what it writes for given
    options and input bytes ([None]: it exits with a non-zero status). *)
Record Tools : Type := {
  ffmpeg_installed : bool;
  ffmpeg : list string -> string -> option string
}.

Definition in_temp (dir : nat) (p : path) : bool :=
  match p with
  | InTemp d _ => Nat.eqb d dir
  | _ => false
  end.

Definition log (e : event) (w : World) : World :=
  {| fs := fs w; next_tmp := next_tmp w; trace := trace w ++ [e] |}.

(** [path.read_bytes()] *)
Definition read_bytes (p : path) : ST World string :=
  fun w =>
    match fs w !! p with
    | Some content => (inr content, log (ReadFile p) w)
    | None => (inl FileNotFoundError, w)
    end.

(** [path.write_text(content)] and any other whole-file write. *)
Definition write_file (p : path) (content : string) : ST World unit :=
  fun w =>
    (inr tt,
     {| fs := <[p := content]> (fs w); next_tmp := next_tmp w;
        trace := trace w ++ [WriteFile p] |}).

(** [with tempfile.TemporaryDirectory() as tmpdir: body]: a new directory,
    the body, and on the way out (also when the body raises) the removal
    of the directory with everything in it. *)
Definition with_tmpdir {A : Type} (body : nat -> ST World A) : ST World A :=
  fun w =>
    let d := next_tmp w in
    let '(r, w') :=
      body d {| fs := fs w; next_tmp := S d; trace := trace w ++ [MkTemp d] |} in
    (r,
     {| fs := filter (fun kv : path * string => in_temp d (fst kv) = false) (fs w');
        next_tmp := next_tmp w';
        trace := trace w' ++ [Cleanup d] |}).

(** [subprocess.run([FFMPEG_BIN, "-y", "-i", src, *options, dst], check=True)] *)
Definition run_ffmpeg (tools : Tools) (options : list string) (src dst : path)
  : ST World unit :=
  if ffmpeg_installed tools then
    fun w =>
      match fs w !! src with
      | Some input =>
          match ffmpeg tools options input with
          | Some output => write_file dst output (log (ReadFile src) w)
          | None => (inl CalledProcessError, log (ReadFile src) w)
          end
      | None => (inl CalledProcessError, w)
      end
  else st_raise FileNotFoundError.

(** A computation only adds events to the trace. *)
Definition appends {A : Type} (m : ST World A) : Prop :=
  forall w, exists evs, trace (snd (m w)) = trace w ++ evs.

(** A world with one clip, and an ffmpeg that hands its input through. *)
Definition clip_world : World :=
  {| fs := {[ InVoice "MYR_17388.mp4" := "RIFF0000" ]}; next_tmp := 0; trace := [] |}.

Definition copy_tools : Tools :=
  {| ffmpeg_installed := true; ffmpeg := fun _ input => Some input |}.

(** No path in directory [dir] is read or written in these events. *)
Definition untouched (dir : nat) (evs : list event) : Prop :=
  forall e, In e evs ->
    match e with
    | ReadFile p | WriteFile p => in_temp dir p = false
    | _ => True
    end.

End Fs.

(** ** [stt_google.py] *)
Module Google.
Import Py Fs.

Definition SAMPLE_RATE : Z := 16000.

Definition USE_LONG_RUNNING : bool := true.

Definition NO_TRANSCRIPT : string := "[No transcript returned]".

Definition newline : string := String (ascii_of_nat 10) EmptyString.

Definition extract_linear16_audio (tools : Tools) (src : Select.Path)
  (sample_rate : Z) : ST World string :=
  with_tmpdir (fun tmpdir =>
    let tmp_wav := InTemp tmpdir (String.append (Select.stem src) ".wav") in
    run_ (fun w =>
            match run_ffmpeg tools
                    ["-ac"; "1"; "-ar"; Json.decimal sample_rate; "-f"; "wav"]
                    (InVoice src) tmp_wav w with
            | (inl FileNotFoundError, w') =>
                (inl (SystemExit
                        "ffmpeg executable not found: ffmpeg. Install ffmpeg and ensure it is on PATH."),
                 w')
            | other => other
            end);
    read_bytes tmp_wav).

(** The recognition response: results, each with its alternatives. *)
Record Alternative : Type := { transcript : string }.

Record Result : Type := { alternatives : list Alternative }.

Record RecognizeResponse : Type := { results : list Result }.

(** A long-running operation: the time it needs and what it ends with. *)
Record Operation : Type := {
  duration : Z;
  outcome : M RecognizeResponse
}.

(** The speech client: the synchronous call and the long-running call, for
    given audio bytes. *)
Record SpeechClient : Type := {
  recognize : string -> M RecognizeResponse;
  long_running_recognize : string -> M Operation
}.

(** [operation.result(timeout=t)]: the outcome when the operation ends
    within [t], [TimeoutError] otherwise. *)
Definition operation_result (op : Operation) (t : Z) : M RecognizeResponse :=
  if duration op <=? t then outcome op else raise TimeoutError.

(** The loop over [response.results], with the lines gathered so far. *)
Fixpoint collect_lines (rs : list Result) (lines : list string) : M (list string) :=
  match rs with
  | [] => ret lines
  | result :: rest =>
      do alternative <- index (alternatives result) 0;
      if str_truthy (strip (transcript alternative))
      then collect_lines rest (lines ++ [strip (transcript alternative)])
      else collect_lines rest lines
  end.

Definition transcript_of (response : RecognizeResponse) : M string :=
  do lines <- collect_lines (results response) [];
  let t := strip (join newline lines) in
  ret (if str_truthy t then t else NO_TRANSCRIPT).

(** [run_google_speech] for either setting of [USE_LONG_RUNNING]. *)
Definition run_google_speech_mode (long_running : bool) (tools : Tools)
  (client : SpeechClient) (clip : Select.Path) : ST World unit :=
  run wav_content <- extract_linear16_audio tools clip SAMPLE_RATE;
  run response <-
    st_lift
      (if long_running then
         do operation <- long_running_recognize client wav_content;
         operation_result operation 900
       else recognize client wav_content);
  run text <- st_lift (transcript_of response);
  write_file (InResult (String.append (Select.stem clip) ".txt")) text.

Definition run_google_speech : Tools -> SpeechClient -> Select.Path -> ST World unit :=
  run_google_speech_mode USE_LONG_RUNNING.

(** The first alternative of a result, trimmed. *)
Definition first_alternative (r : Result) : list string :=
  match alternatives r with
  | a :: _ => [strip (transcript a)]
  | [] => []
  end.

(** The claim's wording for the transcript: the first alternative of every
    result, trimmed, the empty ones left out, joined by newlines. *)
Definition first_alternatives_joined (response : RecognizeResponse) : string :=
  join newline
    (List.filter str_truthy (flat_map first_alternative (results response))).

(** The options that [extract_linear16_audio] passes to ffmpeg. *)
Definition linear16_options (sample_rate : Z) : list string :=
  ["-ac"; "1"; "-ar"; Json.decimal sample_rate; "-f"; "wav"].

Definition answer (texts : list string) : RecognizeResponse :=
  {| results := map (fun t => {| alternatives := [ {| transcript := t |} ] |}) texts |}.

(** A client whose operation needs [needed] time units and ends with the
    given texts. *)
Definition client_with (needed : Z) (texts : list string) : SpeechClient :=
  {| recognize := fun _ => inr (answer texts);
     long_running_recognize := fun _ =>
       inr {| duration := needed; outcome := inr (answer texts) |} |}.

End Google.

(** ** [stt_vosk.py] *)
Module Vosk.
Import Py Fs.

Definition FFMPEG_ARGS : list string := ["-ac"; "1"; "-ar"; "16000"].

(** A [vosk.KaldiRecognizer]: a decoder with a state. [result] and
    [final_result] give what [json.loads] makes of the text they return. *)
Record Recognizer : Type := {
  rstate : Type;
  rinit : rstate;
  accept_waveform : rstate -> list ascii -> bool * rstate;
  result : rstate -> Json.value * rstate;
  final_result : rstate -> Json.value
}.

(** An opened wave file: the bytes of one frame (at least one) and the
    frame data still to be read. *)
Record Wave : Type := {
  frame_bytes : positive;
  frames : list ascii
}.

(** The libraries around the script: ffmpeg, and [wave.open] on the bytes
    of a file. *)
Record Env : Type := {
  tools : Tools;
  wave_open : string -> M Wave
}.

(** [d.get("text", default)] on a loaded value. *)
Definition get_text (v : Json.value) : M Json.value :=
  match v with
  | Json.Obj members =>
      match Json.obj_get members "text" with
      | Some t => ret t
      | None => ret (Json.Str EmptyString)
      end
  | _ => raise AttributeError
  end.

(** The [while True] loop of [transcribe]: [readframes] hands out [chunk]
    bytes at a time until none are left. *)
Equations? feed (rec : Recognizer) (chunk : positive) (st : rstate rec)
  (data : list ascii) (pieces : list Json.value)
  : M (list Json.value * rstate rec) by wf (length data) lt :=
feed rec chunk st [] pieces := ret (pieces, st);
feed rec chunk st (c :: cs) pieces :=
  let block := firstn (Pos.to_nat chunk) (c :: cs) in
  let remaining := skipn (Pos.to_nat chunk) (c :: cs) in
  match accept_waveform rec st block with
  | (true, st1) =>
      match get_text (fst (result rec st1)) with
      | inr piece => feed rec chunk (snd (result rec st1)) remaining (pieces ++ [piece])
      | inl e => raise e
      end
  | (false, st1) => feed rec chunk st1 remaining pieces
  end.
Proof.
  all: subst remaining; rewrite length_skipn; cbn [length]; lia.
Qed.

(** [sep.join(filter(None, pieces))]: the true pieces, which must all be
    strings. *)
Fixpoint true_strings (pieces : list Json.value) : M (list string) :=
  match pieces with
  | [] => ret []
  | p :: rest =>
      if Json.truthy p then
        match p with
        | Json.Str s => do ss <- true_strings rest; ret (s :: ss)
        | _ => raise TypeError
        end
      else true_strings rest
  end.

Definition convert_to_wav (env : Env) (src dst : path) : ST World unit :=
  run_ffmpeg (tools env) FFMPEG_ARGS src dst.

Definition transcribe (env : Env) (audio_wav : path) (recognizer : Recognizer)
  : ST World string :=
  run content <- read_bytes audio_wav;
  run wf <- st_lift (wave_open env content);
  run fed <-
    st_lift (feed recognizer (4000 * frame_bytes wf) (rinit recognizer) (frames wf) []);
  run last <- st_lift (get_text (final_result recognizer (snd fed)));
  run texts <- st_lift (true_strings (fst fed ++ [last]));
  st_ret (strip (join " " texts)).

Definition run_vosk (env : Env) (clip : Select.Path) (model : Recognizer)
  : ST World unit :=
  run text <-
    with_tmpdir (fun tmpdir =>
      let wav_path := InTemp tmpdir (String.append (Select.stem clip) ".wav") in
      run_ convert_to_wav env (InVoice clip) wav_path;
      transcribe env wav_path model);
  write_file (InResult (String.append (Select.stem clip) ".txt")) text.

(** A recogniser that hears nothing: no block completes an utterance and
    the final result has an empty text. *)
Definition silent : Recognizer :=
  {| rstate := unit;
     rinit := tt;
     accept_waveform := fun st _ => (false, st);
     result := fun st => (Json.Obj [("text", Json.Str EmptyString)], st);
     final_result := fun _ => Json.Obj [("text", Json.Str EmptyString)] |}.

Definition pcm_env : Env :=
  {| tools := copy_tools;
     wave_open := fun content =>
       ret {| frame_bytes := 2; frames := list_ascii_of_string content |} |}.

End Vosk.

(** ** Further notions for the properties of the scripts *)
Module Names.
Import Py Select.

(** The number that a run of decimal digits denotes. *)
Definition digits_value (ds : list ascii) : Z :=
  fold_left (fun acc c => 10 * acc + digit_value c) ds 0.

(** Groups of digits with one underscore between neighbours. *)
Fixpoint join_groups (groups : list (list ascii)) : list ascii :=
  match groups with
  | [] => []
  | [g] => g
  | g :: rest => g ++ "_"%char :: join_groups rest
  end.

(** The file name [<prefix>_<token>.<ext>]. *)
Definition clip_name (pre token ext : list ascii) : Path :=
  string_of_list_ascii (pre ++ "_"%char :: token ++ "."%char :: ext).

Definition lacks (c : ascii) (l : list ascii) : Prop :=
  List.Forall (fun x => Ascii.eqb x c = false) l.

(** A non-empty run of decimal digits. *)
Definition digit_group (g : list ascii) : Prop :=
  g <> [] /\ List.Forall (fun c => isdigit c = true) g.

(** The qualifying entries of a directory, in directory order. *)
Definition qualifying (d : Dir) (start_id : Z) : list Path :=
  List.filter (qualifies start_id) (glob d).

Definition same_key (k : Z) (p : Path) : bool := clip_key p =? k.

End Names.

(** ** [stt_clova.py]: the lines of [main] after the client is made *)
Module ClovaBatch.
Import Py Store Clova.

Definition NO_TARGETS : string := "No MP4 files matched the requested start ID.".

(** Lines 176 to 182 of [main]: the selection, the check that it is not
    empty, and the loop over the clips. *)
Definition upload_selected (env : Env) (client : positive) (d : Select.Dir)
  : ST World unit :=
  run targets <- st_lift (Select.select_targets d START_ID TARGET_COUNT);
  match targets with
  | [] => st_raise (SystemExit NO_TARGETS)
  | _ :: _ => run_all env client targets
  end.

(** The name of the transcript file of a clip. *)
Definition output_name (clip : Select.Path) : string :=
  String.append (Select.stem clip) ".txt".

(** Arguments with a callback address and an empty list of forbidden words. *)
Definition callback_args : UploadArgs :=
  {| completion := VStr "async"; callback := VStr "https://cb.example";
     userdata := VNone; forbiddens := VRef 5; boostings := VNone;
     word_alignment := VBool true; full_text := VBool false;
     diarization := VNone; sed := VNone |}.

(** A store with a client (at 4) whose default parameters (at 3) set
    [wordAlignment], [language], [diarization] and [callback], and with an
    empty list (at 5). *)
Definition client_world : World :=
  {| heap := {[ 2%positive := ODict [("enable", VBool false)];
                3%positive :=
                  ODict [("wordAlignment", VBool false); ("language", VStr "en");
                         ("diarization", VRef 2); ("callback", VStr "https://old.example")];
                4%positive := OClient "https://clova.example" "key" 3;
                5%positive := OList [] ]};
     posts := []; written := [] |}.

(** An endpoint that answers every request with the same transcript. *)
Definition fixed_env (answer : string) : Env :=
  {| endpoint := fun _ _ =>
       inr {| status_code := 200; reason := "OK"; text := EmptyString;
              json_body := Some (Json.Obj [("text", Json.Str answer)]) |};
     readable := fun _ => true |}.

End ClovaBatch.

(** ** [stt_clova.py]: [load_config] *)
Module ClovaConfig.
Import Py Json.

Fixpoint drop_slashes (l : list ascii) : list ascii :=
  match l with
  | [] => []
  | c :: r => if Ascii.eqb c "/"%char then drop_slashes r else l
  end.

(** [s.rstrip("/")] *)
Definition rstrip_slash (s : string) : string :=
  string_of_list_ascii (rev (drop_slashes (rev (list_ascii_of_string s)))).

Definition is_null (v : value) : bool :=
  match v with
  | Null => true
  | _ => false
  end.

Definition not_found (config_path : string) : string :=
  String.concat EmptyString
    ["Clova config not found: "; config_path; ". ";
     "Copy clova_config.example.json to clova_config.json and fill in your credentials."].

Definition missing_field (key : string) : string :=
  String.append "Missing field in config: " key.

Definition MUST_PROVIDE : string :=
  "invoke_url and secret must be provided in clova_config.json".

Definition NOT_AN_OBJECT : string :=
  "request_options must be a JSON object if provided.".

(** [load_config(config_path)]. [file] is [None] when the path does not
    exist, and otherwise what reading the file and [json.loads] give. The
    result is the address, the secret as loaded, and the request options
    without the entries that are [null]. *)
Definition load_config (config_path : string) (file : option (M value))
  : M (string * value * list (string * value)) :=
  match file with
  | None => raise (SystemExit (not_found config_path))
  | Some loaded =>
      do data <- loaded;
      match data with
      | Obj members =>
          match obj_get members "invoke_url" with
          | None => raise (SystemExit (missing_field "invoke_url"))
          | Some (Str raw) =>
              let invoke_url := rstrip_slash raw in
              match obj_get members "secret" with
              | None => raise (SystemExit (missing_field "secret"))
              | Some secret =>
                  if negb (str_truthy invoke_url) || negb (truthy secret)
                  then raise (SystemExit MUST_PROVIDE)
                  else
                    let request_options :=
                      match obj_get members "request_options" with
                      | Some v => if truthy v then v else Obj []
                      | None => Obj []
                      end in
                    match request_options with
                    | Obj items =>
                        ret (invoke_url, secret,
                             List.filter (fun kv => negb (is_null (snd kv))) items)
                    | _ => raise (SystemExit NOT_AN_OBJECT)
                    end
              end
          | Some _ => raise AttributeError
          end
      | _ => raise TypeError
      end
  end.

(** An object has each key once. *)
Definition object_wf (members : list (string * value)) : Prop :=
  List.NoDup (map fst members).

(** The last character of a string, if any. *)
Definition last_char (s : string) : option ascii :=
  match rev (list_ascii_of_string s) with
  | [] => None
  | c :: _ => Some c
  end.

Definition example_config : value :=
  Obj [("invoke_url", Str "https://clova.example/api//");
       ("secret", Str "key");
       ("request_options",
        Obj [("diarization", Obj [("enable", Bool false)]); ("callback", Null);
             ("wordAlignment", Bool false)])].

End ClovaConfig.

(** ** Further notions for the Google and Vosk runs *)
Module Runs.
Import Py Fs.

(** The path of the transcript of a clip. *)
Definition result_path (clip : Select.Path) : path :=
  InResult (String.append (Select.stem clip) ".txt").

Definition FFMPEG_NOT_FOUND : string :=
  "ffmpeg executable not found: ffmpeg. Install ffmpeg and ensure it is on PATH.".

(** A file that is not in a temporary directory. *)
Definition persistent (p : path) : bool :=
  match p with
  | InTemp _ _ => false
  | _ => true
  end.

(** The recogniser calls of the loop of [transcribe] for given blocks of
    frame data. *)
Fixpoint feed_blocks (rec : Vosk.Recognizer) (st : Vosk.rstate rec)
  (blocks : list (list ascii)) (pieces : list Json.value)
  : M (list Json.value * Vosk.rstate rec) :=
  match blocks with
  | [] => ret (pieces, st)
  | block :: rest =>
      match Vosk.accept_waveform rec st block with
      | (true, st1) =>
          match Vosk.get_text (fst (Vosk.result rec st1)) with
          | inr piece =>
              feed_blocks rec (snd (Vosk.result rec st1)) rest (pieces ++ [piece])
          | inl e => raise e
          end
      | (false, st1) => feed_blocks rec st1 rest pieces
      end
  end.

(** Every block but the last has [n] items, the last has between 1 and [n]. *)
Fixpoint blocks_of (n : nat) (blocks : list (list ascii)) : Prop :=
  match blocks with
  | [] => True
  | b :: rest =>
      match rest with
      | [] => b <> [] /\ (length b <= n)%nat
      | _ :: _ => length b = n /\ blocks_of n rest
      end
  end.

(** [for idx, clip in enumerate(targets, start=1): action(clip)] *)
Fixpoint for_each {S : Type} (action : Select.Path -> ST S unit)
  (targets : list Select.Path) : ST S unit :=
  match targets with
  | [] => st_ret tt
  | clip :: rest => run_ action clip; for_each action rest
  end.

Definition NO_TARGETS : string := "No MP4 files matched the requested start ID.".

(** The lines that the [main] of each script has in common: the
    selection, the check that it is not empty, and the loop. *)
Definition selected_runs {S : Type} (start_id limit : Z)
  (action : Select.Path -> ST S unit) (d : Select.Dir) : ST S unit :=
  run targets <- st_lift (Select.select_targets d start_id limit);
  match targets with
  | [] => st_raise (SystemExit NO_TARGETS)
  | _ :: _ => for_each action targets
  end.

End Runs.

(** ** [stt_google.py]: [main] from the selection on *)
Module GoogleBatch.
Import Py Fs.

Definition START_ID : Z := 17388.

Definition TARGET_COUNT : Z := 20.

Definition transcribe_selected (tools : Tools) (client : Google.SpeechClient)
  (d : Select.Dir) : ST World unit :=
  Runs.selected_runs START_ID TARGET_COUNT (Google.run_google_speech tools client) d.

End GoogleBatch.

(** ** [stt_vosk.py]: [main] from the selection on *)
Module VoskBatch.
Import Py Fs.

Definition START_ID : Z := 17388.

Definition TARGET_COUNT : Z := 20.

Definition transcribe_selected (env : Vosk.Env) (model : Vosk.Recognizer)
  (d : Select.Dir) : ST World unit :=
  Runs.selected_runs START_ID TARGET_COUNT
    (fun clip => Vosk.run_vosk env clip model) d.

End VoskBatch.

(** ** [stt_whisper.py] *)
Module Whisper.
Import Py.

Definition VOICE_DIR : string := "data\voice".

Definition RESULT_DIR : string := "data\result_whisper".

Definition WHISPER_BIN : string := "whisper".

Definition LANGUAGE : string := "Korean".

Definition MODEL : string := "large".

Definition OUTPUT_FORMAT : string := "txt".

Definition START_ID : Z := 17388.

Definition TARGET_COUNT : Z := 20.

Definition EXTRA_ARGS : list string := [].

(** The commands handed to [subprocess.run] so far, latest last. *)
Definition World : Type := list (list string).

(** The surroundings: the separator that [pathlib] puts between a
    directory and a name, and [subprocess.run(cmd, check=True)], whose
    outcome may depend on the commands run before. *)
Record Env : Type := {
  sep : string;
  subprocess_run : World -> list string -> M unit
}.

(** [str(VOICE_DIR / name)] *)
Definition voice_path (env : Env) (name : Select.Path) : string :=
  String.append VOICE_DIR (String.append (sep env) name).

Definition command (env : Env) (target : Select.Path) : list string :=
  [WHISPER_BIN; voice_path env target; "--language"; LANGUAGE; "--model"; MODEL;
   "--output_dir"; RESULT_DIR; "--output_format"; OUTPUT_FORMAT] ++ EXTRA_ARGS.

Definition run_whisper (env : Env) (target : Select.Path) : ST World unit :=
  fun w => (subprocess_run env w (command env target), w ++ [command env target]).

(** [main] from the selection on. *)
Definition transcribe_selected (env : Env) (d : Select.Dir) : ST World unit :=
  Runs.selected_runs START_ID TARGET_COUNT (run_whisper env) d.

(** A whisper that works [n] times and fails from then on. *)
Definition failing_after (n : nat) : Env :=
  {| sep := "/";
     subprocess_run := fun w _ =>
       if (length w <? n)%nat then ret tt else raise CalledProcessError |}.

End Whisper.

(** * Properties *)

(** ** Lists: the stable sort and the slice *)
Section SortByKey.
Context {A : Type} (key : A -> Z).

Import Py.

Lemma insert_by_key_perm (x : A) (l : list A) :
  Permutation (Py.insert_by_key key x l) (x :: l).
Proof.
  induction l as [|y r IH]; simpl; [reflexivity|].
  destruct (key x <=? key y); [reflexivity|].
  rewrite IH. apply perm_swap.
Qed.

Lemma sort_by_key_perm (l : list A) : Permutation (Py.sort_by_key key l) l.
Proof.
  induction l as [|x r IH]; simpl; [reflexivity|].
  rewrite insert_by_key_perm. now constructor.
Qed.

Lemma insert_by_key_sorted (x : A) (l : list A) :
  StronglySorted (key_le key) l -> StronglySorted (key_le key) (Py.insert_by_key key x l).
Proof.
  induction 1 as [|y r Hr IH Hy]; simpl.
  - repeat constructor.
  - destruct (Z.leb_spec (key x) (key y)) as [Hxy|Hxy].
    + constructor; [now constructor|].
      constructor; [exact Hxy|].
      eapply List.Forall_impl; [|exact Hy]. unfold key_le. intros; lia.
    + constructor; [exact IH|].
      eapply Permutation_Forall; [symmetry; apply insert_by_key_perm|].
      constructor; [unfold key_le; lia | exact Hy].
Qed.

Lemma sort_by_key_sorted (l : list A) :
  StronglySorted (key_le key) (Py.sort_by_key key l).
Proof.
  induction l as [|x r IH]; simpl; [constructor|].
  now apply insert_by_key_sorted.
Qed.

(** Stability: items with one key keep their relative order. *)
Lemma insert_by_key_stable (k : Z) (x : A) (l : list A) :
  List.filter (fun a => key a =? k) (Py.insert_by_key key x l)
  = List.filter (fun a => key a =? k) (x :: l).
Proof.
  induction l as [|y r IH]; [reflexivity|].
  cbn [Py.insert_by_key].
  destruct (Z.leb_spec (key x) (key y)) as [Hxy|Hxy]; [reflexivity|].
  cbn [List.filter] in *. rewrite IH.
  destruct (Z.eqb_spec (key x) k), (Z.eqb_spec (key y) k); try reflexivity; lia.
Qed.

Lemma sort_by_key_stable (k : Z) (l : list A) :
  List.filter (fun a => key a =? k) (Py.sort_by_key key l)
  = List.filter (fun a => key a =? k) l.
Proof.
  induction l as [|x r IH]; [reflexivity|].
  cbn [Py.sort_by_key]. rewrite insert_by_key_stable.
  cbn [List.filter]. now rewrite IH.
Qed.

Lemma firstn_In (n : nat) (l : list A) (a : A) : In a (firstn n l) -> In a l.
Proof.
  intros H. rewrite <- (firstn_skipn n l). apply in_or_app. now left.
Qed.

Lemma sorted_firstn (R : A -> A -> Prop) (n : nat) (l : list A) :
  StronglySorted R l -> StronglySorted R (firstn n l).
Proof.
  intros H. revert n. induction H as [|x r Hr IH Hx]; intros [|n]; simpl;
    try constructor; auto.
  apply List.Forall_forall. intros y Hy. rewrite List.Forall_forall in Hx.
  apply Hx. eapply firstn_In; eauto.
Qed.

Lemma sorted_app_le (R : A -> A -> Prop) (l1 l2 : list A) :
  StronglySorted R (l1 ++ l2) ->
  forall a b, In a l1 -> In b l2 -> R a b.
Proof.
  induction l1 as [|x r IH]; simpl; intros H a b Ha Hb; [contradiction|].
  inversion H as [|? ? Hs Hf]; subst.
  destruct Ha as [->|Ha].
  - rewrite List.Forall_forall in Hf. apply Hf, in_or_app. now right.
  - eapply IH; eauto.
Qed.

Lemma sorted_nodup_strict (l : list A) :
  StronglySorted (key_le key) l -> List.NoDup (map key l) -> StronglySorted (key_lt key) l.
Proof.
  induction 1 as [|x r Hr IH Hx]; simpl; intros Hnd; [constructor|].
  inversion Hnd as [|? ? Hnotin Hnd']; subst.
  constructor; [auto|].
  rewrite List.Forall_forall in *. intros y Hy.
  specialize (Hx y Hy). unfold key_le, key_lt in *.
  assert (key x <> key y); [|lia].
  intros Heq. apply Hnotin. rewrite Heq. now apply in_map.
Qed.

Lemma sort_by_key_tagged (l : list A) :
  Py.sort_by_key fst (map (fun a => (key a, a)) l)
  = map (fun a => (key a, a)) (Py.sort_by_key key l).
Proof.
  induction l as [|x r IH]; [reflexivity|].
  cbn [map Py.sort_by_key]. rewrite IH.
  generalize (Py.sort_by_key key r) as s. clear.
  induction s as [|y s IH]; [reflexivity|].
  cbn [map Py.insert_by_key fst].
  destruct (key x <=? key y); [reflexivity|].
  cbn [map]. now rewrite IH.
Qed.

End SortByKey.

Lemma slice_to_map {A B : Type} (f : A -> B) (l : list A) (n : Z) :
  map f (Py.slice_to l n) = Py.slice_to (map f l) n.
Proof.
  unfold Py.slice_to. rewrite length_map.
  destruct (0 <=? n); now rewrite firstn_map.
Qed.

Lemma slice_to_nonneg {A : Type} (l : list A) (n : Z) :
  0 <= n -> Py.slice_to l n = firstn (Z.to_nat n) l.
Proof.
  intros H. unfold Py.slice_to.
  destruct (Z.leb_spec 0 n); [reflexivity | lia].
Qed.

(** ** [int] raises nothing but [ValueError] *)
Lemma int_of_chars_raises (l : list ascii) (e : Py.exn) :
  Py.int_of_chars l = inl e -> e = Py.ValueError.
Proof.
  unfold Py.int_of_chars, Py.raise, Py.ret.
  repeat (match goal with
          | |- context [match ?x with _ => _ end] => destruct x
          | |- context [if ?x then _ else _] => destruct x
          end; try congruence).
Qed.

Lemma int_raises (s : string) (e : Py.exn) :
  Py.int s = inl e -> e = Py.ValueError.
Proof. apply int_of_chars_raises. Qed.

(** ** Clip selection *)
Section Selection.
Import Py Select.

Lemma parse_clip_id_total (p : Path) : parse_clip_id p = inr (clip_id p).
Proof.
  unfold clip_id.
  destruct (parse_clip_id p) as [e|o] eqn:E; [|reflexivity].
  exfalso. revert E. unfold parse_clip_id, try_except, bind, index, ret, raise.
  destruct (nth_error _ 1) as [tok|]; [|discriminate].
  destruct (int tok) as [e'|n] eqn:Ei; [|discriminate].
  apply int_raises in Ei. subst e'. discriminate.
Qed.

Lemma parse_clip_id_token (p : Path) :
  parse_clip_id p =
  match token p with
  | None => inr None
  | Some tok =>
      match int tok with
      | inr n => inr (Some n)
      | inl _ => inr None
      end
  end.
Proof.
  unfold parse_clip_id, token, try_except, bind, index, ret, raise.
  destruct (nth_error _ 1) as [tok|]; [|reflexivity].
  destruct (int tok) as [e'|n] eqn:Ei; [|reflexivity].
  apply int_raises in Ei. now subst e'.
Qed.

Lemma collect_spec (start_id : Z) (paths : list Path) (numbered : list (Z * Path)) :
  collect start_id paths numbered = inr (numbered ++ tagged start_id paths).
Proof.
  revert numbered. induction paths as [|p r IH]; intros numbered.
  - unfold tagged. simpl. now rewrite app_nil_r.
  - cbn [collect]. rewrite parse_clip_id_total. cbn [bind].
    unfold tagged. cbn [List.filter]. unfold qualifies at 1, clip_key.
    destruct (clip_id p) as [id|] eqn:Eid; [|apply IH].
    destruct (Z.ltb_spec id start_id), (Z.leb_spec start_id id); try lia.
    + apply IH.
    + rewrite IH. unfold tagged. cbn [map]. rewrite Eid.
      now rewrite <- app_assoc.
Qed.

(** [select_targets] always returns, and what it returns is the slice of
    the stably sorted qualifying paths. *)
Lemma select_targets_eq (d : Dir) (start_id limit : Z) :
  select_targets d start_id limit
  = inr (slice_to (sort_by_key clip_key (List.filter (qualifies start_id) (glob d))) limit).
Proof.
  unfold select_targets. rewrite collect_spec. cbn [bind app ret].
  unfold tagged. rewrite sort_by_key_tagged, slice_to_map, map_map.
  cbn [snd]. now rewrite map_id.
Qed.

Lemma qualifies_spec (start_id : Z) (p : Path) :
  qualifies start_id p = true <->
  exists id, parse_clip_id p = inr (Some id) /\ start_id <= id.
Proof.
  rewrite parse_clip_id_total. unfold qualifies.
  destruct (clip_id p) as [id|]; split.
  - intros H. exists id. split; [reflexivity|]. now apply Z.leb_le.
  - intros (id' & [= ->] & H). now apply Z.leb_le.
  - discriminate.
  - intros (id' & [=] & _).
Qed.

Lemma glob_In (d : Dir) (p : Path) :
  In p (glob d) <-> In p (entries d) /\ glob_match (case_insensitive d) p = true.
Proof. unfold glob. apply filter_In. Qed.

End Selection.

(** ** Tokens that [int] rejects *)
Section ForeignChars.
Import Py Select.

Lemma c_isspace_isspace (c : ascii) : c_isspace c = true -> isspace c = true.
Proof. destruct c as [[] [] [] [] [] [] [] []]; vm_compute; congruence. Qed.

Lemma foreign_not_c_space (c : ascii) : foreign_char c = true -> c_isspace c = false.
Proof.
  unfold foreign_char. intros H.
  destruct (c_isspace c) eqn:E; [|reflexivity].
  rewrite (c_isspace_isspace c E), !orb_true_r in H. discriminate.
Qed.

Lemma skip_c_space_foreign (l : list ascii) :
  existsb foreign_char l = true -> existsb foreign_char (skip_c_space l) = true.
Proof.
  induction l as [|c r IH]; [trivial|]. cbn [skip_c_space existsb].
  destruct (c_isspace c) eqn:E; [|trivial].
  destruct (foreign_char c) eqn:F; [|exact IH].
  apply foreign_not_c_space in F. congruence.
Qed.

Lemma to_ascii_buffer_foreign (l : list ascii) :
  existsb foreign_char l = true -> existsb foreign_char (to_ascii_buffer l) = true.
Proof.
  induction l as [|c r IH]; [trivial|]. cbn [to_ascii_buffer existsb].
  destruct (code c <? 127)%N.
  - cbn [existsb]. destruct (foreign_char c); [trivial|exact IH].
  - destruct (isspace c) eqn:E; [|reflexivity].
    unfold foreign_char at 1. rewrite E, !orb_true_r. exact IH.
Qed.

Lemma transform_foreign (l : list ascii) :
  existsb foreign_char l = true ->
  existsb foreign_char (transform_decimal_and_space l) = true.
Proof.
  unfold transform_decimal_and_space.
  destruct (forallb _ l); [trivial|apply to_ascii_buffer_foreign].
Qed.

Lemma scan_digits_foreign (l : list ascii) :
  existsb foreign_char l = true ->
  forall (prev_us : bool) (acc : Z) (nd : nat),
    match scan_digits prev_us acc nd l with
    | None => True
    | Some (_, _, rest) => existsb foreign_char rest = true
    end.
Proof.
  induction l as [|c r IH]; [discriminate|].
  intros H prev_us acc nd. cbn [scan_digits].
  destruct (Ascii.eqb c "_") eqn:Eu.
  - destruct prev_us; [trivial|]. apply IH.
    cbn [existsb] in H. unfold foreign_char in H at 1.
    rewrite Eu, !orb_true_r in H. exact H.
  - destruct (isdigit c) eqn:Ed.
    + apply IH. cbn [existsb] in H. unfold foreign_char in H at 1.
      rewrite Ed in H. exact H.
    + destruct prev_us; [trivial|exact H].
Qed.

(** A token with a character that is neither a digit, a sign, an
    underscore nor white space is rejected. *)
Lemma int_rejects_foreign (s : string) :
  existsb foreign_char (list_ascii_of_string s) = true -> int s = inl ValueError.
Proof.
  intros H. unfold int, int_of_chars.
  apply transform_foreign, skip_c_space_foreign in H.
  destruct (skip_c_space _) as [|c r]; [discriminate|].
  assert (Hsign :
    existsb foreign_char
      (snd (if Ascii.eqb c "+" then (false, r)
            else if Ascii.eqb c "-" then (true, r) else (false, c :: r))) = true).
  { cbn [existsb] in H. unfold foreign_char in H at 1.
    destruct (Ascii.eqb c "+") eqn:Ep; [|destruct (Ascii.eqb c "-") eqn:Em].
    - rewrite !orb_true_r in H. exact H.
    - rewrite !orb_true_r in H. exact H.
    - cbn [snd existsb]. unfold foreign_char at 1. now rewrite Ep, Em. }
  destruct (if Ascii.eqb c "+" then _ else _) as [negative l2].
  cbn [snd] in Hsign.
  destruct l2 as [|c2 r2]; [reflexivity|].
  destruct (Ascii.eqb c2 "_"); [reflexivity|].
  pose proof (scan_digits_foreign (c2 :: r2) Hsign false 0 0%nat) as Hscan.
  destruct (scan_digits false 0 0 (c2 :: r2)) as [[[v nd] rest]|]; [|reflexivity].
  destruct (nd =? 0)%nat; [reflexivity|].
  destruct (int_max_str_digits <? nd)%nat; [reflexivity|].
  apply skip_c_space_foreign in Hscan.
  destruct (skip_c_space rest); [discriminate|reflexivity].
Qed.

Lemma foreign_token_malformed (p : Path) (tok : string) :
  token p = Some tok ->
  existsb foreign_char (list_ascii_of_string tok) = true ->
  malformed p.
Proof.
  intros Ht Hf. unfold malformed. rewrite Ht. now apply int_rejects_foreign.
Qed.

Lemma absent_token_malformed (p : Path) : token p = None -> malformed p.
Proof. intros Ht. unfold malformed. now rewrite Ht. Qed.

End ForeignChars.

Section SelectionClaims.
Import Py Select.

Lemma select_targets_members (d : Dir) (start_id limit : Z) (p : Path) :
  In p (slice_to (sort_by_key clip_key (List.filter (qualifies start_id) (glob d))) limit) ->
  In p (List.filter (qualifies start_id) (glob d)).
Proof.
  intros H. eapply Permutation_in; [apply sort_by_key_perm|].
  unfold slice_to in H. destruct (0 <=? limit); eapply firstn_In; exact H.
Qed.

(** C1, as amended. For every directory and every criteria with a limit of
    at least 0, [select_targets] returns without raising, and the result:
    holds only globbed entries whose parsed identifier is defined and at
    least [start_id]; is ascending by the integer identifier, and strictly
    ascending when no two qualifying entries parse to the same identifier;
    has [min limit (number of qualifying entries)] items; and is a lowest
    part of the qualifying entries (what is left out has identifiers at
    least as large as every selected one). *)
Theorem select_targets_sorted_filtered_capped (d : Dir) (start_id limit : Z) :
  0 <= limit ->
  exists res : list Path,
    select_targets d start_id limit = inr res
    /\ (forall p, In p res ->
          In p (entries d) /\ glob_match (case_insensitive d) p = true
          /\ exists id, parse_clip_id p = inr (Some id)
                        /\ clip_key p = id /\ start_id <= id)
    /\ StronglySorted (fun a b => clip_key a <= clip_key b) res
    /\ length res
       = Nat.min (Z.to_nat limit)
                 (length (List.filter (qualifies start_id) (glob d)))
    /\ (exists rest : list Path,
          Permutation (res ++ rest) (List.filter (qualifies start_id) (glob d))
          /\ forall a b, In a res -> In b rest -> clip_key a <= clip_key b)
    /\ (List.NoDup (map clip_key (List.filter (qualifies start_id) (glob d))) ->
        StronglySorted (fun a b => clip_key a < clip_key b) res).
Proof.
  intros Hlimit.
  set (quals := List.filter (qualifies start_id) (glob d)).
  set (sorted := sort_by_key clip_key quals).
  exists (slice_to sorted limit).
  split; [apply select_targets_eq|].
  assert (Hsorted : StronglySorted (key_le clip_key) sorted)
    by apply sort_by_key_sorted.
  assert (Hperm : Permutation sorted quals) by apply sort_by_key_perm.
  split; [|rewrite (slice_to_nonneg sorted limit Hlimit); repeat split].
  - intros p Hp. apply select_targets_members in Hp.
    apply filter_In in Hp. destruct Hp as [Hg Hq].
    apply glob_In in Hg. destruct Hg as [He Hm].
    repeat split; try assumption.
    apply qualifies_spec in Hq. destruct Hq as (id & Hid & Hle).
    exists id. repeat split; try assumption.
    unfold clip_key, clip_id. now rewrite Hid.
  - now apply sorted_firstn.
  - rewrite length_firstn. rewrite (Permutation_length Hperm). reflexivity.
  - exists (skipn (Z.to_nat limit) sorted). split.
    + now rewrite firstn_skipn.
    + apply (sorted_app_le (key_le clip_key)). now rewrite firstn_skipn.
  - intros Hnd. apply sorted_firstn.
    apply (sorted_nodup_strict clip_key); [assumption|].
    eapply Permutation_NoDup; [|exact Hnd].
    apply Permutation_map. now symmetry.
Qed.

Lemma select_targets_sorted_filtered_capped_witness :
  0 <= 2 /\
  exists res : list Path,
    select_targets unpadded_dir 9 2 = inr res
    /\ res = ["MYR_9.mp4"; "MYR_10.mp4"].
Proof.
  split; [lia|].
  destruct (select_targets_sorted_filtered_capped unpadded_dir 9 2 ltac:(lia))
    as (res & Hres & _).
  exists res. split; [exact Hres|].
  vm_compute in Hres. now injection Hres as <-.
Defined.

(** Two entries that parse to the same identifier are both selected, so the
    result is not strictly ascending. *)
Lemma select_targets_not_strictly_ascending :
  select_targets padded_dir 1 2 = inr ["MYR_1.mp4"; "MYR_01.mp4"]
  /\ parse_clip_id "MYR_1.mp4" = inr (Some 1)
  /\ parse_clip_id "MYR_01.mp4" = inr (Some 1)
  /\ ~ StronglySorted (fun a b => clip_key a < clip_key b)
         ["MYR_1.mp4"; "MYR_01.mp4"].
Proof.
  repeat split; try (vm_compute; reflexivity).
  intros H. inversion H as [|? ? _ Hf]; subst.
  inversion Hf as [|? ? Hlt _]; subst.
  vm_compute in Hlt. discriminate.
Qed.

(** On the scenario's directory the selection is not the two-element
    sequence: every name there has a non-numeric token. *)
Lemma scenario_selection_differs :
  select_targets {| entries := scenario_names; case_insensitive := false |} 17388 2
  <> inr ["MYR_17388_y.mp4"; "MYR_17390_x.mp4"].
Proof. vm_compute. discriminate. Qed.

(** C2, as amended. In the scenario's directory the token after the first
    underscore is ["17390_x"], ["17388_y"], ["bad"], ["17395_z"]; [int]
    rejects all four, so the selection is empty. With the names
    [MYR_17390.mp4], [MYR_17388.mp4], [MYR_bad.mp4], [MYR_17395.mp4] the
    selection for [start_id = 17388], [limit = 2] is
    [MYR_17388.mp4; MYR_17390.mp4] in that order. *)
Theorem scenario_selection :
  map token scenario_names
  = [Some "17390_x"; Some "17388_y"; Some "bad"; Some "17395_z"]
  /\ map parse_clip_id scenario_names = [inr None; inr None; inr None; inr None]
  /\ (forall ci : bool,
        select_targets {| entries := scenario_names; case_insensitive := ci |} 17388 2
        = inr [])
  /\ map parse_clip_id plain_names
     = [inr (Some 17390); inr (Some 17388); inr None; inr (Some 17395)]
  /\ (forall ci : bool,
        select_targets {| entries := plain_names; case_insensitive := ci |} 17388 2
        = inr ["MYR_17388.mp4"; "MYR_17390.mp4"]).
Proof.
  repeat split; try (intros [|]); vm_compute; reflexivity.
Qed.

Lemma malformed_no_clip_id (p : Path) : malformed p -> clip_id p = None.
Proof.
  unfold malformed, clip_id. rewrite parse_clip_id_token.
  destruct (token p) as [tok|]; [|reflexivity].
  now intros ->.
Qed.

(** A token that is not a number but that [int] accepts is not left out:
    digits with single underscores between them, and digits with white
    space or a sign around them, parse to an identifier, and the file is
    selected. *)
Lemma int_accepts_more_than_numbers :
  parse_clip_id "MYR_17388_2.mp4" = inr (Some 173882)
  /\ parse_clip_id "MYR_1_0.mp4" = inr (Some 10)
  /\ parse_clip_id "MYR_ 5.mp4" = inr (Some 5)
  /\ parse_clip_id "MYR_+7.mp4" = inr (Some 7)
  /\ ~ malformed "MYR_17388_2.mp4"
  /\ select_targets
       {| entries := ["MYR_17388_2.mp4"; "MYR_17390.mp4"; "MYR_1_0.mp4"];
          case_insensitive := false |} 17388 20
     = inr ["MYR_17390.mp4"; "MYR_17388_2.mp4"].
Proof.
  repeat split; try (vm_compute; reflexivity).
  vm_compute. discriminate.
Qed.

(** C8, as amended. A file name whose identifier token is absent or rejected by [int]
    parses to [None] without an exception; [select_targets] returns
    without raising, leaves that file out, and selects from the other
    entries exactly what it selects when the file is not there. *)
Theorem malformed_name_excluded (p : Path) :
  malformed p ->
  parse_clip_id p = inr None
  /\ forall (before after : list Path) (ci : bool) (start_id limit : Z),
       select_targets {| entries := before ++ p :: after; case_insensitive := ci |}
                      start_id limit
       = select_targets {| entries := before ++ after; case_insensitive := ci |}
                        start_id limit
       /\ exists res : list Path,
            select_targets {| entries := before ++ p :: after; case_insensitive := ci |}
                           start_id limit = inr res
            /\ ~ In p res.
Proof.
  intros Hbad. pose proof (malformed_no_clip_id p Hbad) as Hnone.
  split; [now rewrite parse_clip_id_total, Hnone|].
  intros before after ci start_id limit.
  assert (Hq : qualifies start_id p = false) by (unfold qualifies; now rewrite Hnone).
  rewrite !select_targets_eq. unfold glob. cbn [entries case_insensitive].
  split.
  - rewrite !List.filter_app. cbn [List.filter].
    destruct (glob_match ci p); cbn [List.filter]; now rewrite ?Hq.
  - eexists. split; [reflexivity|].
    intros Hin.
    apply (select_targets_members
             {| entries := before ++ p :: after; case_insensitive := ci |}) in Hin.
    apply filter_In in Hin. destruct Hin as [_ Hin]. congruence.
Qed.

Lemma malformed_name_excluded_witness :
  malformed "MYR_bad.mp4"
  /\ parse_clip_id "MYR_bad.mp4" = inr None
  /\ select_targets
       {| entries := ["MYR_7.mp4"] ++ "MYR_bad.mp4" :: ["MYR_5.mp4"];
          case_insensitive := false |} 0 20
     = inr ["MYR_5.mp4"; "MYR_7.mp4"].
Proof.
  assert (H : malformed "MYR_bad.mp4") by (vm_compute; reflexivity).
  split; [exact H|].
  destruct (malformed_name_excluded "MYR_bad.mp4" H) as [Hp Hs].
  split; [exact Hp|].
  destruct (Hs ["MYR_7.mp4"] ["MYR_5.mp4"] false 0 20) as [-> _].
  vm_compute. reflexivity.
Defined.

End SelectionClaims.

(** ** Transcript extraction *)
Section Extraction.
Import Py Json Clova.

Lemma str_truthy_spec (s : string) : str_truthy s = true <-> s <> EmptyString.
Proof. destruct s; simpl; split; congruence. Qed.

Lemma str_truthy_false (s : string) : str_truthy s = false <-> s = EmptyString.
Proof. destruct s; simpl; split; congruence. Qed.

Lemma first_text_skip (members : list (string * value)) (pre rest : list string) :
  List.Forall (no_direct_text members) pre ->
  first_text (Obj members) (pre ++ rest) = first_text (Obj members) rest.
Proof.
  induction 1 as [|key pre Hkey _ IH]; [reflexivity|].
  cbn [app first_text get]. unfold no_direct_text in Hkey.
  destruct (obj_get members key) as [[| | | |t| |]|]; cbn [bind ret]; try exact IH.
  rewrite Hkey. exact IH.
Qed.

Lemma first_text_hit (members : list (string * value)) (key t : string)
  (rest : list string) :
  obj_get members key = Some (Str t) -> strip t <> EmptyString ->
  first_text (Obj members) (key :: rest) = inr (Some (strip t)).
Proof.
  intros Hget Ht. cbn [first_text get]. rewrite Hget. cbn [bind ret].
  apply str_truthy_spec in Ht. now rewrite Ht.
Qed.

Lemma first_text_none (members : list (string * value)) (keys : list string) :
  List.Forall (no_direct_text members) keys ->
  first_text (Obj members) keys = inr None.
Proof.
  intros H. rewrite <- (app_nil_r keys). now rewrite first_text_skip.
Qed.

Lemma segment_lines_strings (segments : list value) :
  List.Forall text_is_string segments ->
  segment_lines segments = map Str (flat_map segment_text segments).
Proof.
  induction 1 as [|seg rest Hseg _ IH]; [reflexivity|].
  cbn [segment_lines flat_map]. unfold segment_text at 1.
  destruct seg as [| | | | |?|members]; try exact IH.
  cbn [text_is_string] in Hseg.
  destruct (obj_get members "text") as [[| | | |s| |]|]; try exact IH;
    try (rewrite Hseg; exact IH).
  cbn [Json.truthy]. destruct (str_truthy s); [|exact IH].
  cbn [app map]. now rewrite IH.
Qed.

Lemma as_strings_map_Str (ss : list string) : as_strings (map Str ss) = inr ss.
Proof.
  induction ss as [|s r IH]; [reflexivity|].
  cbn [map as_strings]. now rewrite IH.
Qed.

Lemma dumps_indent_obj_nonempty (members : list (string * value)) :
  dumps_indent 0 (Obj members) <> EmptyString.
Proof. destruct members; cbn; discriminate. Qed.

End Extraction.

Section ExtractionClaims.
Import Py Json Clova.

(** With a segments list and no segment text the result is the dump of the
    payload, not the (empty) join of the segment texts; a blank direct
    text does not win over the segments; a payload that is not an object
    raises [AttributeError]. *)
Lemma extract_transcript_not_as_stated :
  extract_transcript (response_of empty_segments_payload)
  <> inr (segment_texts_joined [])
  /\ extract_transcript (response_of blank_text_payload) = inr "hello"
  /\ extract_transcript (response_of blank_text_payload) <> inr (strip "  ")
  /\ extract_transcript (response_of (Arr [])) = inl AttributeError.
Proof.
  repeat split; vm_compute; congruence.
Qed.

(** C4, as amended. For every response whose payload is a JSON object:
    (1) if a known key, the keys before it holding no usable text, holds a
    string that is not blank, the result is that string trimmed, whatever
    the segments; (2) otherwise, if [segments] is a list, every segment
    text that counts as true is a string and at least one segment has a
    non-empty text, the result is those texts joined by newlines and
    trimmed; (3) otherwise, when [segments] is no list or no segment has a
    text that counts as true, the result is the indented dump of the whole
    payload, which is not empty. *)
Theorem extract_transcript_fallback_order
  (response : Response) (members : list (string * value)) :
  json_body response = Some (Obj members) ->
  (forall (pre post : list string) (key t : string),
      known_keys = pre ++ key :: post ->
      List.Forall (no_direct_text members) pre ->
      obj_get members key = Some (Str t) ->
      strip t <> EmptyString ->
      extract_transcript response = inr (strip t))
  /\ (forall segments : list value,
        List.Forall (no_direct_text members) known_keys ->
        obj_get members "segments" = Some (Arr segments) ->
        List.Forall text_is_string segments ->
        flat_map segment_text segments <> [] ->
        extract_transcript response
        = inr (strip (segment_texts_joined segments)))
  /\ (List.Forall (no_direct_text members) known_keys ->
      (forall segments : list value,
          obj_get members "segments" = Some (Arr segments) ->
          segment_lines segments = []) ->
      extract_transcript response = inr (dumps_indent 0 (Obj members))
      /\ dumps_indent 0 (Obj members) <> EmptyString).
Proof.
  intros Hbody. unfold extract_transcript, response_json. rewrite Hbody.
  cbn [ret]. split; [|split].
  - intros pre post key t Hkeys Hpre Hget Ht.
    rewrite Hkeys, (first_text_skip members pre (key :: post) Hpre).
    now rewrite (first_text_hit members key t post Hget Ht).
  - intros segments Hnone Hseg Hstr Hsome.
    rewrite (first_text_none members known_keys Hnone). cbn [bind get].
    rewrite Hseg. cbn [bind ret].
    rewrite (segment_lines_strings segments Hstr).
    destruct (flat_map segment_text segments) as [|s ss] eqn:E; [congruence|].
    cbn [map]. change (Str s :: map Str ss) with (map Str (s :: ss)).
    rewrite as_strings_map_Str. cbn [bind ret].
    unfold segment_texts_joined. now rewrite E.
  - intros Hnone Hsegs. split; [|apply dumps_indent_obj_nonempty].
    rewrite (first_text_none members known_keys Hnone). cbn [bind get].
    destruct (obj_get members "segments") as [[| | | | |segments|]|];
      cbn [bind ret]; try reflexivity.
    now rewrite (Hsegs segments eq_refl).
Qed.

Lemma extract_transcript_fallback_order_witness :
  extract_transcript (response_of both_payload) = inr "done"
  /\ extract_transcript (response_of segments_payload)
     = inr (String.append "first" (String.append newline "second"))
  /\ extract_transcript (response_of unknown_payload)
     = inr (dumps_indent 0 unknown_payload).
Proof.
  split; [|split].
  - destruct (extract_transcript_fallback_order (response_of both_payload) _ eq_refl)
      as [H _].
    apply (H ["text"; "textData"] ["transcript"] "result" " done ").
    + reflexivity.
    + repeat constructor.
    + reflexivity.
    + vm_compute. discriminate.
  - destruct (extract_transcript_fallback_order (response_of segments_payload) _ eq_refl)
      as (_ & H & _).
    rewrite (H [Obj [("text", Str "first")]; Obj [("speaker", Int 1)];
                Obj [("text", Str "second")]]).
    + vm_compute. reflexivity.
    + repeat constructor.
    + reflexivity.
    + repeat constructor.
    + vm_compute. discriminate.
  - destruct (extract_transcript_fallback_order (response_of unknown_payload) _ eq_refl)
      as (_ & _ & H).
    apply H.
    + repeat constructor.
    + intros segments Hs. vm_compute in Hs. discriminate.
Defined.

End ExtractionClaims.

(** ** Dictionaries and the parameter block *)
Section Dictionaries.
Import Py Store.

Lemma dict_get_set (d : list (string * val)) (k k' : string) (v : val) :
  dict_get (dict_set k v d) k' = if String.eqb k k' then Some v else dict_get d k'.
Proof.
  induction d as [|[k0 x] r IH]; cbn [dict_set dict_get].
  - destruct (String.eqb k k'); reflexivity.
  - destruct (String.eqb_spec k0 k) as [->|Hne]; cbn [dict_get].
    + destruct (String.eqb k k'); reflexivity.
    + rewrite IH. destruct (String.eqb_spec k0 k') as [->|Hne']; [|reflexivity].
      destruct (String.eqb_spec k k'); [congruence|reflexivity].
Qed.

Lemma dict_get_absent (d : list (string * val)) (k : string) :
  ~ In k (map fst d) -> dict_get d k = None.
Proof.
  induction d as [|[k0 x] r IH]; [reflexivity|].
  cbn [map fst In dict_get]. intros H.
  destruct (String.eqb_spec k0 k) as [->|Hne]; [tauto|].
  apply IH. tauto.
Qed.

(** [{**base, **extra}] looks a key up in [extra] first. *)
Lemma dict_get_update (base extra : list (string * val)) (k : string) :
  dict_wf extra ->
  dict_get (dict_update base extra) k
  = match dict_get extra k with
    | Some v => Some v
    | None => dict_get base k
    end.
Proof.
  unfold dict_wf, dict_update. revert base.
  induction extra as [|[k0 x] r IH]; intros base Hwf; [reflexivity|].
  cbn [fold_left fst snd]. cbn [map fst] in Hwf.
  inversion Hwf as [|? ? Hnotin Hwf']; subst.
  rewrite (IH _ Hwf'). cbn [dict_get]. rewrite dict_get_set.
  destruct (String.eqb_spec k0 k) as [->|Hne]; [|reflexivity].
  now rewrite (dict_get_absent r k Hnotin).
Qed.

Lemma dict_set_nonempty (d : list (string * val)) (k : string) (v : val) :
  dict_set k v d <> [].
Proof.
  destruct d as [|[k0 x] r]; cbn [dict_set]; [discriminate|].
  destruct (String.eqb k0 k); discriminate.
Qed.

Lemma dict_update_nonempty (base extra : list (string * val)) :
  base <> [] -> dict_update base extra <> [].
Proof.
  unfold dict_update. revert base.
  induction extra as [|[k0 x] r IH]; intros base Hb; [exact Hb|].
  cbn [fold_left]. apply IH, dict_set_nonempty.
Qed.

Lemma dict_get_set_default (d : list (string * val)) (k k' : string) (v : val) :
  dict_get (Clova.set_default k v d) k'
  = if String.eqb k k'
    then match dict_get d k with Some x => Some x | None => Some v end
    else dict_get d k'.
Proof.
  unfold Clova.set_default.
  destruct (dict_get d k) as [x|] eqn:E.
  - destruct (String.eqb_spec k k') as [<-|]; [exact E|reflexivity].
  - apply dict_get_set.
Qed.

Lemma set_default_nonempty (d : list (string * val)) (k : string) (v : val) :
  d <> [] -> Clova.set_default k v d <> [].
Proof.
  unfold Clova.set_default. destruct (dict_get d k); [trivial|].
  intros _. apply dict_set_nonempty.
Qed.

Lemma set_if_nonempty (b : bool) (d : list (string * val)) (k : string) (v : val) :
  d <> [] -> Clova.set_if b k v d <> [].
Proof.
  unfold Clova.set_if. destruct b; [|trivial]. intros _. apply dict_set_nonempty.
Qed.

End Dictionaries.

(** ** The steps of [build_request_body] on the new dictionary *)
Section BuildSteps.
Import Py Store Clova.

Lemma with_body_again (w : World) (l : positive) (d d' : list (string * val)) :
  set_heap (with_body w l d) (<[l := ODict d']> (heap (with_body w l d)))
  = with_body w l d'.
Proof.
  unfold with_body, set_heap. cbn [heap posts written].
  now rewrite insert_insert_eq.
Qed.

Lemma read_dict_body (w : World) (l : positive) (d : list (string * val)) :
  read_dict l (with_body w l d) = (inr d, with_body w l d).
Proof.
  unfold read_dict, with_body, set_heap. cbn [heap].
  now rewrite lookup_insert_eq.
Qed.

Lemma dict_contains_body (w : World) (l : positive) (d : list (string * val))
  (k : string) :
  dict_contains l k (with_body w l d)
  = (inr (match dict_get d k with Some _ => true | None => false end),
     with_body w l d).
Proof.
  unfold dict_contains, st_bind. now rewrite read_dict_body.
Qed.

Lemma dict_setitem_body (w : World) (l : positive) (d : list (string * val))
  (k : string) (v : val) :
  dict_setitem l k v (with_body w l d) = (inr tt, with_body w l (dict_set k v d)).
Proof.
  unfold dict_setitem, st_bind. rewrite read_dict_body.
  now rewrite with_body_again.
Qed.

Lemma when_setitem_body (b : bool) (w : World) (l : positive)
  (d : list (string * val)) (k : string) (v : val) :
  when b (dict_setitem l k v) (with_body w l d)
  = (inr tt, with_body w l (set_if b k v d)).
Proof.
  destruct b; [apply dict_setitem_body|reflexivity].
Qed.

Lemma default_step_body (w : World) (l : positive) (d : list (string * val))
  (k : string) (v : val) (rest : ST World positive) :
  (run has <- dict_contains l k;
   run_ when (negb has) (dict_setitem l k v);
   rest) (with_body w l d)
  = rest (with_body w l (set_default k v d)).
Proof.
  unfold st_bind at 1. rewrite dict_contains_body.
  unfold st_bind at 1. rewrite when_setitem_body.
  unfold set_default, set_if. now destruct (dict_get d k).
Qed.

Lemma if_step_body (b : bool) (w : World) (l : positive)
  (d : list (string * val)) (k : string) (v : val) (rest : ST World positive) :
  (run_ when b (dict_setitem l k v); rest) (with_body w l d)
  = rest (with_body w l (set_if b k v d)).
Proof.
  unfold st_bind at 1. now rewrite when_setitem_body.
Qed.

(** The new dictionary is never empty, so a reference is as true in the
    store that holds it as it was before. *)
Lemma truthy_with_body (w : World) (l : positive) (d : list (string * val))
  (v : val) :
  heap w !! l = None -> d <> [] ->
  truthy (heap (with_body w l d)) v = truthy (heap w) v.
Proof.
  intros Hfresh Hd. destruct v as [| | | | |l']; try reflexivity.
  unfold with_body, set_heap. cbn [heap truthy].
  destruct (decide (l = l')) as [<-|Hne].
  - rewrite lookup_insert_eq, Hfresh. destruct d; [congruence|reflexivity].
  - now rewrite lookup_insert_ne.
Qed.

Lemma truthy_step_body (w : World) (l : positive) (d : list (string * val))
  (k : string) (v : val) (rest : ST World positive) :
  heap w !! l = None -> d <> [] ->
  (run use <- truthy_st v;
   run_ when use (dict_setitem l k v);
   rest) (with_body w l d)
  = rest (with_body w l (set_if (truthy (heap w) v) k v d)).
Proof.
  intros Hfresh Hd. unfold st_bind at 1. unfold truthy_st at 1.
  rewrite (truthy_with_body w l d v Hfresh Hd).
  apply if_step_body.
Qed.

Lemma fresh_lookup (h : gmap positive obj) : h !! fresh (dom h) = None.
Proof. apply not_elem_of_dom, is_fresh. Qed.

(** What [build_request_body] does for a client in the store. *)
Lemma build_request_body_exact (w : World) (self dp : positive) (u s : string)
  (defaults : list (string * val)) (a : UploadArgs) :
  heap w !! self = Some (OClient u s dp) ->
  heap w !! dp = Some (ODict defaults) ->
  build_request_body self a w
  = (inr (fresh (dom (heap w))),
     with_body w (fresh (dom (heap w))) (body_items (heap w) defaults a)).
Proof.
  intros Hself Hdp. pose proof (fresh_lookup (heap w)) as Hfresh.
  set (l := fresh (dom (heap w))) in *.
  unfold build_request_body.
  unfold st_bind at 1. unfold read_client at 1. rewrite Hself. cbn [snd].
  unfold st_bind at 1. unfold read_dict at 1. rewrite Hdp.
  unfold st_bind at 1. unfold alloc at 1. fold l.
  change (set_heap w (<[l := ODict ?d]> (heap w))) with (with_body w l d).
  assert (H0 : dict_update (base_params a) defaults <> [])
    by (apply dict_update_nonempty; discriminate).
  rewrite default_step_body, default_step_body, if_step_body, if_step_body.
  rewrite truthy_step_body;
    [|exact Hfresh|repeat (apply set_if_nonempty || apply set_default_nonempty); exact H0].
  rewrite truthy_step_body;
    [|exact Hfresh|repeat (apply set_if_nonempty || apply set_default_nonempty); exact H0].
  rewrite if_step_body. unfold st_bind at 1. rewrite when_setitem_body.
  reflexivity.
Qed.

(** In every case the call either fails at once, the world unchanged, or
    adds one dictionary at a new location and changes nothing else. *)
Lemma build_request_body_cases (w : World) (self : positive) (a : UploadArgs) :
  (exists e, build_request_body self a w = (inl e, w))
  \/ (exists d,
        build_request_body self a w
        = (inr (fresh (dom (heap w))), with_body w (fresh (dom (heap w))) d)).
Proof.
  destruct (heap w !! self) as [[| |u s dp]|] eqn:Hself.
  1,2,4: left; exists AttributeError; unfold build_request_body, st_bind, read_client;
    now rewrite Hself.
  destruct (heap w !! dp) as [[defaults| |]|] eqn:Hdp.
  2,3,4: left; exists TypeError;
    unfold build_request_body; unfold st_bind at 1; unfold read_client at 1;
    rewrite Hself; cbn [snd]; unfold st_bind at 1; unfold read_dict at 1;
    now rewrite Hdp.
  right. eexists. now apply (build_request_body_exact w self dp u s defaults a).
Qed.

Lemma built_body_exact (w : World) (self dp : positive) (u s : string)
  (defaults : list (string * val)) (a : UploadArgs) :
  heap w !! self = Some (OClient u s dp) ->
  heap w !! dp = Some (ODict defaults) ->
  built_body self a w = inr (body_items (heap w) defaults a).
Proof.
  intros Hself Hdp. unfold built_body.
  rewrite (build_request_body_exact w self dp u s defaults a Hself Hdp).
  unfold with_body, set_heap. cbn [heap]. now rewrite lookup_insert_eq.
Qed.

End BuildSteps.

(** ** The client: construction and the parameter block *)
Section ClientLemmas.
Import Py Store Clova.

Lemma set_heap_twice (w : World) (h1 h2 : gmap positive obj) :
  set_heap (set_heap w h1) h2 = set_heap w h2.
Proof. reflexivity. Qed.

(** The constructor stores a copy of the items at a new location. *)
Lemma client_init_exact (w : World) (m : positive) (options : list (string * val))
  (u s : string) :
  heap w !! m = Some (ODict options) ->
  let dp := fresh (dom (heap w)) in
  let h1 := <[dp := ODict options]> (heap w) in
  let self := fresh (dom h1) in
  client_init u s (VRef m) w = (inr self, set_heap w (<[self := OClient u s dp]> h1)).
Proof.
  intros Hm dp h1 self. unfold client_init.
  unfold st_bind at 1. unfold truthy_st at 1. cbn [truthy]. rewrite Hm.
  assert (Hitems :
    (if match options with [] => false | _ :: _ => true end
     then read_dict m else st_ret []) w = (inr options, w)).
  { destruct options; [reflexivity|]. unfold read_dict. now rewrite Hm. }
  unfold st_bind at 1. rewrite Hitems.
  unfold st_bind, alloc. cbn [heap set_heap]. reflexivity.
Qed.

Lemma client_init_none (w : World) (u s : string) :
  let dp := fresh (dom (heap w)) in
  let h1 := <[dp := ODict []]> (heap w) in
  let self := fresh (dom h1) in
  client_init u s VNone w = (inr self, set_heap w (<[self := OClient u s dp]> h1)).
Proof. reflexivity. Qed.

Lemma body_items_default (h : gmap positive obj) (options : list (string * val))
  (mode : string) :
  body_items h options (default_args mode)
  = set_default "fullText" (VBool true)
      (set_default "wordAlignment" (VBool true)
         (dict_update (base_params (default_args mode)) options)).
Proof. reflexivity. Qed.

(** The block of a call that passes [completion] only: the options first,
    the fallback table for what they leave out. *)
Lemma default_body_get (h : gmap positive obj) (options : list (string * val))
  (mode k : string) :
  dict_wf options ->
  dict_get (body_items h options (default_args mode)) k
  = match dict_get options k with
    | Some v => Some v
    | None => dict_get (fallback_params mode) k
    end.
Proof.
  intros Hwf. rewrite body_items_default, !dict_get_set_default.
  rewrite !(dict_get_update _ _ _ Hwf).
  unfold fallback_params, base_params, default_args. cbn [completion].
  destruct (String.eqb_spec "fullText" k) as [<-|Hft].
  - change (String.eqb "wordAlignment" "fullText") with false. cbv iota.
    destruct (dict_get options "fullText"); reflexivity.
  - destruct (String.eqb_spec "wordAlignment" k) as [<-|Hwa].
    + destruct (dict_get options "wordAlignment"); reflexivity.
    + destruct (dict_get options k); [reflexivity|].
      cbn [dict_get].
      destruct (String.eqb "language" k); [reflexivity|].
      destruct (String.eqb "completion" k); [reflexivity|].
      apply String.eqb_neq in Hft, Hwa. now rewrite Hft, Hwa.
Qed.

End ClientLemmas.

Section ClientClaims.
Import Py Store Clova.

(** C6. A client constructed with the options dictionary [options] builds,
    in a call that passes the completion mode only (as [run_clova] calls
    it), a parameter block that binds every key of [options] to the value
    [options] gives it, and every other key to what the fallback table
    gives: the fixed base [language], [completion], and [True] for
    [wordAlignment] and [fullText]. The fixed base binds neither of the
    two protected keys, so their defaults are filled in exactly when the
    options leave them out. *)
Theorem request_body_merges_options (w : World) (m : positive)
  (options : list (string * val)) (u s mode : string) :
  heap w !! m = Some (ODict options) ->
  dict_wf options ->
  exists (self : positive) (w' : World) (body : list (string * val)),
    client_init u s (VRef m) w = (inr self, w')
    /\ built_body self (default_args mode) w' = inr body
    /\ (forall k : string,
          dict_get body k
          = match dict_get options k with
            | Some v => Some v
            | None => dict_get (fallback_params mode) k
            end)
    /\ (forall (k : string) (v : val),
          dict_get options k = Some v -> dict_get body k = Some v)
    /\ (dict_get options "wordAlignment" = None ->
        dict_get body "wordAlignment" = Some (VBool true))
    /\ (dict_get options "fullText" = None ->
        dict_get body "fullText" = Some (VBool true))
    /\ (dict_get options "language" = None ->
        dict_get body "language" = Some (VStr LANGUAGE))
    /\ (dict_get options "completion" = None ->
        dict_get body "completion" = Some (VStr mode))
    /\ dict_get (base_params (default_args mode)) "wordAlignment" = None
    /\ dict_get (base_params (default_args mode)) "fullText" = None.
Proof.
  intros Hm Hwf.
  pose proof (client_init_exact w m options u s Hm) as Hinit. cbv zeta in Hinit.
  set (dp := fresh (dom (heap w))) in *.
  set (h1 := <[dp := ODict options]> (heap w)) in *.
  set (self := fresh (dom h1)) in *.
  set (w' := set_heap w (<[self := OClient u s dp]> h1)) in *.
  assert (Hne : dp <> self).
  { intros Heq. pose proof (fresh_lookup h1) as Hf. fold self in Hf.
    rewrite <- Heq in Hf. unfold h1 in Hf. rewrite lookup_insert_eq in Hf.
    discriminate. }
  assert (Hself : heap w' !! self = Some (OClient u s dp))
    by (unfold w', set_heap; cbn [heap]; apply lookup_insert_eq).
  assert (Hdp : heap w' !! dp = Some (ODict options)).
  { unfold w', set_heap. cbn [heap]. rewrite lookup_insert_ne by congruence.
    unfold h1. apply lookup_insert_eq. }
  exists self, w', (body_items (heap w') options (default_args mode)).
  pose proof (default_body_get (heap w') options mode) as Hget.
  split; [exact Hinit|].
  split; [exact (built_body_exact w' self dp u s options _ Hself Hdp)|].
  split; [intros k; now apply Hget|].
  split; [intros k v Hk; now rewrite Hget, Hk|].
  repeat split; try (intros Hk; now rewrite Hget, Hk).
Qed.

Lemma request_body_merges_options_witness :
  heap options_world !! 1%positive
  = Some (ODict [("wordAlignment", VBool false); ("language", VStr "en");
                 ("diarization", VRef 2)])
  /\ exists (self : positive) (w' : World) (body : list (string * val)),
       client_init "https://clova.example" "key" (VRef 1) options_world = (inr self, w')
       /\ built_body self (default_args "sync") w' = inr body
       /\ dict_get body "wordAlignment" = Some (VBool false)
       /\ dict_get body "language" = Some (VStr "en")
       /\ dict_get body "fullText" = Some (VBool true)
       /\ dict_get body "completion" = Some (VStr "sync").
Proof.
  assert (Hm : heap options_world !! 1%positive
               = Some (ODict [("wordAlignment", VBool false); ("language", VStr "en");
                              ("diarization", VRef 2)]))
    by (vm_compute; reflexivity).
  split; [exact Hm|].
  assert (Hwf : dict_wf [("wordAlignment", VBool false); ("language", VStr "en");
                         ("diarization", VRef 2)]).
  { unfold dict_wf. cbn [map fst].
    repeat constructor; cbn [In]; intros H; repeat destruct H as [H|H];
      try discriminate H; exact H. }
  destruct (request_body_merges_options options_world 1 _
              "https://clova.example" "key" "sync" Hm Hwf)
    as (self & w' & body & Hinit & Hbody & _ & Hopt & _ & Hft & _ & Hcomp & _).
  exists self, w', body.
  split; [exact Hinit|]. split; [exact Hbody|].
  split; [apply Hopt; reflexivity|].
  split; [apply Hopt; reflexivity|].
  split; [apply Hft; reflexivity|apply Hcomp; reflexivity].
Defined.

End ClientClaims.

(** ** [req_upload]: what it changes *)
Section UploadLemmas.
Import Py Store Clova.

Lemma req_upload_after_build (env : Env) (self : positive) (file : Select.Path)
  (a : UploadArgs) (w w' : World) (l : positive) :
  build_request_body self a w = (inr l, w') ->
  req_upload env self file a w
  = match heap w' !! self with
    | Some (OClient u s dp) =>
        if readable env file then
          match json_dumps (heap w') (VRef l) with
          | inr p =>
              (endpoint env (posts w') (upload_request u s file p),
               posted w' (upload_request u s file p))
          | inl e => (inl e, w')
          end
        else (inl FileNotFoundError, w')
    | _ => (inl AttributeError, w')
    end.
Proof.
  intros Hbuild. unfold req_upload. unfold st_bind at 1. rewrite Hbuild.
  unfold st_bind at 1. unfold read_client at 1.
  destruct (heap w' !! self) as [[| |u s dp]|]; try reflexivity.
  unfold st_bind at 1. unfold open_rb at 1.
  destruct (readable env file); [|reflexivity].
  unfold st_ret at 1. unfold st_bind at 1.
  destruct (json_dumps (heap w') (VRef l)); reflexivity.
Qed.

(** The ways a call can go: it fails before anything is built; or it builds
    the block and fails before posting; or it posts one request and
    returns the answer of the endpoint. *)
Lemma req_upload_cases (env : Env) (self : positive) (file : Select.Path)
  (a : UploadArgs) (w : World) :
  (exists e, req_upload env self file a w = (inl e, w))
  \/ (exists d,
        let w' := with_body w (fresh (dom (heap w))) d in
        build_request_body self a w = (inr (fresh (dom (heap w))), w')
        /\ ((exists e, req_upload env self file a w = (inl e, w'))
            \/ (exists u s dp p,
                  heap w' !! self = Some (OClient u s dp)
                  /\ readable env file = true
                  /\ json_dumps (heap w') (VRef (fresh (dom (heap w)))) = inr p
                  /\ req_upload env self file a w
                     = (endpoint env (posts w) (upload_request u s file p),
                        posted w' (upload_request u s file p))))).
Proof.
  destruct (build_request_body_cases w self a) as [[e He]|[d Hd]].
  - left. exists e. unfold req_upload, st_bind. now rewrite He.
  - right. exists d. cbv zeta. split; [exact Hd|].
    rewrite (req_upload_after_build env self file a w _ _ Hd).
    destruct (heap _ !! self) as [[| |u s dp]|] eqn:Hself;
      try (left; eexists; reflexivity).
    destruct (readable env file) eqn:Hread; [|left; eexists; reflexivity].
    destruct (json_dumps _ _) as [e|p] eqn:Hp; [left; eexists; reflexivity|].
    right. exists u, s, dp, p. repeat split; try assumption.
Qed.

Lemma append_assoc (s1 s2 s3 : string) :
  String.append s1 (String.append s2 s3) = String.append (String.append s1 s2) s3.
Proof.
  induction s1 as [|c s1 IH]; [reflexivity|].
  change (String c (String.append s1 (String.append s2 s3))
          = String c (String.append (String.append s1 s2) s3)).
  now rewrite IH.
Qed.

Lemma app_one_neq_self {A : Type} (l : list A) (x : A) : l <> l ++ [x].
Proof.
  intros H. apply (f_equal (@length A)) in H. rewrite length_app in H.
  cbn in H. lia.
Qed.

(** A call that returns a response has posted exactly one request, to which
    that response is the answer, and has written no file. *)
Lemma req_upload_returns (env : Env) (self : positive) (file : Select.Path)
  (a : UploadArgs) (w w1 : World) (response : Response) :
  req_upload env self file a w = (inr response, w1) ->
  exists req,
    posts w1 = posts w ++ [req]
    /\ endpoint env (posts w) req = inr response
    /\ media req = file /\ timeout req = 300
    /\ written w1 = written w.
Proof.
  intros H.
  destruct (req_upload_cases env self file a w)
    as [[e He]|(d & _ & [[e He]|(u & s & dp & p & _ & _ & _ & Hpost)])];
    try congruence.
  rewrite Hpost in H. injection H as Hresp <-.
  exists (upload_request u s file p). repeat split. exact Hresp.
Qed.

Lemma format_error_detail (response : Response) :
  _format_error response
  = inr match json_body response with
        | Some payload => Json.dumps payload
        | None =>
            if str_truthy (strip (text response)) then strip (text response)
            else reason response
        end.
Proof.
  unfold _format_error, response_json. now destruct (json_body response).
Qed.

End UploadLemmas.

Section RejectionClaim.
Import Py Store Clova.

(** A status outside 200 to 299 that is not an error status is taken as a
    success: for an answer 304 with an empty body, [run_clova] returns
    without an error and writes an (empty) transcript file. *)
Lemma run_clova_accepts_not_modified :
  exists (client : positive) (w w0 w1 : World) (response : Response),
    client_init "https://clova.example" "key" (VRef 1) options_world = (inr client, w)
    /\ req_upload not_modified_env client "MYR_17388.mp4"
         (default_args CLOVA_COMPLETION) w = (inr response, w0)
    /\ status_code response = 304
    /\ ((200 <=? status_code response) && (status_code response <? 300)) = false
    /\ ok response = true
    /\ run_clova not_modified_env client "MYR_17388.mp4" w = (inr tt, w1)
    /\ written w1 = [("MYR_17388.txt", EmptyString)].
Proof.
  destruct (client_init "https://clova.example" "key" (VRef 1) options_world)
    as [[e|client] w] eqn:Hinit; [vm_compute in Hinit; discriminate|].
  destruct (req_upload not_modified_env client "MYR_17388.mp4"
              (default_args CLOVA_COMPLETION) w) as [[e|response] w0] eqn:Hup.
  { vm_compute in Hinit. injection Hinit as <- <-. vm_compute in Hup. discriminate. }
  destruct (run_clova not_modified_env client "MYR_17388.mp4" w) as [[e|[]] w1] eqn:Hrun.
  { vm_compute in Hinit. injection Hinit as <- <-. vm_compute in Hrun. discriminate. }
  exists client, w, w0, w1, response. split; [reflexivity|]. split; [exact Hup|].
  vm_compute in Hinit. injection Hinit as <- <-.
  vm_compute in Hup. injection Hup as <- <-.
  split; [reflexivity|]. split; [reflexivity|]. split; [reflexivity|].
  split; [exact Hrun|].
  vm_compute in Hrun. injection Hrun as <-. reflexivity.
Qed.

(** C5, as amended. When the upload returns a response with an error
    status (from 400 to 599, the statuses for which the response is not
    [ok]), [run_clova] raises [SystemExit]; the message ends with the
    detail, which is the dump of the decoded body when the body is JSON,
    else the trimmed body text when that is not empty, else the reason
    phrase. Exactly one request was posted for the clip, no transcript
    file was written, and the loop over the clips stops there: the clip
    is not posted again and no later clip is processed. *)
Theorem run_clova_rejected (env : Env) (client : positive) (clip : Select.Path)
  (w w1 : World) (response : Response) :
  req_upload env client clip (default_args CLOVA_COMPLETION) w = (inr response, w1) ->
  400 <= status_code response < 600 ->
  let detail :=
    match json_body response with
    | Some payload => Json.dumps payload
    | None =>
        if str_truthy (strip (text response)) then strip (text response)
        else reason response
    end in
  run_clova env client clip w
  = (inl (SystemExit (failure_message clip response detail)), w1)
  /\ (exists prefix, failure_message clip response detail = String.append prefix detail)
  /\ (exists req,
        posts w1 = posts w ++ [req]
        /\ endpoint env (posts w) req = inr response
        /\ media req = clip)
  /\ written w1 = written w
  /\ forall rest : list Select.Path,
       run_all env client (clip :: rest) w
       = (inl (SystemExit (failure_message clip response detail)), w1).
Proof.
  intros Hup Hstatus detail.
  assert (Hok : ok response = false).
  { unfold ok. destruct (Z.leb_spec 400 (status_code response)); [|lia].
    destruct (Z.ltb_spec (status_code response) 600); [reflexivity|lia]. }
  assert (Hrun : run_clova env client clip w
                 = (inl (SystemExit (failure_message clip response detail)), w1)).
  { unfold run_clova. unfold st_bind at 1. rewrite Hup, Hok. cbn [negb].
    unfold st_bind, st_lift, st_raise. now rewrite format_error_detail. }
  split; [exact Hrun|].
  split.
  { unfold failure_message. cbn [String.concat].
    eexists. rewrite !append_assoc. reflexivity. }
  destruct (req_upload_returns _ _ _ _ _ _ _ Hup)
    as (req & Hposts & Hans & Hmedia & _ & Hwritten).
  split; [exists req; auto|].
  split; [exact Hwritten|].
  intros rest. cbn [run_all]. unfold st_bind. now rewrite Hrun.
Qed.

Lemma run_clova_rejected_witness :
  exists (client : positive) (w w1 : World),
    client_init "https://clova.example" "key" (VRef 1) options_world = (inr client, w)
    /\ run_clova failing_env client "MYR_17388.mp4" w
       = (inl (SystemExit
                 "Clova Speech request failed for MYR_17388.mp4 (500 Server Error): boom"),
          w1)
    /\ length (posts w1) = 1%nat /\ written w1 = [].
Proof.
  destruct (client_init "https://clova.example" "key" (VRef 1) options_world)
    as [[e|client] w] eqn:Hinit; [vm_compute in Hinit; discriminate|].
  destruct (req_upload failing_env client "MYR_17388.mp4"
              (default_args CLOVA_COMPLETION) w) as [[e|response] w1] eqn:Hup.
  { vm_compute in Hinit. injection Hinit as <- <-. vm_compute in Hup. discriminate. }
  assert (Hok : 400 <= status_code response < 600).
  { vm_compute in Hinit. injection Hinit as <- <-.
    vm_compute in Hup. injection Hup as <- <-. cbn [status_code]. lia. }
  destruct (run_clova_rejected failing_env client "MYR_17388.mp4" w w1 response Hup Hok)
    as (Hrun & _ & _ & Hwritten & _).
  exists client, w, w1. split; [reflexivity|].
  vm_compute in Hinit. injection Hinit as <- <-.
  vm_compute in Hup. injection Hup as <- <-.
  split; [rewrite Hrun; vm_compute; reflexivity|].
  split; [vm_compute; reflexivity|].
  rewrite Hwritten. reflexivity.
Defined.

End RejectionClaim.

(** ** [req_upload]: the store only grows *)
Section FrameLemmas.
Import Py Store Clova.

Lemma with_body_heap_mono (w : World) (d : list (string * val)) :
  heap w ⊆ heap (with_body w (fresh (dom (heap w))) d).
Proof. unfold with_body, set_heap. cbn [heap]. apply insert_subseteq, fresh_lookup. Qed.

Lemma req_upload_heap_mono (env : Env) (self : positive) (file : Select.Path)
  (a : UploadArgs) (w : World) :
  heap w ⊆ heap (snd (req_upload env self file a w)).
Proof.
  destruct (req_upload_cases env self file a w)
    as [[e He]|(d & _ & [[e He]|(u & s & dp & p & _ & _ & _ & He)])];
    rewrite He; cbn [snd posted heap]; try reflexivity;
    apply with_body_heap_mono.
Qed.

Lemma upload_calls_heap_mono (env : Env)
  (calls : list (positive * Select.Path * UploadArgs)) (w : World) :
  heap w ⊆ heap (upload_calls env calls w).
Proof.
  revert w. induction calls as [|[[self file] a] rest IH]; intros w; [reflexivity|].
  cbn [upload_calls]. etransitivity; [apply req_upload_heap_mono|apply IH].
Qed.

Lemma truthy_weaken (h h2 : gmap positive obj) (v : val) :
  h ⊆ h2 -> valid h v -> truthy h2 v = truthy h v.
Proof.
  intros Hsub Hv. destruct v as [| | | | |l]; try reflexivity.
  cbn [valid] in Hv. destruct Hv as [o Ho]. cbn [truthy].
  now rewrite (lookup_weaken _ _ _ _ Ho Hsub), Ho.
Qed.

Lemma body_items_weaken (h h2 : gmap positive obj) (defaults : list (string * val))
  (a : UploadArgs) :
  h ⊆ h2 -> valid h (forbiddens a) -> valid h (boostings a) ->
  body_items h2 defaults a = body_items h defaults a.
Proof.
  intros Hsub Hf Hb. unfold body_items.
  now rewrite (truthy_weaken h h2 _ Hsub Hf), (truthy_weaken h h2 _ Hsub Hb).
Qed.

Lemma map_m_weaken {A B : Type} (f g : A -> M B) (l : list A) (bs : list B) :
  (forall x b, In x l -> f x = inr b -> g x = inr b) ->
  map_m f l = inr bs -> map_m g l = inr bs.
Proof.
  revert bs. induction l as [|x r IH]; intros bs Hfg; [trivial|].
  cbn [map_m]. destruct (f x) as [e|b] eqn:Ef; [discriminate|].
  rewrite (Hfg x b (or_introl eq_refl) Ef). cbn [bind].
  destruct (map_m f r) as [e|bs'] eqn:Er; [discriminate|].
  rewrite (IH bs'); [trivial| |reflexivity].
  intros y c Hy. apply Hfg. now right.
Qed.

(** A value that serialises keeps its JSON tree when the store grows and
    more references may be followed. *)
Lemma resolve_weaken (h h2 : gmap positive obj) (f : nat) :
  h ⊆ h2 ->
  forall (f2 : nat) (v : val) (j : Json.value),
    (f <= f2)%nat -> resolve f h v = inr j -> resolve f2 h2 v = inr j.
Proof.
  intros Hsub. induction f as [|f IH]; intros f2 v j Hle Hres.
  - destruct v; try (destruct f2; exact Hres). discriminate.
  - destruct v as [| | | | |l]; try (destruct f2; exact Hres).
    destruct f2 as [|f2]; [lia|]. cbn [resolve] in *.
    destruct (h !! l) as [o|] eqn:Ho; [|discriminate].
    rewrite (lookup_weaken _ _ _ _ Ho Hsub).
    destruct o as [items|items|]; [| |discriminate].
    + destruct (map_m _ items) as [e|ms] eqn:Em; [discriminate|].
      erewrite map_m_weaken; [exact Hres| |exact Em].
      intros kv b _ Hkv. cbv beta in *.
      destruct (resolve f h (snd kv)) as [e|x] eqn:Ex; [discriminate|].
      rewrite (IH f2 (snd kv) x); [exact Hkv|lia|exact Ex].
    + destruct (map_m _ items) as [e|xs] eqn:Em; [discriminate|].
      erewrite map_m_weaken; [exact Hres| |exact Em].
      intros v b _ Hv. apply IH; [lia|exact Hv].
Qed.

Lemma json_dumps_body_weaken (w w2 : World) (d : list (string * val)) (p : string) :
  heap (with_body w (fresh (dom (heap w))) d) ⊆ heap w2 ->
  json_dumps (heap (with_body w (fresh (dom (heap w))) d))
             (VRef (fresh (dom (heap w)))) = inr p ->
  json_dumps (heap (with_body w2 (fresh (dom (heap w2))) d))
             (VRef (fresh (dom (heap w2)))) = inr p.
Proof.
  intros Hsub Hp.
  set (h1 := heap (with_body w (fresh (dom (heap w))) d)) in *.
  set (h2 := heap (with_body w2 (fresh (dom (heap w2))) d)).
  assert (Hsub2 : h1 ⊆ h2)
    by (etransitivity; [exact Hsub|apply with_body_heap_mono]).
  assert (Hsize : (size h1 <= size h2)%nat) by now apply map_subseteq_size.
  unfold json_dumps in *. cbn [resolve] in *.
  assert (H1 : h1 !! fresh (dom (heap w)) = Some (ODict d))
    by (unfold h1, with_body, set_heap; cbn [heap]; apply lookup_insert_eq).
  assert (H2 : h2 !! fresh (dom (heap w2)) = Some (ODict d))
    by (unfold h2, with_body, set_heap; cbn [heap]; apply lookup_insert_eq).
  rewrite H1 in Hp. rewrite H2.
  destruct (map_m _ d) as [e|ms] eqn:Em in Hp; [discriminate|].
  erewrite map_m_weaken; [exact Hp| |exact Em].
  intros kv b _ Hkv. cbv beta in *.
  destruct (resolve (size h1) h1 (snd kv)) as [e|x] eqn:Ex; [discriminate|].
  rewrite (resolve_weaken h1 h2 (size h1) Hsub2 (size h2) (snd kv) x Hsize Ex).
  exact Hkv.
Qed.

End FrameLemmas.

Section FrameClaim.
Import Py Store Clova.

(** [req_upload] for a client that is in the store. *)
Lemma req_upload_client (env : Env) (w : World) (self dp : positive) (u s : string)
  (defaults : list (string * val)) (file : Select.Path) (a : UploadArgs) :
  heap w !! self = Some (OClient u s dp) ->
  heap w !! dp = Some (ODict defaults) ->
  let l := fresh (dom (heap w)) in
  let w' := with_body w l (body_items (heap w) defaults a) in
  req_upload env self file a w
  = if readable env file then
      match json_dumps (heap w') (VRef l) with
      | inr p =>
          (endpoint env (posts w) (upload_request u s file p),
           posted w' (upload_request u s file p))
      | inl e => (inl e, w')
      end
    else (inl FileNotFoundError, w').
Proof.
  intros Hself Hdp l w'.
  rewrite (req_upload_after_build env self file a w w' l
             (build_request_body_exact w self dp u s defaults a Hself Hdp)).
  assert (Hself' : heap w' !! self = Some (OClient u s dp)).
  { apply (lookup_weaken (heap w)); [exact Hself|apply with_body_heap_mono]. }
  now rewrite Hself'.
Qed.

(** C10. For a client in the store and any call of [req_upload]:
    everything that was in the store before the call, the client object
    and its [default_params] dictionary among it, is the same after the
    call and after any further calls; the parameter block is built at a
    location that was not in use; a later call with the same arguments
    builds a block with the same items, and if the first call posted a
    request, the later call with the same clip posts the same request.
    The constructor stores a copy: the client's dictionary is at a new
    location, holds the items of the dictionary it was given, and is not
    changed by a later store to that dictionary. *)
Theorem req_upload_keeps_client_state
  (env : Env) (w : World) (self dp : positive) (u s : string)
  (defaults : list (string * val)) (file : Select.Path) (a : UploadArgs)
  (calls : list (positive * Select.Path * UploadArgs)) :
  heap w !! self = Some (OClient u s dp) ->
  heap w !! dp = Some (ODict defaults) ->
  valid (heap w) (forbiddens a) ->
  valid (heap w) (boostings a) ->
  let w1 := snd (req_upload env self file a w) in
  let w2 := upload_calls env calls w1 in
  (heap w ⊆ heap w1
   /\ heap w1 !! self = Some (OClient u s dp)
   /\ heap w1 !! dp = Some (ODict defaults))
  /\ (heap w ⊆ heap w2
      /\ heap w2 !! self = Some (OClient u s dp)
      /\ heap w2 !! dp = Some (ODict defaults))
  /\ (exists l, fst (build_request_body self a w) = inr l /\ heap w !! l = None)
  /\ built_body self a w2 = built_body self a w
  /\ (forall r1 : Request,
        posts w1 = posts w ++ [r1] ->
        posts (snd (req_upload env self file a w2)) = posts w2 ++ [r1])
  /\ (forall (w0 : World) (m : positive) (options : list (string * val))
             (u0 s0 k : string) (v : val),
        heap w0 !! m = Some (ODict options) ->
        exists (c d : positive) (w0' : World),
          client_init u0 s0 (VRef m) w0 = (inr c, w0')
          /\ d <> m
          /\ heap w0' !! c = Some (OClient u0 s0 d)
          /\ heap w0' !! d = Some (ODict options)
          /\ heap (snd (dict_setitem m k v w0')) !! d = Some (ODict options)).
Proof.
  intros Hself Hdp Hf Hb w1 w2.
  assert (H1 : heap w ⊆ heap w1) by apply req_upload_heap_mono.
  assert (H2 : heap w ⊆ heap w2)
    by (etransitivity; [exact H1|apply upload_calls_heap_mono]).
  assert (Hself2 : heap w2 !! self = Some (OClient u s dp))
    by exact (lookup_weaken _ _ _ _ Hself H2).
  assert (Hdp2 : heap w2 !! dp = Some (ODict defaults))
    by exact (lookup_weaken _ _ _ _ Hdp H2).
  split; [repeat split; [exact H1|exact (lookup_weaken _ _ _ _ Hself H1)
                                  |exact (lookup_weaken _ _ _ _ Hdp H1)]|].
  split; [repeat split; assumption|].
  split.
  { exists (fresh (dom (heap w))).
    rewrite (build_request_body_exact w self dp u s defaults a Hself Hdp).
    split; [reflexivity|apply fresh_lookup]. }
  split.
  { rewrite (built_body_exact w2 self dp u s defaults a Hself2 Hdp2),
            (built_body_exact w self dp u s defaults a Hself Hdp).
    now rewrite (body_items_weaken (heap w) (heap w2) defaults a H2 Hf Hb). }
  split.
  { intros r1 Hposts.
    pose proof (req_upload_client env w self dp u s defaults file a Hself Hdp) as E1.
    pose proof (req_upload_client env w2 self dp u s defaults file a Hself2 Hdp2) as E2.
    cbv zeta in E1, E2.
    rewrite (body_items_weaken (heap w) (heap w2) defaults a H2 Hf Hb) in E2.
    set (d := body_items (heap w) defaults a) in *.
    unfold w1 in Hposts. rewrite E1 in Hposts.
    destruct (readable env file);
      [|cbn [snd with_body set_heap posts] in Hposts;
        now apply app_one_neq_self in Hposts].
    destruct (json_dumps (heap (with_body w (fresh (dom (heap w))) d)) _)
      as [e|p] eqn:Hp;
      [cbn [snd with_body set_heap posts] in Hposts;
       now apply app_one_neq_self in Hposts|].
    cbn [snd posted posts with_body set_heap] in Hposts.
    apply app_inv_head in Hposts. injection Hposts as <-.
    assert (Hsub : heap (with_body w (fresh (dom (heap w))) d) ⊆ heap w2).
    { etransitivity; [|apply upload_calls_heap_mono].
      unfold w1. rewrite E1. reflexivity. }
    rewrite E2, (json_dumps_body_weaken w w2 d p Hsub Hp). reflexivity. }
  intros w0 m options u0 s0 k v Hm.
  pose proof (client_init_exact w0 m options u0 s0 Hm) as Hinit. cbv zeta in Hinit.
  set (d := fresh (dom (heap w0))) in *.
  set (h1 := <[d := ODict options]> (heap w0)) in *.
  set (c := fresh (dom h1)) in *.
  assert (Hdm : d <> m).
  { intros Heq. pose proof (fresh_lookup (heap w0)) as Hfr. fold d in Hfr.
    rewrite Heq in Hfr. congruence. }
  assert (Hdc : d <> c).
  { intros Heq. pose proof (fresh_lookup h1) as Hfr. fold c in Hfr.
    rewrite <- Heq in Hfr. unfold h1 in Hfr. rewrite lookup_insert_eq in Hfr.
    discriminate. }
  assert (Hmc : m <> c).
  { intros Heq. pose proof (fresh_lookup h1) as Hfr. fold c in Hfr.
    rewrite <- Heq in Hfr. unfold h1 in Hfr.
    rewrite lookup_insert_ne in Hfr by congruence. congruence. }
  exists c, d, (set_heap w0 (<[c := OClient u0 s0 d]> h1)).
  split; [exact Hinit|]. split; [exact Hdm|].
  split; [cbn [set_heap heap]; apply lookup_insert_eq|].
  split.
  { cbn [set_heap heap]. rewrite lookup_insert_ne by congruence.
    unfold h1. apply lookup_insert_eq. }
  unfold dict_setitem, st_bind, read_dict. cbn [set_heap heap].
  rewrite (lookup_insert_ne _ c m) by congruence.
  unfold h1 at 1. rewrite (lookup_insert_ne _ d m) by congruence. rewrite Hm.
  cbn [snd set_heap heap].
  rewrite lookup_insert_ne by congruence.
  rewrite lookup_insert_ne by congruence.
  unfold h1. apply lookup_insert_eq.
Qed.

Lemma req_upload_keeps_client_state_witness :
  exists (client d : positive) (w w2 : World),
    client_init "https://clova.example" "key" (VRef 1) options_world = (inr client, w)
    /\ heap w !! client = Some (OClient "https://clova.example" "key" d)
    /\ w2 = upload_calls failing_env
              [(client, "MYR_2.mp4", default_args "async")]
              (snd (req_upload failing_env client "MYR_1.mp4" (default_args "sync") w))
    /\ heap w2 !! client = heap w !! client
    /\ heap w2 !! d = heap w !! d
    /\ built_body client (default_args "sync") w2
       = built_body client (default_args "sync") w.
Proof.
  destruct (client_init "https://clova.example" "key" (VRef 1) options_world)
    as [[e|client] w] eqn:Hinit; [vm_compute in Hinit; discriminate|].
  vm_compute in Hinit. injection Hinit as <- <-.
  eexists _, 3%positive, _, _.
  split; [reflexivity|]. split; [vm_compute; reflexivity|].
  split; [reflexivity|].
  match goal with
  | |- heap (upload_calls ?env ?calls (snd (req_upload ?env ?c ?file ?a ?w))) !! _ = _ /\ _ =>
      destruct (req_upload_keeps_client_state env w c 3%positive
                  "https://clova.example" "key"
                  [("wordAlignment", VBool false); ("language", VStr "en");
                   ("diarization", VRef 2)]
                  file a calls)
        as (_ & (_ & Hc & Hd) & _ & Hb & _)
  end.
  - vm_compute. reflexivity.
  - vm_compute. reflexivity.
  - exact I.
  - exact I.
  - split; [rewrite Hc; vm_compute; reflexivity|].
    split; [rewrite Hd; vm_compute; reflexivity|exact Hb].
Defined.

End FrameClaim.

(** ** [strip] and [join] *)
Section Strip.
Import Py.

Lemma lstrip_head (l : list ascii) :
  match lstrip_chars l with [] => True | c :: _ => isspace c = false end.
Proof.
  induction l as [|c r IH]; [exact I|]. cbn [lstrip_chars].
  destruct (isspace c) eqn:E; [exact IH|exact E].
Qed.

Lemma lstrip_suffix (l : list ascii) : exists pre, l = pre ++ lstrip_chars l.
Proof.
  induction l as [|c r [pre IH]]; [now exists []|]. cbn [lstrip_chars].
  destruct (isspace c).
  - exists (c :: pre). cbn [app]. now rewrite <- IH.
  - now exists [].
Qed.

Lemma lstrip_id (l : list ascii) :
  match l with [] => True | c :: _ => isspace c = false end -> lstrip_chars l = l.
Proof. destruct l as [|c r]; [reflexivity|]. cbn [lstrip_chars]. now intros ->. Qed.

Lemma strip_chars_clean (l : list ascii) : clean (strip_chars l).
Proof.
  unfold clean, strip_chars, rstrip_chars. rewrite rev_involutive.
  split; [|apply lstrip_head].
  pose proof (lstrip_head l) as Hhead.
  destruct (lstrip_suffix (rev (lstrip_chars l))) as [pre Hpre].
  apply (f_equal (@rev ascii)) in Hpre. rewrite rev_involutive, rev_app_distr in Hpre.
  destruct (rev (lstrip_chars (rev (lstrip_chars l)))) as [|c t]; [exact I|].
  rewrite Hpre in Hhead. exact Hhead.
Qed.

Lemma clean_strip_chars (l : list ascii) : clean l -> strip_chars l = l.
Proof.
  intros [Hh Ht]. unfold strip_chars, rstrip_chars.
  rewrite (lstrip_id l Hh), (lstrip_id (rev l) Ht). apply rev_involutive.
Qed.

Lemma clean_around (x m y : list ascii) :
  clean x -> clean y -> x <> [] -> y <> [] -> clean (x ++ m ++ y).
Proof.
  intros [Hx _] [_ Hy] Hxn Hyn. unfold clean. split.
  - destruct x as [|c r]; [congruence|exact Hx].
  - rewrite !rev_app_distr.
    destruct (rev y) as [|c r] eqn:E; [|exact Hy].
    apply (f_equal (@rev ascii)) in E. rewrite rev_involutive in E.
    cbn [rev] in E. congruence.
Qed.

Lemma list_ascii_of_append (a b : string) :
  list_ascii_of_string (String.append a b)
  = list_ascii_of_string a ++ list_ascii_of_string b.
Proof.
  induction a as [|c a IH]; [reflexivity|].
  change (c :: list_ascii_of_string (String.append a b)
          = c :: (list_ascii_of_string a ++ list_ascii_of_string b)).
  now rewrite IH.
Qed.

Lemma strip_trimmed (s : string) : str_truthy (strip s) = true -> trimmed (strip s).
Proof.
  intros H. split; [|now apply str_truthy_spec].
  unfold strip. rewrite list_ascii_of_string_of_list_ascii. apply strip_chars_clean.
Qed.

Lemma trimmed_strip (s : string) : trimmed s -> strip s = s.
Proof.
  intros [H _]. unfold strip. rewrite (clean_strip_chars _ H).
  apply string_of_list_ascii_of_string.
Qed.

Lemma list_ascii_nonempty (s : string) :
  s <> EmptyString -> list_ascii_of_string s <> [].
Proof. destruct s; [congruence|discriminate]. Qed.

Lemma join_trimmed (sep : string) (lines : list string) :
  List.Forall trimmed lines -> lines <> [] -> trimmed (join sep lines).
Proof.
  induction 1 as [|s r Hs Hr IH]; [congruence|]. intros _.
  destruct r as [|s' r']; [exact Hs|].
  specialize (IH ltac:(discriminate)). unfold join in *.
  change (String.concat sep (s :: s' :: r'))
    with (String.append s (String.append sep (String.concat sep (s' :: r')))).
  destruct Hs as [Hsc Hsn], IH as [Hjc Hjn]. split.
  - rewrite !list_ascii_of_append.
    apply clean_around; auto using list_ascii_nonempty.
  - destruct s; [congruence|discriminate].
Qed.

(** Joining trimmed, non-empty lines gives a string that [strip] keeps. *)
Lemma strip_join_trimmed (sep : string) (lines : list string) :
  List.Forall trimmed lines ->
  strip (join sep lines) = join sep lines.
Proof.
  intros H. destruct lines as [|s r]; [reflexivity|].
  apply trimmed_strip, join_trimmed; [exact H|discriminate].
Qed.

End Strip.

(** ** [stt_google.py]: the transcript *)
Section GoogleTranscript.
Import Py Fs Google.

Lemma collect_lines_spec (rs : list Result) (lines : list string) :
  List.Forall (fun r => alternatives r <> []) rs ->
  collect_lines rs lines
  = inr (lines ++ List.filter str_truthy (flat_map first_alternative rs)).
Proof.
  intros H. revert lines. induction H as [|r rest Hr _ IH]; intros lines.
  - cbn. now rewrite app_nil_r.
  - cbn [collect_lines flat_map]. unfold first_alternative at 1.
    destruct (alternatives r) as [|a alts]; [congruence|].
    cbn [index nth_error ret bind app List.filter].
    destruct (str_truthy (strip (transcript a))).
    + rewrite IH. now rewrite <- app_assoc.
    + apply IH.
Qed.

Lemma first_lines_trimmed (rs : list Result) :
  List.Forall trimmed (List.filter str_truthy (flat_map first_alternative rs)).
Proof.
  apply List.Forall_forall. intros s Hs. apply filter_In in Hs.
  destruct Hs as [Hin Ht]. apply in_flat_map in Hin.
  destruct Hin as (r & _ & Hr). unfold first_alternative in Hr.
  destruct (alternatives r) as [|a alts]; [contradiction|].
  destruct Hr as [<-|[]]. now apply strip_trimmed.
Qed.

(** The transcript is the joined first alternatives, or the sentinel when
    there is nothing to join. *)
Lemma transcript_of_spec (response : RecognizeResponse) :
  List.Forall (fun r => alternatives r <> []) (results response) ->
  transcript_of response
  = inr (if str_truthy (first_alternatives_joined response)
         then first_alternatives_joined response
         else NO_TRANSCRIPT).
Proof.
  intros H. unfold transcript_of. rewrite (collect_lines_spec _ [] H).
  cbn [bind app ret]. unfold first_alternatives_joined.
  now rewrite (strip_join_trimmed newline _ (first_lines_trimmed (results response))).
Qed.

(** The loop over the results raises only for a result without an
    alternative, and it does raise for one. *)
Lemma collect_lines_raises (rs : list Result) (lines : list string) (e : exn) :
  collect_lines rs lines = inl e ->
  e = IndexError /\ exists r, In r rs /\ alternatives r = [].
Proof.
  revert lines. induction rs as [|r rest IH]; intros lines; [discriminate|].
  cbn [collect_lines]. destruct (alternatives r) as [|a alts] eqn:Ha.
  - cbn. intros [= <-]. split; [reflexivity|]. exists r. split; [now left|exact Ha].
  - cbn [index nth_error ret bind].
    destruct (str_truthy (strip (transcript a))); intros H;
      destruct (IH _ H) as (-> & r' & Hin & Hr'); (split; [reflexivity|]);
      exists r'; (split; [now right|exact Hr']).
Qed.

Lemma collect_lines_no_alternative (rs : list Result) (lines : list string) :
  (exists r, In r rs /\ alternatives r = []) ->
  collect_lines rs lines = inl IndexError.
Proof.
  revert lines. induction rs as [|r rest IH]; intros lines (r' & Hin & Hr').
  - destruct Hin.
  - cbn [collect_lines]. destruct (alternatives r) as [|a alts] eqn:Ha; [reflexivity|].
    cbn [index nth_error ret bind].
    assert (Hrest : exists r, In r rest /\ alternatives r = []).
    { destruct Hin as [->|Hin]; [congruence|eauto]. }
    destruct (str_truthy (strip (transcript a))); now apply IH.
Qed.

(** When the loop over the results returns, every result had an
    alternative. *)
Lemma collect_lines_returns (rs : list Result) (lines out : list string) :
  collect_lines rs lines = inr out ->
  List.Forall (fun r => alternatives r <> []) rs.
Proof.
  revert lines. induction rs as [|r rest IH]; intros lines H; [constructor|].
  cbn [collect_lines] in H.
  destruct (alternatives r) as [|a alts] eqn:Ha; [discriminate|].
  cbn [index nth_error ret bind] in H.
  constructor; [congruence|].
  destruct (str_truthy (strip (transcript a))); eapply IH; exact H.
Qed.

(** When no first alternative has text, the transcript is the sentinel. *)
Lemma transcript_of_no_text (response : RecognizeResponse) :
  List.Forall (fun r => alternatives r <> []) (results response) ->
  List.filter str_truthy (flat_map first_alternative (results response)) = [] ->
  transcript_of response = inr NO_TRANSCRIPT.
Proof.
  intros H Hnone. rewrite (transcript_of_spec response H).
  unfold first_alternatives_joined. now rewrite Hnone.
Qed.

End GoogleTranscript.

Section GoogleClaims.
Import Py Fs Google.

(** With no result at all the transcript is the sentinel, not the (empty)
    concatenation of the first alternatives. *)
Lemma transcript_not_plain_concatenation :
  transcript_of (answer []) = inr NO_TRANSCRIPT
  /\ first_alternatives_joined (answer []) = EmptyString
  /\ transcript_of (answer []) <> inr (first_alternatives_joined (answer []))
  /\ fs (snd (run_google_speech copy_tools (client_with 30 ["  "]) "MYR_17388.mp4"
                clip_world))
     !! InResult "MYR_17388.txt" = Some NO_TRANSCRIPT.
Proof.
  repeat split; vm_compute; congruence.
Qed.

(** C7, as amended. On the long-running path the wait for the operation is
    bounded by 900: an operation that needs longer makes
    [run_google_speech] raise [TimeoutError], with no transcript written.
    An operation that ends in time with a response whose results all have
    an alternative gives the transcript written to the result file: the
    first alternatives, each trimmed, the empty ones left out, joined by
    newlines; or, when that is empty, the sentinel text. Whenever the run
    for an operation that ends in time succeeds, this is the transcript
    it has written. *)
Theorem long_running_wait_and_transcript (tools : Tools) (client : SpeechClient)
  (clip : Select.Path) (w w1 : World) (wav : string) (op : Operation) :
  extract_linear16_audio tools clip SAMPLE_RATE w = (inr wav, w1) ->
  long_running_recognize client wav = inr op ->
  (900 < duration op ->
   run_google_speech tools client clip w = (inl TimeoutError, w1))
  /\ (forall response : RecognizeResponse,
        duration op <= 900 ->
        outcome op = inr response ->
        List.Forall (fun r => alternatives r <> []) (results response) ->
        run_google_speech tools client clip w
        = write_file (InResult (String.append (Select.stem clip) ".txt"))
            (if str_truthy (first_alternatives_joined response)
             then first_alternatives_joined response
             else NO_TRANSCRIPT) w1)
  /\ (forall response : RecognizeResponse,
        duration op <= 900 ->
        outcome op = inr response ->
        fst (run_google_speech tools client clip w) = inr tt ->
        run_google_speech tools client clip w
        = write_file (InResult (String.append (Select.stem clip) ".txt"))
            (if str_truthy (first_alternatives_joined response)
             then first_alternatives_joined response
             else NO_TRANSCRIPT) w1).
Proof.
  intros Haudio Hop.
  assert (Hrun :
    run_google_speech tools client clip w
    = match operation_result op 900 with
      | inl e => (inl e, w1)
      | inr response =>
          match transcript_of response with
          | inl e => (inl e, w1)
          | inr text =>
              write_file (InResult (String.append (Select.stem clip) ".txt")) text w1
          end
      end).
  { unfold run_google_speech, run_google_speech_mode, USE_LONG_RUNNING.
    unfold st_bind at 1. rewrite Haudio.
    unfold st_bind at 1. unfold st_lift at 1. rewrite Hop. cbn [bind].
    destruct (operation_result op 900) as [e|response]; [reflexivity|].
    unfold st_bind, st_lift. now destruct (transcript_of response). }
  rewrite Hrun. unfold operation_result. split; [|split].
  - intros Hlong. destruct (Z.leb_spec (duration op) 900); [lia|reflexivity].
  - intros response Hshort Hout Halts.
    destruct (Z.leb_spec (duration op) 900); [|lia].
    now rewrite Hout, (transcript_of_spec response Halts).
  - intros response Hshort Hout.
    destruct (Z.leb_spec (duration op) 900); [|lia].
    rewrite Hout.
    destruct (transcript_of response) as [e|text] eqn:Htext; [discriminate|].
    intros _.
    assert (Halts : List.Forall (fun r => alternatives r <> []) (results response)).
    { unfold transcript_of in Htext.
      destruct (collect_lines (results response) []) as [e|lines] eqn:Hlines;
        [discriminate|].
      exact (collect_lines_returns _ _ _ Hlines). }
    rewrite (transcript_of_spec response Halts) in Htext. now injection Htext as <-.
Qed.

Lemma long_running_wait_and_transcript_witness :
  run_google_speech copy_tools (client_with 901 ["hello"]) "MYR_17388.mp4" clip_world
  = (inl TimeoutError,
     snd (extract_linear16_audio copy_tools "MYR_17388.mp4" SAMPLE_RATE clip_world))
  /\ fs (snd (run_google_speech copy_tools (client_with 900 [" hello "; " "; "world"])
                "MYR_17388.mp4" clip_world))
     !! InResult "MYR_17388.txt"
     = Some (String.append "hello" (String.append newline "world")).
Proof.
  assert (Haudio :
    extract_linear16_audio copy_tools "MYR_17388.mp4" SAMPLE_RATE clip_world
    = (inr "RIFF0000",
       snd (extract_linear16_audio copy_tools "MYR_17388.mp4" SAMPLE_RATE clip_world)))
    by (vm_compute; reflexivity).
  split.
  - apply (long_running_wait_and_transcript copy_tools (client_with 901 ["hello"])
             "MYR_17388.mp4" clip_world _ "RIFF0000"
             {| duration := 901; outcome := inr (answer ["hello"]) |} Haudio eq_refl).
    reflexivity.
  - destruct (long_running_wait_and_transcript copy_tools
                (client_with 900 [" hello "; " "; "world"])
                "MYR_17388.mp4" clip_world _ "RIFF0000"
                {| duration := 900;
                   outcome := inr (answer [" hello "; " "; "world"]) |}
                Haudio eq_refl) as (_ & H & _).
    rewrite (H (answer [" hello "; " "; "world"])).
    + vm_compute. reflexivity.
    + cbn. lia.
    + reflexivity.
    + repeat constructor; discriminate.
Defined.

End GoogleClaims.

(** ** Temporary directories: what is read, and when *)
Section TempScope.
Import Py Fs.

Lemma appends_ret {A : Type} (a : A) : appends (st_ret a).
Proof. intros w. exists []. cbn. now rewrite app_nil_r. Qed.

Lemma appends_raise {A : Type} (e : exn) : appends (@st_raise World A e).
Proof. intros w. exists []. cbn. now rewrite app_nil_r. Qed.

Lemma appends_lift {A : Type} (m : M A) : appends (st_lift m).
Proof. intros w. exists []. cbn. now rewrite app_nil_r. Qed.

Lemma appends_bind {A B : Type} (m : ST World A) (k : A -> ST World B) :
  appends m -> (forall a, appends (k a)) -> appends (st_bind m k).
Proof.
  intros Hm Hk w. unfold st_bind.
  destruct (Hm w) as [evs Hevs].
  destruct (m w) as [[e|a] w']; cbn [snd] in *; [now exists evs|].
  destruct (Hk a w') as [evs' Hevs'].
  exists (evs ++ evs'). now rewrite Hevs', Hevs, app_assoc.
Qed.

Lemma appends_read_bytes (p : path) : appends (read_bytes p).
Proof.
  intros w. unfold read_bytes. destruct (fs w !! p).
  - now exists [ReadFile p].
  - exists []. cbn. now rewrite app_nil_r.
Qed.

Lemma appends_write_file (p : path) (content : string) : appends (write_file p content).
Proof. intros w. now exists [WriteFile p]. Qed.

Lemma appends_run_ffmpeg (tools : Tools) (options : list string) (src dst : path) :
  appends (run_ffmpeg tools options src dst).
Proof.
  intros w. unfold run_ffmpeg.
  destruct (ffmpeg_installed tools); [|exists []; cbn; now rewrite app_nil_r].
  destruct (fs w !! src) as [input|]; [|exists []; cbn; now rewrite app_nil_r].
  destruct (ffmpeg tools options input).
  - exists [ReadFile src; WriteFile dst]. cbn. now rewrite <- app_assoc.
  - now exists [ReadFile src].
Qed.

(** The scope of a temporary directory: its creation, the events of the
    body, its removal; afterwards no file of it exists. *)
Lemma with_tmpdir_scope {A : Type} (body : nat -> ST World A) (w : World) :
  (forall d, appends (body d)) ->
  exists evs,
    trace (snd (with_tmpdir body w))
    = trace w ++ MkTemp (next_tmp w) :: evs ++ [Cleanup (next_tmp w)]
    /\ forall p, in_temp (next_tmp w) p = true ->
                 fs (snd (with_tmpdir body w)) !! p = None.
Proof.
  intros Hbody. unfold with_tmpdir.
  destruct (Hbody (next_tmp w)
              {| fs := fs w; next_tmp := S (next_tmp w);
                 trace := trace w ++ [MkTemp (next_tmp w)] |}) as [evs Hevs].
  destruct (body (next_tmp w) _) as [r w']. cbn [snd trace fs] in *.
  exists evs. split.
  - rewrite Hevs, <- !app_assoc. reflexivity.
  - intros p Hp. apply map_lookup_filter_None. right.
    intros content _. cbn [fst]. congruence.
Qed.

End TempScope.

Section ScopeClaims.
Import Py Fs.

Lemma extract_body_appends (tools : Tools) (src : Select.Path) (rate : Z) (d : nat) :
  appends
    (run_ (fun w =>
             match run_ffmpeg tools
                     ["-ac"; "1"; "-ar"; Json.decimal rate; "-f"; "wav"]
                     (InVoice src) (InTemp d (String.append (Select.stem src) ".wav")) w with
             | (inl FileNotFoundError, w') =>
                 (inl (SystemExit
                         "ffmpeg executable not found: ffmpeg. Install ffmpeg and ensure it is on PATH."),
                  w')
             | other => other
             end);
     read_bytes (InTemp d (String.append (Select.stem src) ".wav"))).
Proof.
  apply appends_bind; [|intros _; apply appends_read_bytes].
  intros w. destruct (appends_run_ffmpeg tools
                        ["-ac"; "1"; "-ar"; Json.decimal rate; "-f"; "wav"]
                        (InVoice src)
                        (InTemp d (String.append (Select.stem src) ".wav")) w)
    as [evs Hevs].
  exists evs. destruct (run_ffmpeg _ _ _ _ w) as [[[]|u] w']; exact Hevs.
Qed.

Lemma transcribe_appends (env : Vosk.Env) (p : path) (model : Vosk.Recognizer) :
  appends (Vosk.transcribe env p model).
Proof.
  unfold Vosk.transcribe.
  apply appends_bind; [apply appends_read_bytes|intros content].
  apply appends_bind; [apply appends_lift|intros wf].
  apply appends_bind; [apply appends_lift|intros fed].
  apply appends_bind; [apply appends_lift|intros last].
  apply appends_bind; [apply appends_lift|intros texts].
  apply appends_ret.
Qed.

(** [transcribe]: the wave file is read first; the text is computed from
    its bytes. *)
Lemma transcribe_exact (env : Vosk.Env) (p : path) (model : Vosk.Recognizer)
  (w : World) :
  Vosk.transcribe env p model w
  = match fs w !! p with
    | Some content =>
        (do wf <- Vosk.wave_open env content;
         do fed <- Vosk.feed model (4000 * Vosk.frame_bytes wf) (Vosk.rinit model)
                     (Vosk.frames wf) [];
         do last <- Vosk.get_text (Vosk.final_result model (snd fed));
         do texts <- Vosk.true_strings (fst fed ++ [last]);
         ret (strip (join " " texts)),
         log (ReadFile p) w)
    | None => (inl FileNotFoundError, w)
    end.
Proof.
  unfold Vosk.transcribe, st_bind, st_lift, st_ret, read_bytes.
  destruct (fs w !! p) as [content|]; [|reflexivity].
  destruct (Vosk.wave_open env content) as [e|wf]; [reflexivity|]. cbn [bind].
  destruct (Vosk.feed model (4000 * Vosk.frame_bytes wf) (Vosk.rinit model)
              (Vosk.frames wf) []) as [e|fed]; [reflexivity|]. cbn [bind].
  destruct (Vosk.get_text (Vosk.final_result model (snd fed))) as [e|last];
    [reflexivity|]. cbn [bind].
  now destruct (Vosk.true_strings (fst fed ++ [last])).
Qed.

(** C9. [extract_linear16_audio] brackets all it does between the creation
    and the removal of its temporary directory, and no file of that
    directory is left afterwards, however the call ends. When ffmpeg
    writes the normalized payload, the events are: the directory is
    made, the clip is read, the payload is written, the payload is read,
    the directory is removed; the bytes returned are the whole payload,
    and the path of the payload no longer names a file. [run_vosk]
    likewise converts and transcribes between the creation and the
    removal of its directory, and what it does after the removal touches
    no file of it. When ffmpeg writes the wave file, the events of
    [run_vosk] are: the directory is made, the clip is read, the wave
    file is written, the wave file is read, the directory is removed,
    and then, if the transcription did not raise, the transcript is
    written; the text is computed from the bytes that ffmpeg wrote, the
    path of the wave file no longer names a file, and the transcript
    file holds the text. *)
Theorem normalized_audio_read_inside_scope (w : World) (src : Select.Path) :
  let d := next_tmp w in
  let tmp_wav := InTemp d (String.append (Select.stem src) ".wav") in
  (forall (tools : Tools) (rate : Z),
      exists evs,
        trace (snd (Google.extract_linear16_audio tools src rate w))
        = trace w ++ MkTemp d :: evs ++ [Cleanup d]
        /\ forall p, in_temp d p = true ->
             fs (snd (Google.extract_linear16_audio tools src rate w)) !! p = None)
  /\ (forall (tools : Tools) (rate : Z) (input output : string),
        ffmpeg_installed tools = true ->
        fs w !! InVoice src = Some input ->
        ffmpeg tools (Google.linear16_options rate) input = Some output ->
        exists w',
          Google.extract_linear16_audio tools src rate w = (inr output, w')
          /\ trace w'
             = trace w ++ [MkTemp d; ReadFile (InVoice src); WriteFile tmp_wav;
                           ReadFile tmp_wav; Cleanup d]
          /\ fs w' !! tmp_wav = None
          /\ read_bytes tmp_wav w' = (inl FileNotFoundError, w'))
  /\ (forall (env : Vosk.Env) (model : Vosk.Recognizer),
        exists evs after,
          trace (snd (Vosk.run_vosk env src model w))
          = trace w ++ MkTemp d :: evs ++ Cleanup d :: after
          /\ untouched d after
          /\ forall p, in_temp d p = true ->
               fs (snd (Vosk.run_vosk env src model w)) !! p = None)
  /\ (forall (env : Vosk.Env) (model : Vosk.Recognizer) (input output : string),
        ffmpeg_installed (Vosk.tools env) = true ->
        fs w !! InVoice src = Some input ->
        ffmpeg (Vosk.tools env) Vosk.FFMPEG_ARGS input = Some output ->
        let text :=
          do wf <- Vosk.wave_open env output;
          do fed <- Vosk.feed model (4000 * Vosk.frame_bytes wf) (Vosk.rinit model)
                      (Vosk.frames wf) [];
          do last <- Vosk.get_text (Vosk.final_result model (snd fed));
          do texts <- Vosk.true_strings (fst fed ++ [last]);
          ret (strip (join " " texts)) in
        let result := InResult (String.append (Select.stem src) ".txt") in
        exists w',
          Vosk.run_vosk env src model w
          = (match text with inr _ => inr tt | inl e => inl e end, w')
          /\ trace w'
             = trace w
               ++ [MkTemp d; ReadFile (InVoice src); WriteFile tmp_wav;
                   ReadFile tmp_wav; Cleanup d]
               ++ match text with inr _ => [WriteFile result] | inl _ => [] end
          /\ fs w' !! tmp_wav = None
          /\ read_bytes tmp_wav w' = (inl FileNotFoundError, w')
          /\ forall t, text = inr t -> fs w' !! result = Some t).
Proof.
  intros d tmp_wav.
  assert (Hclean : forall (m : gmap path string),
             filter (fun kv : path * string => in_temp d (fst kv) = false) m
             !! tmp_wav = None).
  { intros m. apply map_lookup_filter_None. right. intros content _.
    cbn [fst tmp_wav in_temp]. rewrite Nat.eqb_refl. discriminate. }
  split; [|split; [|split]].
  - intros tools rate. unfold Google.extract_linear16_audio.
    apply with_tmpdir_scope. intros d'. apply extract_body_appends.
  - intros tools rate input output Hinst Hin Hout.
    eexists. split; [|split; [|split]].
    + unfold Google.extract_linear16_audio, with_tmpdir, st_bind, run_ffmpeg.
      rewrite Hinst. cbn [fs log]. rewrite Hin.
      change ["-ac"; "1"; "-ar"; Json.decimal rate; "-f"; "wav"]
        with (Google.linear16_options rate).
      rewrite Hout. unfold write_file, read_bytes. cbn [fs].
      fold d. fold tmp_wav. rewrite lookup_insert_eq. reflexivity.
    + cbn [trace log]. rewrite <- !app_assoc. reflexivity.
    + cbn [fs]. apply Hclean.
    + unfold read_bytes. cbn [fs]. now rewrite Hclean.
  - intros env model. unfold Vosk.run_vosk.
    destruct (with_tmpdir_scope
                (fun tmpdir =>
                   run_ Vosk.convert_to_wav env (InVoice src)
                          (InTemp tmpdir (String.append (Select.stem src) ".wav"));
                   Vosk.transcribe env
                     (InTemp tmpdir (String.append (Select.stem src) ".wav")) model)
                w) as (evs & Htrace & Hfs).
    { intros d'. apply appends_bind; [apply appends_run_ffmpeg|].
      intros _. apply transcribe_appends. }
    fold d in Htrace, Hfs. unfold st_bind.
    destruct (with_tmpdir _ w) as [[e|text] w'] eqn:E; cbn [snd] in *.
    + exists evs, []. repeat split; [exact Htrace| |exact Hfs].
      intros ev [].
    + exists evs, [WriteFile (InResult (String.append (Select.stem src) ".txt"))].
      unfold write_file. cbn [snd trace fs]. repeat split.
      * rewrite Htrace, <- List.app_assoc. cbn [app].
        rewrite <- List.app_assoc. reflexivity.
      * intros ev [<-|[]]. reflexivity.
      * intros p Hp. rewrite lookup_insert_ne; [now apply Hfs|].
        intros <-. discriminate.
  - intros env model input output Hinst Hin Hout text result.
    unfold Vosk.run_vosk. unfold st_bind at 1. unfold with_tmpdir.
    unfold st_bind at 1. unfold Vosk.convert_to_wav, run_ffmpeg.
    rewrite Hinst. cbn [fs]. rewrite Hin, Hout.
    unfold write_file at 1. rewrite transcribe_exact. cbn [fs log].
    fold d. fold tmp_wav. rewrite lookup_insert_eq. fold text.
    destruct text as [e|t]; cbn [fst snd fs trace log next_tmp].
    + eexists. split; [reflexivity|]. cbn [trace fs].
      split; [rewrite <- !app_assoc; reflexivity|].
      split; [apply Hclean|].
      split; [unfold read_bytes; cbn [fs]; now rewrite Hclean|discriminate].
    + unfold write_file. eexists. split; [reflexivity|]. cbn [trace fs].
      assert (Hne : result <> tmp_wav) by discriminate.
      split; [rewrite <- !app_assoc; reflexivity|].
      split; [rewrite lookup_insert_ne by exact Hne; apply Hclean|].
      split.
      * unfold read_bytes. cbn [fs].
        rewrite lookup_insert_ne by exact Hne. now rewrite Hclean.
      * intros t' [= <-]. apply lookup_insert_eq.
Qed.

Lemma normalized_audio_read_inside_scope_witness :
  exists w',
    Google.extract_linear16_audio copy_tools "MYR_17388.mp4" 16000 clip_world
    = (inr "RIFF0000", w')
    /\ trace w'
       = [MkTemp 0; ReadFile (InVoice "MYR_17388.mp4");
          WriteFile (InTemp 0 "MYR_17388.wav");
          ReadFile (InTemp 0 "MYR_17388.wav"); Cleanup 0]
    /\ fs w' !! InTemp 0 "MYR_17388.wav" = None
    /\ exists w2,
         Vosk.run_vosk Vosk.pcm_env "MYR_17388.mp4" Vosk.silent clip_world = (inr tt, w2)
         /\ trace w2
            = [MkTemp 0; ReadFile (InVoice "MYR_17388.mp4");
               WriteFile (InTemp 0 "MYR_17388.wav");
               ReadFile (InTemp 0 "MYR_17388.wav"); Cleanup 0;
               WriteFile (InResult "MYR_17388.txt")]
         /\ fs w2 !! InTemp 0 "MYR_17388.wav" = None.
Proof.
  destruct (normalized_audio_read_inside_scope clip_world "MYR_17388.mp4")
    as (_ & H & _ & Hvosk).
  destruct (H copy_tools 16000 "RIFF0000" "RIFF0000" eq_refl eq_refl eq_refl)
    as (w' & Hrun & Htrace & Hgone & _).
  exists w'. split; [exact Hrun|]. split; [exact Htrace|]. split; [exact Hgone|].
  destruct (Hvosk Vosk.pcm_env Vosk.silent "RIFF0000" "RIFF0000" eq_refl eq_refl eq_refl)
    as (w2 & Hrun2 & Htrace2 & Hgone2 & _).
  exists w2. split; [rewrite Hrun2; vm_compute; reflexivity|].
  split; [rewrite Htrace2; vm_compute; reflexivity|exact Hgone2].
Defined.

(** C3 fails on [stt_vosk.py]. For a clip in which the recogniser hears
    nothing, [transcribe] returns the empty string and [run_vosk] writes
    an empty transcript file; the sentinel that [run_google_speech]
    writes in the same situation is not written. *)
Theorem vosk_silent_clip_writes_empty_text :
  fst (Vosk.run_vosk Vosk.pcm_env "MYR_17388.mp4" Vosk.silent clip_world) = inr tt
  /\ fs (snd (Vosk.run_vosk Vosk.pcm_env "MYR_17388.mp4" Vosk.silent clip_world))
     !! InResult "MYR_17388.txt" = Some EmptyString
  /\ EmptyString <> Google.NO_TRANSCRIPT
  /\ fs (snd (Google.run_google_speech copy_tools (Google.client_with 30 [])
                "MYR_17388.mp4" clip_world))
     !! InResult "MYR_17388.txt" = Some Google.NO_TRANSCRIPT.
Proof.
  repeat split; vm_compute; congruence.
Qed.

End ScopeClaims.

(** * Further properties *)

(** ** Names of the documented form *)
Section WellFormedNames.
Import Py Select Names.

Lemma rfind_dot_app (x y : list ascii) (i : nat) (last : option nat) :
  rfind_dot (x ++ y) i last = rfind_dot y (i + length x) (rfind_dot x i last).
Proof.
  revert i last. induction x as [|c x IH]; intros i last; cbn [app rfind_dot length].
  - now rewrite Nat.add_0_r.
  - rewrite IH. f_equal. lia.
Qed.

Lemma rfind_dot_lacks (l : list ascii) (i : nat) (last : option nat) :
  lacks "."%char l -> rfind_dot l i last = last.
Proof.
  intros H. revert i last. induction H as [|c l Hc _ IH]; intros i last; [reflexivity|].
  cbn [rfind_dot]. rewrite Hc. apply IH.
Qed.

(** The stem of [a.ext] is [a], for a non-empty [a] and a non-empty
    extension without a dot. *)
Lemma stem_of_name (a ext : list ascii) :
  a <> [] -> ext <> [] -> lacks "."%char ext ->
  stem (string_of_list_ascii (a ++ "."%char :: ext)) = string_of_list_ascii a.
Proof.
  intros Ha Hext Hdot. unfold stem.
  rewrite list_ascii_of_string_of_list_ascii, rfind_dot_app.
  cbn [rfind_dot]. rewrite Ascii.eqb_refl, (rfind_dot_lacks ext _ _ Hdot).
  cbn [Nat.add]. rewrite length_app. cbn [length].
  assert (H1 : (0 <? length a)%nat = true)
    by (apply Nat.ltb_lt; destruct a; [congruence|cbn; lia]).
  assert (H2 : (length a <? length a + S (length ext) - 1)%nat = true)
    by (apply Nat.ltb_lt; destruct ext; [congruence|cbn; lia]).
  rewrite H1, H2. cbn [andb]. now rewrite firstn_app, Nat.sub_diag, firstn_all, app_nil_r.
Qed.

Lemma split1_chars_at (pre tok : list ascii) :
  lacks "_"%char pre ->
  split1_chars "_"%char (pre ++ "_"%char :: tok) = (pre, Some tok).
Proof.
  induction 1 as [|c pre Hc _ IH]; cbn [app split1_chars].
  - now rewrite Ascii.eqb_refl.
  - now rewrite Hc, IH.
Qed.

Lemma token_of_name (pre tok ext : list ascii) :
  lacks "_"%char pre -> ext <> [] -> lacks "."%char ext ->
  token (clip_name pre tok ext) = Some (string_of_list_ascii tok).
Proof.
  intros Hpre Hext Hdot. unfold token, clip_name.
  change (pre ++ "_"%char :: tok ++ "."%char :: ext)
    with (pre ++ ("_"%char :: tok) ++ "."%char :: ext).
  rewrite app_assoc, stem_of_name; [|destruct pre; discriminate|exact Hext|exact Hdot].
  unfold split1. rewrite list_ascii_of_string_of_list_ascii.
  now rewrite (split1_chars_at pre tok Hpre).
Qed.

Lemma digit_not_underscore (c : ascii) : isdigit c = true -> Ascii.eqb c "_" = false.
Proof. destruct c as [[] [] [] [] [] [] [] []]; vm_compute; congruence. Qed.

Lemma digit_plain (c : ascii) :
  isdigit c = true ->
  c_isspace c = false /\ Ascii.eqb c "+" = false /\ Ascii.eqb c "-" = false
  /\ (code c <? 128)%N = true.
Proof. destruct c as [[] [] [] [] [] [] [] []]; vm_compute; intuition congruence. Qed.

(** Scanning a group of digits that is followed by [rest]. *)
Lemma scan_digits_group (g rest : list ascii) (prev : bool) (acc : Z) (nd : nat) :
  digit_group g ->
  scan_digits prev acc nd (g ++ rest)
  = scan_digits false (fold_left (fun a c => 10 * a + digit_value c) g acc)
      (nd + length g) rest.
Proof.
  intros [Hne Hd]. revert prev acc nd.
  induction Hd as [|c g Hc Hg IH]; [congruence|]. intros prev acc nd.
  cbn [app scan_digits fold_left length].
  rewrite (digit_not_underscore c Hc), Hc.
  destruct g as [|c' g'].
  - cbn [app fold_left length]. now rewrite Nat.add_1_r.
  - rewrite IH by discriminate. cbn [length]. rewrite !Nat.add_succ_r. reflexivity.
Qed.

Lemma scan_digits_groups (groups : list (list ascii)) (acc : Z) (nd : nat) (prev : bool) :
  groups <> [] -> List.Forall digit_group groups ->
  scan_digits prev acc nd (join_groups groups)
  = Some (fold_left (fun a c => 10 * a + digit_value c) (concat groups) acc,
          (nd + length (concat groups))%nat, []).
Proof.
  intros Hne H. revert acc nd prev.
  induction H as [|g rest Hg _ IH]; [congruence|]. intros acc nd prev.
  destruct rest as [|g' rest'].
  - cbn [join_groups concat]. rewrite app_nil_r.
    rewrite <- (app_nil_r g) at 1. rewrite (scan_digits_group g [] prev acc nd Hg).
    reflexivity.
  - change (join_groups (g :: g' :: rest'))
      with (g ++ "_"%char :: join_groups (g' :: rest')).
    rewrite (scan_digits_group g _ prev acc nd Hg).
    cbn [scan_digits]. rewrite Ascii.eqb_refl.
    rewrite IH by discriminate.
    change (concat (g :: g' :: rest')) with (g ++ concat (g' :: rest')).
    rewrite fold_left_app, length_app, Nat.add_assoc. reflexivity.
Qed.

Lemma join_groups_head (groups : list (list ascii)) :
  groups <> [] -> List.Forall digit_group groups ->
  exists c r, join_groups groups = c :: r /\ isdigit c = true.
Proof.
  intros Hne H. destruct H as [|g rest [Hg Hd] _]; [congruence|].
  destruct Hd as [|c g' Hc _]; [congruence|].
  exists c. destruct rest; cbn [join_groups app]; eauto.
Qed.

Lemma join_groups_ascii (groups : list (list ascii)) :
  List.Forall digit_group groups ->
  forallb (fun c => (code c <? 128)%N) (join_groups groups) = true.
Proof.
  induction 1 as [|g rest [_ Hd] _ IH]; [reflexivity|].
  assert (Hg : forallb (fun c => (code c <? 128)%N) g = true).
  { apply forallb_forall. intros c Hc.
    rewrite List.Forall_forall in Hd. now apply digit_plain, Hd. }
  destruct rest as [|g' rest']; [exact Hg|].
  change (join_groups (g :: g' :: rest'))
    with (g ++ "_"%char :: join_groups (g' :: rest')).
  rewrite forallb_app, Hg. cbn [forallb andb]. exact IH.
Qed.

(** [int] on digit groups joined by single underscores: the underscores
    are ignored. *)
Lemma int_of_groups (groups : list (list ascii)) :
  groups <> [] -> List.Forall digit_group groups ->
  (length (concat groups) <= int_max_str_digits)%nat ->
  int_of_chars (join_groups groups) = inr (digits_value (concat groups)).
Proof.
  intros Hne H Hlen. unfold int_of_chars, transform_decimal_and_space.
  rewrite (join_groups_ascii groups H).
  pose proof (scan_digits_groups groups 0 0 false Hne H) as Hscan.
  destruct (join_groups_head groups Hne H) as (c & r & Hj & Hc).
  rewrite Hj in *. cbn [skip_c_space].
  destruct (digit_plain c Hc) as (Hsp & Hplus & Hminus & _).
  rewrite Hsp, Hplus, Hminus, (digit_not_underscore c Hc), Hscan.
  cbn [Nat.add].
  assert (Hpos : (length (concat groups) =? 0)%nat = false).
  { apply Nat.eqb_neq. destruct H as [|g rest [Hg _] _]; [congruence|].
    cbn [concat]. rewrite length_app. destruct g; [congruence|cbn; lia]. }
  rewrite Hpos.
  assert (Hmax : (int_max_str_digits <? length (concat groups))%nat = false)
    by (apply Nat.ltb_ge; exact Hlen).
  rewrite Hmax. reflexivity.
Qed.

(** X1. A name [<prefix>_<digits>.<ext>], the digits possibly in groups
    with single underscores between them, parses to the number the digits
    denote (leading zeros and the underscores do not count). *)
Theorem parse_clip_id_well_formed (pre ext : list ascii) (groups : list (list ascii)) :
  lacks "_"%char pre -> ext <> [] -> lacks "."%char ext ->
  groups <> [] -> List.Forall digit_group groups ->
  (length (concat groups) <= int_max_str_digits)%nat ->
  parse_clip_id (clip_name pre (join_groups groups) ext)
  = inr (Some (digits_value (concat groups))).
Proof.
  intros Hpre Hext Hdot Hne Hg Hlen.
  rewrite parse_clip_id_token, (token_of_name pre _ ext Hpre Hext Hdot).
  unfold int. rewrite list_ascii_of_string_of_list_ascii.
  now rewrite (int_of_groups groups Hne Hg Hlen).
Qed.

Lemma parse_clip_id_well_formed_witness :
  parse_clip_id "MYR_017_388.mp4" = inr (Some 17388).
Proof.
  assert (Hd : forall g, g <> [] -> forallb isdigit g = true -> digit_group g).
  { intros g Hg Hf. split; [exact Hg|]. apply List.Forall_forall.
    intros c Hc. now apply (proj1 (forallb_forall _ _) Hf). }
  apply (parse_clip_id_well_formed
           (list_ascii_of_string "MYR") (list_ascii_of_string "mp4")
           [list_ascii_of_string "017"; list_ascii_of_string "388"]).
  - repeat constructor.
  - discriminate.
  - repeat constructor.
  - discriminate.
  - repeat constructor; apply Hd; try discriminate; reflexivity.
  - apply Nat.leb_le. vm_compute. reflexivity.
Defined.

End WellFormedNames.

(** ** Selection: order of the directory, limits *)
Section SelectionOrder.
Import Py Select Names.

Lemma filter_perm {A : Type} (f : A -> bool) (l1 l2 : list A) :
  Permutation l1 l2 -> Permutation (List.filter f l1) (List.filter f l2).
Proof.
  induction 1 as [|x l1 l2 _ IH|x y l|l1 l2 l3 _ IH1 _ IH2]; cbn [List.filter].
  - reflexivity.
  - destruct (f x); [now constructor|exact IH].
  - destruct (f x), (f y); try reflexivity. apply perm_swap.
  - now transitivity (List.filter f l2).
Qed.

(** Two lists in strictly ascending key order with the same items are equal. *)
Lemma strictly_sorted_unique {A : Type} (key : A -> Z) (l1 l2 : list A) :
  StronglySorted (key_lt key) l1 -> StronglySorted (key_lt key) l2 ->
  Permutation l1 l2 -> l1 = l2.
Proof.
  intros H1. revert l2. induction H1 as [|x r Hr IH Hx]; intros l2 H2 Hp.
  - apply Permutation_nil in Hp. now subst.
  - destruct l2 as [|y r2]; [apply Permutation_sym, Permutation_nil in Hp; discriminate|].
    inversion H2 as [|? ? Hr2 Hy]; subst.
    assert (Hxy : x = y).
    { assert (Hin : In x (y :: r2)) by (eapply Permutation_in; [exact Hp|now left]).
      assert (Hin' : In y (x :: r))
        by (eapply Permutation_in; [symmetry; exact Hp|now left]).
      destruct Hin as [->|Hin]; [reflexivity|].
      destruct Hin' as [->|Hin']; [reflexivity|].
      rewrite List.Forall_forall in Hx, Hy.
      specialize (Hx y Hin'). specialize (Hy x Hin).
      unfold key_lt in *. lia. }
    subst y. f_equal. apply IH; [exact Hr2|].
    now apply Permutation_cons_inv in Hp.
Qed.

Lemma sort_by_key_perm_eq {A : Type} (key : A -> Z) (l1 l2 : list A) :
  Permutation l1 l2 -> List.NoDup (map key l1) ->
  sort_by_key key l1 = sort_by_key key l2.
Proof.
  intros Hp Hnd. apply (strictly_sorted_unique key).
  - apply sorted_nodup_strict; [apply sort_by_key_sorted|].
    eapply Permutation_NoDup; [|exact Hnd].
    apply Permutation_map. symmetry. apply sort_by_key_perm.
  - apply sorted_nodup_strict; [apply sort_by_key_sorted|].
    eapply Permutation_NoDup; [|exact Hnd].
    apply Permutation_map. rewrite sort_by_key_perm. exact Hp.
  - now rewrite !sort_by_key_perm.
Qed.

(** X2. The order in which the operating system lists the directory does
    not matter when the qualifying entries have distinct identifiers. *)
Theorem select_targets_listing_order (d1 d2 : Dir) (start_id limit : Z) :
  Permutation (entries d1) (entries d2) ->
  case_insensitive d1 = case_insensitive d2 ->
  List.NoDup (map clip_key (qualifying d1 start_id)) ->
  select_targets d1 start_id limit = select_targets d2 start_id limit.
Proof.
  intros Hp Hci Hnd. rewrite !select_targets_eq. do 2 f_equal.
  apply sort_by_key_perm_eq; [|exact Hnd].
  apply filter_perm. unfold glob. rewrite Hci. now apply filter_perm.
Qed.

Lemma select_targets_listing_order_witness :
  select_targets {| entries := ["MYR_10.mp4"; "MYR_9.mp4"; "MYR_x.mp4"];
                    case_insensitive := false |} 0 20
  = select_targets {| entries := ["MYR_x.mp4"; "MYR_9.mp4"; "MYR_10.mp4"];
                      case_insensitive := false |} 0 20.
Proof.
  apply select_targets_listing_order.
  - cbn [entries]. etransitivity; [apply perm_swap|].
    etransitivity; [apply perm_skip, perm_swap|]. apply perm_swap.
  - reflexivity.
  - vm_compute. repeat constructor; cbn [In]; intros H;
      repeat destruct H as [H|H]; try discriminate H; exact H.
Defined.

(** X3. Entries with the same identifier are selected in directory order:
    those selected are the first ones of the directory with that
    identifier. *)
Theorem select_targets_ties_in_directory_order (d : Dir) (start_id limit k : Z) :
  exists res rest : list Path,
    select_targets d start_id limit = inr res
    /\ List.filter (same_key k) (qualifying d start_id)
       = List.filter (same_key k) res ++ rest.
Proof.
  rewrite select_targets_eq. unfold qualifying.
  set (sorted := sort_by_key clip_key (List.filter (qualifies start_id) (glob d))).
  assert (Hst : List.filter (same_key k) (List.filter (qualifies start_id) (glob d))
                = List.filter (same_key k) sorted)
    by (symmetry; apply sort_by_key_stable).
  unfold slice_to. destruct (0 <=? limit).
  - exists (firstn (Z.to_nat limit) sorted),
           (List.filter (same_key k) (skipn (Z.to_nat limit) sorted)).
    split; [reflexivity|].
    now rewrite Hst, <- List.filter_app, firstn_skipn.
  - exists (firstn (length sorted - Z.to_nat (- limit)) sorted),
           (List.filter (same_key k) (skipn (length sorted - Z.to_nat (- limit)) sorted)).
    split; [reflexivity|].
    now rewrite Hst, <- List.filter_app, firstn_skipn.
Qed.

(** X4. A negative limit cuts from the end: [limit = -n] leaves out the
    [n] qualifying entries with the highest identifiers, and everything
    when there are no more than [n]. *)
Theorem select_targets_negative_limit (d : Dir) (start_id limit : Z) :
  limit < 0 ->
  exists res dropped : list Path,
    select_targets d start_id limit = inr res
    /\ Permutation (res ++ dropped) (qualifying d start_id)
    /\ length res = (length (qualifying d start_id) - Z.to_nat (- limit))%nat
    /\ length dropped = Nat.min (Z.to_nat (- limit)) (length (qualifying d start_id))
    /\ forall a b, In a res -> In b dropped -> clip_key a <= clip_key b.
Proof.
  intros Hneg. rewrite select_targets_eq. unfold qualifying.
  set (quals := List.filter (qualifies start_id) (glob d)).
  set (sorted := sort_by_key clip_key quals).
  assert (Hperm : Permutation sorted quals) by apply sort_by_key_perm.
  assert (Hlen : length sorted = length quals) by now apply Permutation_length.
  unfold slice_to. destruct (Z.leb_spec 0 limit); [lia|].
  set (n := (length sorted - Z.to_nat (- limit))%nat).
  exists (firstn n sorted), (skipn n sorted).
  split; [reflexivity|].
  split; [now rewrite firstn_skipn|].
  split; [rewrite length_firstn; unfold n; lia|].
  split; [rewrite length_skipn; unfold n; lia|].
  apply (sorted_app_le (key_le clip_key)). rewrite firstn_skipn.
  apply sort_by_key_sorted.
Qed.

Lemma select_targets_negative_limit_witness :
  -1 < 0 /\ select_targets unpadded_dir 0 (-1)
            = inr ["MYR_3.mp4"; "MYR_9.mp4"; "MYR_10.mp4"].
Proof.
  split; [lia|].
  destruct (select_targets_negative_limit unpadded_dir 0 (-1) ltac:(lia))
    as (res & dropped & Hsel & _).
  rewrite Hsel. vm_compute in Hsel. now injection Hsel as <-.
Defined.

(** What the selection is for a limit of at least 0. *)
Lemma select_targets_facts (d : Dir) (start_id limit : Z) :
  0 <= limit ->
  exists targets : list Path,
    select_targets d start_id limit = inr targets
    /\ (forall p, In p targets -> qualifies start_id p = true)
    /\ StronglySorted (fun a b => clip_key a <= clip_key b) targets
    /\ length targets = Nat.min (Z.to_nat limit) (length (qualifying d start_id)).
Proof.
  intros Hl. rewrite select_targets_eq. eexists. split; [reflexivity|].
  split; [|split].
  - intros p Hp. apply select_targets_members in Hp.
    now apply filter_In in Hp.
  - rewrite slice_to_nonneg by exact Hl.
    apply sorted_firstn, (sort_by_key_sorted clip_key).
  - rewrite slice_to_nonneg by exact Hl. rewrite length_firstn.
    now rewrite (Permutation_length (sort_by_key_perm clip_key _)).
Qed.

Lemma firstn_plus {A : Type} (n m : nat) (l : list A) :
  firstn (n + m) l = firstn n l ++ firstn m (skipn n l).
Proof.
  revert l. induction n as [|n IH]; intros l; [reflexivity|].
  destruct l as [|x l]; cbn [Nat.add firstn skipn app].
  - now destruct m.
  - now rewrite IH.
Qed.

(** X5. Raising the limit only adds clips at the end: the selection for a
    limit is the beginning of the selection for any larger limit. *)
Theorem select_targets_limit_prefix (d : Dir) (start_id limit limit' : Z) :
  0 <= limit -> limit <= limit' ->
  exists res more : list Path,
    select_targets d start_id limit = inr res
    /\ select_targets d start_id limit' = inr (res ++ more).
Proof.
  intros H0 Hle. rewrite !select_targets_eq.
  set (sorted := sort_by_key clip_key (List.filter (qualifies start_id) (glob d))).
  rewrite !slice_to_nonneg by lia.
  exists (firstn (Z.to_nat limit) sorted),
         (firstn (Z.to_nat limit' - Z.to_nat limit) (skipn (Z.to_nat limit) sorted)).
  split; [reflexivity|]. f_equal.
  replace (Z.to_nat limit') with (Z.to_nat limit + (Z.to_nat limit' - Z.to_nat limit))%nat
    at 1 by lia.
  apply firstn_plus.
Qed.

Lemma select_targets_limit_prefix_witness :
  exists more : list Path,
    select_targets unpadded_dir 0 1 = inr ["MYR_3.mp4"]
    /\ select_targets unpadded_dir 0 3 = inr (["MYR_3.mp4"] ++ more).
Proof.
  destruct (select_targets_limit_prefix unpadded_dir 0 1 3 ltac:(lia) ltac:(lia))
    as (res & more & H1 & H3).
  exists more. vm_compute in H1. injection H1 as <-.
  split; [reflexivity|exact H3].
Defined.

End SelectionOrder.

(** ** [req_upload]: explicit arguments *)
Section ExplicitArguments.
Import Py Store Clova.

Lemma dict_get_set_if (b : bool) (d : list (string * val)) (k k' : string) (v : val) :
  dict_get (set_if b k v d) k'
  = if b && String.eqb k k' then Some v else dict_get d k'.
Proof.
  unfold set_if. destruct b; [apply dict_get_set|reflexivity].
Qed.

(** X6. In the parameter block that [req_upload] builds, an argument that
    is given wins over the client's default parameters: [callback],
    [userdata], [diarization] and [sed] when they are not [None],
    [forbiddens] and [boostings] when they are not empty. An argument
    that is not given leaves the default parameter, if there is one.
    [word_alignment], [full_text], [completion] and the language only fill
    in what the default parameters leave out, and all other keys are
    those of the default parameters. *)
Theorem req_upload_explicit_arguments (w : World) (self dp : positive) (u s : string)
  (options : list (string * val)) (a : UploadArgs) :
  heap w !! self = Some (OClient u s dp) ->
  heap w !! dp = Some (ODict options) ->
  dict_wf options ->
  exists body : list (string * val),
    built_body self a w = inr body
    /\ dict_get body "callback"
       = (if is_none (callback a) then dict_get options "callback"
          else Some (callback a))
    /\ dict_get body "userdata"
       = (if is_none (userdata a) then dict_get options "userdata"
          else Some (userdata a))
    /\ dict_get body "forbiddens"
       = (if truthy (heap w) (forbiddens a) then Some (forbiddens a)
          else dict_get options "forbiddens")
    /\ dict_get body "boostings"
       = (if truthy (heap w) (boostings a) then Some (boostings a)
          else dict_get options "boostings")
    /\ dict_get body "diarization"
       = (if is_none (diarization a) then dict_get options "diarization"
          else Some (diarization a))
    /\ dict_get body "sed"
       = (if is_none (sed a) then dict_get options "sed" else Some (sed a))
    /\ dict_get body "wordAlignment"
       = match dict_get options "wordAlignment" with
         | Some v => Some v
         | None => Some (word_alignment a)
         end
    /\ dict_get body "fullText"
       = match dict_get options "fullText" with
         | Some v => Some v
         | None => Some (full_text a)
         end
    /\ dict_get body "completion"
       = match dict_get options "completion" with
         | Some v => Some v
         | None => Some (completion a)
         end
    /\ dict_get body "language"
       = match dict_get options "language" with
         | Some v => Some v
         | None => Some (VStr LANGUAGE)
         end
    /\ forall k : string,
         ~ In k ["callback"; "userdata"; "forbiddens"; "boostings"; "diarization";
                 "sed"; "wordAlignment"; "fullText"; "completion"; "language"] ->
         dict_get body k = dict_get options k.
Proof.
  intros Hself Hdp Hwf.
  exists (body_items (heap w) options a).
  split; [exact (built_body_exact w self dp u s options a Hself Hdp)|].
  assert (Hget : forall k,
    dict_get (body_items (heap w) options a) k
    = if negb (is_none (sed a)) && String.eqb "sed" k then Some (sed a)
      else if negb (is_none (diarization a)) && String.eqb "diarization" k
      then Some (diarization a)
      else if truthy (heap w) (boostings a) && String.eqb "boostings" k
      then Some (boostings a)
      else if truthy (heap w) (forbiddens a) && String.eqb "forbiddens" k
      then Some (forbiddens a)
      else if negb (is_none (userdata a)) && String.eqb "userdata" k
      then Some (userdata a)
      else if negb (is_none (callback a)) && String.eqb "callback" k
      then Some (callback a)
      else if String.eqb "fullText" k
      then match
             (if String.eqb "wordAlignment" "fullText"
              then match dict_get (dict_update (base_params a) options) "wordAlignment"
                   with Some x => Some x | None => Some (word_alignment a) end
              else dict_get (dict_update (base_params a) options) "fullText")
           with Some x => Some x | None => Some (full_text a) end
      else if String.eqb "wordAlignment" k
      then match dict_get (dict_update (base_params a) options) "wordAlignment"
           with Some x => Some x | None => Some (word_alignment a) end
      else dict_get (dict_update (base_params a) options) k).
  { intros k. unfold body_items.
    now rewrite !dict_get_set_if, !dict_get_set_default. }
  assert (Hupd : forall k,
    dict_get (dict_update (base_params a) options) k
    = match dict_get options k with
      | Some v => Some v
      | None => dict_get (base_params a) k
      end) by (intros k; now apply dict_get_update).
  repeat split.
  11: { intros k Hk. rewrite Hget. cbn [In] in Hk.
        repeat match goal with
               | |- context [String.eqb ?c k] =>
                   destruct (String.eqb_spec c k) as [<-|?]; [exfalso; tauto|]
               end.
        rewrite !andb_false_r, Hupd. destruct (dict_get options k); [reflexivity|].
        unfold base_params. cbn [dict_get].
        repeat match goal with
               | |- context [String.eqb ?c k] =>
                   destruct (String.eqb_spec c k) as [<-|?]; [exfalso; tauto|]
               end.
        reflexivity. }
  all: rewrite Hget; cbn -[dict_get dict_update truthy]; rewrite ?andb_true_r, ?andb_false_r;
    rewrite ?Hupd; unfold base_params; cbn [dict_get String.eqb Ascii.eqb Bool.eqb];
    repeat match goal with
           | |- context [is_none ?v] => destruct (is_none v)
           | |- context [truthy ?h ?v] => destruct (truthy h v)
           | |- context [dict_get ?o ?k] => destruct (dict_get o k)
           end; reflexivity.
Qed.

Lemma req_upload_explicit_arguments_witness :
  exists body : list (string * val),
    built_body 4 ClovaBatch.callback_args ClovaBatch.client_world = inr body
    /\ dict_get body "callback" = Some (VStr "https://cb.example")
    /\ dict_get body "forbiddens" = None
    /\ dict_get body "diarization" = Some (VRef 2)
    /\ dict_get body "wordAlignment" = Some (VBool false)
    /\ dict_get body "fullText" = Some (VBool false).
Proof.
  assert (Hwf : dict_wf [("wordAlignment", VBool false); ("language", VStr "en");
                         ("diarization", VRef 2);
                         ("callback", VStr "https://old.example")]).
  { unfold dict_wf. cbn [map fst].
    repeat constructor; cbn [In]; intros H; repeat destruct H as [H|H];
      try discriminate H; exact H. }
  destruct (req_upload_explicit_arguments ClovaBatch.client_world 4 3
              "https://clova.example" "key" _ ClovaBatch.callback_args
              ltac:(vm_compute; reflexivity) ltac:(vm_compute; reflexivity) Hwf)
    as (body & Hbody & Hcb & _ & Hforb & _ & Hdia & _ & Hwa & Hft & _).
  exists body. split; [exact Hbody|].
  split; [exact Hcb|]. split; [rewrite Hforb; vm_compute; reflexivity|].
  split; [exact Hdia|]. split; [exact Hwa|exact Hft].
Defined.

End ExplicitArguments.

(** ** [extract_transcript]: when it raises *)
Section ExtractionErrors.
Import Py Json Clova.

Lemma first_text_object (members : list (string * value)) (keys : list string) :
  exists r, first_text (Obj members) keys = inr r.
Proof.
  induction keys as [|key rest [r IH]]; [now exists None|].
  cbn [first_text get]. destruct (obj_get members key) as [[| | | |t| |]|];
    cbn [bind ret]; try (now exists r).
  destruct (str_truthy (strip t)); eauto.
Qed.

Lemma as_strings_raises (vs : list value) (e : exn) :
  as_strings vs = inl e -> e = TypeError.
Proof.
  induction vs as [|v rest IH]; [discriminate|]. cbn [as_strings].
  destruct v; try (now intros [= <-]).
  destruct (as_strings rest) as [e'|ss]; cbn [bind]; [|discriminate].
  intros [= <-]. now apply IH.
Qed.

(** X7. [extract_transcript] returns the trimmed body text when the body
    is not JSON; it raises [AttributeError] exactly when the body is JSON
    but not an object, and [TypeError] only for an object whose segments
    list has a segment text that counts as true and is not a string. It
    raises nothing else. *)
Theorem extract_transcript_errors (response : Response) :
  (json_body response = None ->
   extract_transcript response = inr (strip (text response)))
  /\ (forall payload : value,
        json_body response = Some payload ->
        (forall members, payload <> Obj members) ->
        extract_transcript response = inl AttributeError)
  /\ (forall e : exn,
        extract_transcript response = inl e ->
        (e = AttributeError
         /\ exists payload, json_body response = Some payload
                            /\ forall members, payload <> Obj members)
        \/ (e = TypeError
            /\ exists members segments,
                 json_body response = Some (Obj members)
                 /\ obj_get members "segments" = Some (Arr segments)
                 /\ ~ List.Forall text_is_string segments)).
Proof.
  unfold extract_transcript, response_json.
  destruct (json_body response) as [payload|] eqn:Hbody; cbn [ret raise].
  2: { repeat split; try discriminate; intros payload [=]. }
  split; [discriminate|]. split.
  - intros p [= <-] Hno.
    destruct payload; try reflexivity. now destruct (Hno members).
  - intros e He.
    destruct payload as [| | | | | |members];
      try (left; cbn in He; injection He as <-; split; [reflexivity|];
           eexists; split; [reflexivity|]; intros m; discriminate).
    right.
    destruct (first_text_object members known_keys) as [direct Hd].
    rewrite Hd in He. cbn [bind] in He.
    destruct direct as [t|]; [discriminate|].
    cbn [get bind ret] in He.
    destruct (obj_get members "segments") as [[| | | | |segments|]|] eqn:Hseg;
      cbn [bind ret] in He; try discriminate.
    destruct (segment_lines segments) as [|l ls] eqn:Hlines; [discriminate|].
    destruct (as_strings (l :: ls)) as [e'|ss] eqn:Has; [|discriminate].
    cbn [bind] in He. injection He as <-.
    split; [exact (as_strings_raises _ _ Has)|].
    exists members, segments. split; [reflexivity|]. split; [exact Hseg|].
    intros Hall. rewrite (segment_lines_strings segments Hall) in Hlines.
    rewrite <- Hlines, as_strings_map_Str in Has. discriminate.
Qed.

Lemma extract_transcript_errors_witness :
  extract_transcript
    {| status_code := 200; reason := "OK"; text := " plain text ";
       json_body := None |} = inr "plain text"
  /\ extract_transcript (response_of (Arr [Str "a"])) = inl AttributeError.
Proof.
  split.
  - destruct (extract_transcript_errors
                {| status_code := 200; reason := "OK"; text := " plain text ";
                   json_body := None |}) as [H _].
    rewrite (H eq_refl). reflexivity.
  - destruct (extract_transcript_errors (response_of (Arr [Str "a"]))) as (_ & H & _).
    apply (H (Arr [Str "a"]) eq_refl). intros members. discriminate.
Defined.

End ExtractionErrors.

(** ** The loop over the clips *)
Section UploadLoop.
Import Py Store Clova ClovaBatch.

(** How one clip can go: nothing is posted and it fails; one request is
    posted and it fails; one request is posted and one transcript is
    written. *)
Lemma run_clova_cases (env : Env) (client : positive) (clip : Select.Path)
  (w : World) :
  let r := fst (run_clova env client clip w) in
  let w' := snd (run_clova env client clip w) in
  (exists e, r = inl e /\ posts w' = posts w /\ written w' = written w)
  \/ (exists req,
        posts w' = posts w ++ [req] /\ media req = clip
        /\ ((exists e, r = inl e /\ written w' = written w)
            \/ (exists t, r = inr tt
                          /\ written w' = written w ++ [(output_name clip, t)]))).
Proof.
  cbv zeta.
  destruct (req_upload_cases env client clip (default_args CLOVA_COMPLETION) w)
    as [[e He]|(d & _ & [[e He]|(u & s & dp & p & _ & _ & _ & He)])].
  - left. exists e. unfold run_clova, st_bind. rewrite He. auto.
  - left. exists e. unfold run_clova, st_bind. rewrite He. auto.
  - right. exists (upload_request u s clip p).
    set (w1 := posted (with_body w (fresh (dom (heap w))) d) (upload_request u s clip p)) in *.
    assert (Hrun :
      run_clova env client clip w
      = match endpoint env (posts w) (upload_request u s clip p) with
        | inl e => (inl e, w1)
        | inr response =>
            if ok response then
              match extract_transcript response with
              | inl e => (inl e, w1)
              | inr t => write_text (output_name clip) t w1
              end
            else
              (inl (SystemExit
                      (failure_message clip response
                         match json_body response with
                         | Some payload => Json.dumps payload
                         | None =>
                             if str_truthy (strip (text response))
                             then strip (text response) else reason response
                         end)), w1)
        end).
    { unfold run_clova. unfold st_bind at 1. rewrite He.
      destruct (endpoint env (posts w) (upload_request u s clip p)) as [e|response];
        [reflexivity|].
      destruct (ok response); cbn [negb]; unfold st_bind, st_lift, st_raise.
      - now destruct (extract_transcript response).
      - now rewrite format_error_detail. }
    rewrite Hrun.
    destruct (endpoint env (posts w) (upload_request u s clip p)) as [e|response];
      [|destruct (ok response); [destruct (extract_transcript response) as [e|t]|]];
      cbn [fst snd w1 posted posts written write_text]; repeat split;
      try (left; eexists; split; reflexivity).
    right. exists t. auto.
Qed.

(** X8. The loop posts one request per clip, in the order of the clips,
    and writes one transcript file per clip, named after its stem. It
    stops at the first clip that fails: at most one request then has no
    transcript. When the loop ends without an error every clip has its
    request and its transcript. *)
Theorem run_all_one_request_per_clip (env : Env) (client : positive)
  (targets : list Select.Path) (w : World) :
  exists (reqs : list Request) (files : list (string * string)),
    posts (snd (run_all env client targets w)) = posts w ++ reqs
    /\ written (snd (run_all env client targets w)) = written w ++ files
    /\ map media reqs = firstn (length reqs) targets
    /\ map fst files = map output_name (firstn (length files) targets)
    /\ (length files <= length reqs <= S (length files))%nat
    /\ (length reqs <= length targets)%nat
    /\ (fst (run_all env client targets w) = inr tt ->
        length files = length targets).
Proof.
  revert w. induction targets as [|clip rest IH]; intros w.
  - exists [], []. cbn. rewrite !app_nil_r. repeat split; lia.
  - cbn [run_all]. unfold st_bind.
    pose proof (run_clova_cases env client clip w) as Hc. cbv zeta in Hc.
    destruct (run_clova env client clip w) as [[e|[]] w1]; cbn [fst snd] in *.
    + destruct Hc as [(e' & _ & Hp & Hw)|(req & Hp & Hm & [(e' & _ & Hw)|(t & [=] & _)])].
      * exists [], []. rewrite Hp, Hw, !app_nil_r. cbn. repeat split; try lia.
        discriminate.
      * exists [req], []. rewrite Hp, Hw, !app_nil_r. cbn [map length firstn].
        rewrite Hm. repeat split; try lia. discriminate.
    + destruct Hc as [(e' & [=] & _)|(req & Hp & Hm & [(e' & [=] & _)|(t & _ & Hw)])].
      destruct (IH w1) as (reqs & files & Hposts & Hwritten & Hmedia & Hnames & Hlen
                           & Hmax & Hall).
      exists (req :: reqs), ((output_name clip, t) :: files).
      rewrite Hposts, Hwritten, Hp, Hw, <- !app_assoc.
      cbn [app map length firstn fst]. rewrite Hm, Hmedia, Hnames.
      repeat split; try lia. intros Hok. now rewrite (Hall Hok).
Qed.

Lemma run_all_one_request_per_clip_witness :
  exists (reqs : list Request) (files : list (string * string)),
    posts (snd (run_all (fixed_env "hi") 4 ["MYR_1.mp4"; "MYR_2.mp4"] client_world))
    = posts client_world ++ reqs
    /\ written (snd (run_all (fixed_env "hi") 4 ["MYR_1.mp4"; "MYR_2.mp4"] client_world))
       = written client_world ++ files
    /\ length files = 2%nat.
Proof.
  destruct (run_all_one_request_per_clip (fixed_env "hi") 4
              ["MYR_1.mp4"; "MYR_2.mp4"] client_world)
    as (reqs & files & Hposts & Hwritten & _ & _ & _ & _ & Hall).
  exists reqs, files. split; [exact Hposts|]. split; [exact Hwritten|].
  apply Hall. vm_compute. reflexivity.
Defined.

(** The requests of the loop are for the first clips of the list, in
    their order. *)
Lemma run_all_posts (env : Env) (client : positive) (targets : list Select.Path)
  (w : World) :
  exists reqs : list Request,
    posts (snd (run_all env client targets w)) = posts w ++ reqs
    /\ map media reqs = firstn (length reqs) targets.
Proof.
  revert w. induction targets as [|clip rest IH]; intros w.
  - exists []. cbn. now rewrite app_nil_r.
  - cbn [run_all]. unfold st_bind.
    pose proof (run_clova_cases env client clip w) as Hc. cbv zeta in Hc.
    destruct (run_clova env client clip w) as [[e|[]] w1]; cbn [fst snd] in *.
    + destruct Hc as [(e' & _ & Hp & _)|(req & Hp & Hm & _)].
      * exists []. rewrite Hp, app_nil_r. now cbn.
      * exists [req]. rewrite Hp. cbn [map length firstn]. now rewrite Hm.
    + destruct Hc as [(e' & [=] & _)|(req & Hp & Hm & _)].
      destruct (IH w1) as (reqs & Hposts & Hmedia).
      exists (req :: reqs). rewrite Hposts, Hp, <- app_assoc.
      cbn [app map length firstn]. now rewrite Hm, Hmedia.
Qed.

(** X9. The run over the selected clips: without a qualifying clip it
    stops with [SystemExit] before anything is posted; otherwise it posts
    at most [TARGET_COUNT] = 20 requests, for clips whose identifiers are
    at least [START_ID] and ascend in the order of posting. *)
Theorem upload_selected_bounded (env : Env) (client : positive) (d : Select.Dir)
  (w : World) :
  (Names.qualifying d START_ID = [] ->
   upload_selected env client d w = (inl (SystemExit NO_TARGETS), w))
  /\ exists reqs : list Request,
       posts (snd (upload_selected env client d w)) = posts w ++ reqs
       /\ (length reqs <= 20)%nat
       /\ StronglySorted (fun a b => Select.clip_key a <= Select.clip_key b)
            (map media reqs)
       /\ forall r, In r reqs -> Select.qualifies START_ID (media r) = true.
Proof.
  unfold upload_selected, st_bind, st_lift.
  destruct (select_targets_facts d START_ID TARGET_COUNT ltac:(discriminate))
    as (targets & Hsel & Hin & Hsorted & Hlen).
  rewrite Hsel. split.
  - intros Hnone. rewrite Hnone in Hlen.
    cbn in Hlen. destruct targets; [reflexivity|cbn in Hlen; lia].
  - destruct (run_all_posts env client targets w) as (reqs & Hp & Hm).
    assert (Hshort : (length reqs <= length targets)%nat).
    { rewrite <- (length_map media), Hm, length_firstn. lia. }
    exists (match targets with [] => [] | _ :: _ => reqs end).
    destruct targets as [|t ts]; [cbn; rewrite app_nil_r; repeat split;
                                  [lia|constructor|intros r []]|].
    split; [exact Hp|]. split; [unfold TARGET_COUNT in Hlen; lia|].
    split.
    + rewrite Hm. now apply sorted_firstn.
    + intros r Hr. apply Hin. apply (firstn_In (length reqs)).
      rewrite <- Hm. now apply in_map.
Qed.

Lemma upload_selected_bounded_witness :
  exists reqs : list Request,
    posts (snd (upload_selected (fixed_env "hi") 4
                  {| Select.entries := Select.plain_names;
                     Select.case_insensitive := false |} client_world))
    = posts client_world ++ reqs
    /\ (length reqs <= 20)%nat.
Proof.
  destruct (upload_selected_bounded (fixed_env "hi") 4
              {| Select.entries := Select.plain_names;
                 Select.case_insensitive := false |} client_world)
    as (_ & reqs & Hposts & Hlen & _).
  exists reqs. split; [exact Hposts|exact Hlen].
Defined.

End UploadLoop.

(** ** [load_config] *)
Section Config.
Import Py Json ClovaConfig.

Lemma drop_slashes_head (l : list ascii) :
  match drop_slashes l with
  | [] => True
  | c :: _ => c <> "/"%char
  end.
Proof.
  induction l as [|c r IH]; [exact I|]. cbn [drop_slashes].
  destruct (Ascii.eqb_spec c "/"); [exact IH|assumption].
Qed.

Lemma rstrip_slash_last (s : string) : last_char (rstrip_slash s) <> Some "/"%char.
Proof.
  unfold last_char, rstrip_slash.
  rewrite list_ascii_of_string_of_list_ascii, rev_involutive.
  pose proof (drop_slashes_head (rev (list_ascii_of_string s))) as H.
  destruct (drop_slashes _); [discriminate|]. intros [= ->]. now apply H.
Qed.

Lemma obj_get_absent (members : list (string * value)) (k : string) :
  ~ In k (map fst members) -> obj_get members k = None.
Proof.
  induction members as [|[k0 x] r IH]; [reflexivity|].
  cbn [map fst In obj_get]. intros H.
  destruct (String.eqb_spec k0 k) as [->|Hne]; [tauto|]. apply IH. tauto.
Qed.

(** Looking a key up after the [null] entries are removed. *)
Lemma obj_get_without_null (items : list (string * value)) (k : string) :
  object_wf items ->
  obj_get (List.filter (fun kv => negb (is_null (snd kv))) items) k
  = match obj_get items k with
    | Some v => if is_null v then None else Some v
    | None => None
    end.
Proof.
  unfold object_wf. induction items as [|[k0 x] r IH]; [reflexivity|].
  cbn [map fst]. intros Hwf. inversion Hwf as [|? ? Hnotin Hwf']; subst.
  cbn [List.filter snd obj_get].
  destruct (String.eqb_spec k0 k) as [->|Hne].
  - destruct (is_null x) eqn:Hx; cbn [negb obj_get].
    + rewrite (IH Hwf'), (obj_get_absent r k Hnotin). reflexivity.
    + now rewrite String.eqb_refl.
  - destruct (is_null x); cbn [negb obj_get]; [now apply IH|].
    destruct (String.eqb_spec k0 k); [congruence|now apply IH].
Qed.

(** X10. What [load_config] returns: an address that is not empty and does
    not end with a slash, so that the upload address has exactly one slash
    before [recognizer]; a secret that counts as true; and as options the
    entries of the [request_options] of the file, in their order, without
    those whose value is [null]: every other entry with its value, and no
    entry at all when the file has no [request_options] or one that
    counts as false. *)
Theorem load_config_result (config_path : string) (file : option (M value))
  (invoke_url : string) (secret : value) (options : list (string * value)) :
  load_config config_path file = inr (invoke_url, secret, options) ->
  invoke_url <> EmptyString
  /\ last_char invoke_url <> Some "/"%char
  /\ truthy secret = true
  /\ List.Forall (fun kv => snd kv <> Null) options
  /\ exists (members : list (string * value)) (raw : string),
       file = Some (inr (Obj members))
       /\ obj_get members "invoke_url" = Some (Str raw)
       /\ invoke_url = rstrip_slash raw
       /\ obj_get members "secret" = Some secret
       /\ exists items : list (string * value),
            match obj_get members "request_options" with
            | Some v => if truthy v then v = Obj items else items = []
            | None => items = []
            end
            /\ options = List.filter (fun kv => negb (is_null (snd kv))) items
            /\ (object_wf items ->
                forall k : string,
                  obj_get options k
                  = match obj_get items k with
                    | Some v => if is_null v then None else Some v
                    | None => None
                    end).
Proof.
  unfold load_config. destruct file as [[e|data]|]; try discriminate.
  cbn [bind]. destruct data as [| | | | | |members]; try discriminate.
  destruct (obj_get members "invoke_url") as [[| | | |raw| |]|] eqn:Hurl;
    try discriminate.
  destruct (obj_get members "secret") as [sec|] eqn:Hsec; [|discriminate].
  destruct (str_truthy (rstrip_slash raw)) eqn:Hu; [|discriminate].
  destruct (truthy sec) eqn:Hs; [|discriminate]. cbn [negb orb].
  intros H.
  assert (Hopts : exists items,
    options = List.filter (fun kv => negb (is_null (snd kv))) items
    /\ invoke_url = rstrip_slash raw /\ secret = sec
    /\ match obj_get members "request_options" with
       | Some v => if truthy v then v = Obj items else items = []
       | None => items = []
       end).
  { destruct (obj_get members "request_options") as [v|].
    - destruct (truthy v) eqn:Hv.
      + destruct v as [| | | | | |items]; try discriminate.
        injection H as <- <- <-. exists items. repeat split.
      + injection H as <- <- <-. exists []. repeat split.
    - injection H as <- <- <-. exists []. repeat split. }
  destruct Hopts as (items & -> & -> & -> & Hitems).
  split; [now apply str_truthy_spec|].
  split; [apply rstrip_slash_last|].
  split; [exact Hs|].
  split.
  { apply List.Forall_forall. intros kv Hkv. apply filter_In in Hkv.
    destruct Hkv as [_ Hkv]. destruct (snd kv); try discriminate; discriminate. }
  exists members, raw.
  split; [reflexivity|]. split; [exact Hurl|]. split; [reflexivity|].
  split; [exact Hsec|].
  exists items. split; [exact Hitems|]. split; [reflexivity|].
  intros Hwf k. now apply obj_get_without_null.
Qed.

Lemma load_config_result_witness :
  load_config "clova_config.json" (Some (inr example_config))
  = inr ("https://clova.example/api", Str "key",
         [("diarization", Obj [("enable", Bool false)]);
          ("wordAlignment", Bool false)])
  /\ last_char "https://clova.example/api" <> Some "/"%char.
Proof.
  assert (H : load_config "clova_config.json" (Some (inr example_config))
              = inr ("https://clova.example/api", Str "key",
                     [("diarization", Obj [("enable", Bool false)]);
                      ("wordAlignment", Bool false)]))
    by (vm_compute; reflexivity).
  split; [exact H|].
  now destruct (load_config_result _ _ _ _ _ H) as (_ & Hlast & _).
Defined.

(** X11. What [load_config] refuses and what it lets pass, for a file
    with an address and a secret. A missing file, an address that is
    empty or made of slashes only, and a secret that counts as false end
    the run with [SystemExit]. [request_options] that count as true and are not an
    object are refused; [request_options] that count as false, whatever
    their type, are taken as no options. *)
Theorem load_config_refusals (config_path : string)
  (members : list (string * value)) (raw : string) (secret : value) :
  obj_get members "invoke_url" = Some (Str raw) ->
  obj_get members "secret" = Some secret ->
  load_config config_path None = inl (SystemExit (not_found config_path))
  /\ (rstrip_slash raw = EmptyString \/ truthy secret = false ->
      load_config config_path (Some (inr (Obj members)))
      = inl (SystemExit MUST_PROVIDE))
  /\ (rstrip_slash raw <> EmptyString -> truthy secret = true ->
      forall v : value,
        obj_get members "request_options" = Some v ->
        (truthy v = false ->
         load_config config_path (Some (inr (Obj members)))
         = inr (rstrip_slash raw, secret, []))
        /\ (truthy v = true -> (forall items, v <> Obj items) ->
            load_config config_path (Some (inr (Obj members)))
            = inl (SystemExit NOT_AN_OBJECT))).
Proof.
  intros Hurl Hsec. split; [reflexivity|]. unfold load_config. cbn [bind].
  rewrite Hurl, Hsec. split.
  - intros [H|H].
    + apply str_truthy_false in H. now rewrite H.
    + rewrite H. now rewrite orb_true_r.
  - intros Hu Hs v Hv. apply str_truthy_spec in Hu. rewrite Hu, Hs, Hv.
    cbn [negb orb]. split.
    + now intros ->.
    + intros Ht Hno. rewrite Ht.
      destruct v as [| | | | | |items]; try reflexivity. now destruct (Hno items).
Qed.

Lemma load_config_refusals_witness :
  load_config "clova_config.json"
    (Some (inr (Obj [("invoke_url", Str "///"); ("secret", Str "key")])))
  = inl (SystemExit MUST_PROVIDE)
  /\ load_config "clova_config.json"
       (Some (inr (Obj [("invoke_url", Str "https://clova.example");
                        ("secret", Str "key"); ("request_options", Arr [])])))
     = inr ("https://clova.example", Str "key", []).
Proof.
  split.
  - destruct (load_config_refusals "clova_config.json"
                [("invoke_url", Str "///"); ("secret", Str "key")] "///" (Str "key")
                eq_refl eq_refl) as (_ & H & _).
    apply H. left. reflexivity.
  - destruct (load_config_refusals "clova_config.json"
                [("invoke_url", Str "https://clova.example"); ("secret", Str "key");
                 ("request_options", Arr [])]
                "https://clova.example" (Str "key") eq_refl eq_refl) as (_ & _ & H).
    apply (H ltac:(vm_compute; discriminate) eq_refl (Arr []) eq_refl).
    reflexivity.
Defined.

End Config.

(** ** [stt_google.py]: transcripts and files *)
Section GoogleRuns.
Import Py Fs Google Runs.

Lemma strip_idempotent (s : string) : strip (strip s) = strip s.
Proof.
  unfold strip. rewrite list_ascii_of_string_of_list_ascii.
  now rewrite (clean_strip_chars _ (strip_chars_clean _)).
Qed.

Lemma transcript_of_trimmed (response : RecognizeResponse) (t : string) :
  transcript_of response = inr t -> t <> EmptyString /\ strip t = t.
Proof.
  unfold transcript_of.
  destruct (collect_lines (results response) []) as [e|lines]; [discriminate|].
  cbn [bind ret]. intros [= <-].
  destruct (str_truthy (strip (join newline lines))) eqn:E.
  - split; [now apply str_truthy_spec|apply strip_idempotent].
  - split; [discriminate|reflexivity].
Qed.

(** X12. A transcript that [run_google_speech] computes is never empty and
    has no white space at its ends; the computation raises exactly when a
    result has no alternative, and then [IndexError]. *)
Theorem transcript_of_trimmed_or_index_error (response : RecognizeResponse) :
  (forall t : string,
      transcript_of response = inr t -> t <> EmptyString /\ strip t = t)
  /\ (forall e : exn,
        transcript_of response = inl e ->
        e = IndexError /\ exists r, In r (results response) /\ alternatives r = [])
  /\ ((exists r, In r (results response) /\ alternatives r = []) ->
      transcript_of response = inl IndexError).
Proof.
  split; [|split].
  - intros t. apply transcript_of_trimmed.
  - unfold transcript_of. intros e. destruct (collect_lines (results response) []) as [e'|lines] eqn:E;
      [|discriminate]. cbn [bind]. intros [= <-].
    now apply (collect_lines_raises _ _ _ E).
  - unfold transcript_of. intros H.
    now rewrite (collect_lines_no_alternative _ [] H).
Qed.

Lemma transcript_of_trimmed_or_index_error_witness :
  transcript_of (answer ["  hello "; "  "]) = inr "hello"
  /\ transcript_of {| results := [ {| alternatives := [] |} ] |} = inl IndexError.
Proof.
  split; [vm_compute; reflexivity|].
  destruct (transcript_of_trimmed_or_index_error
              {| results := [ {| alternatives := [] |} ] |}) as (_ & _ & H).
  apply H. eexists. split; [now left|reflexivity].
Defined.

Lemma filter_outside (d : nat) (m : gmap path string) (p : path) :
  in_temp d p = false ->
  filter (fun kv : path * string => in_temp d (fst kv) = false) m !! p = m !! p.
Proof.
  intros Hp. destruct (m !! p) as [x|] eqn:E.
  - apply map_lookup_filter_Some. split; [exact E|exact Hp].
  - apply map_lookup_filter_None. now left.
Qed.

Lemma filter_inside (d : nat) (m : gmap path string) (p : path) :
  in_temp d p = true ->
  filter (fun kv : path * string => in_temp d (fst kv) = false) m !! p = None.
Proof.
  intros Hp. apply map_lookup_filter_None. right. intros x _. cbn [fst]. congruence.
Qed.

Lemma lookup_after_cleanup (d : nat) (m : gmap path string) (p : path) :
  filter (fun kv : path * string => in_temp d (fst kv) = false) m !! p
  = if in_temp d p then None else m !! p.
Proof.
  destruct (in_temp d p) eqn:Hp; [now apply filter_inside|now apply filter_outside].
Qed.

Lemma cleanup_forgets_temp (d : nat) (m : gmap path string) (name content : string) :
  filter (fun kv : path * string => in_temp d (fst kv) = false)
         (<[InTemp d name := content]> m)
  = filter (fun kv : path * string => in_temp d (fst kv) = false) m.
Proof.
  apply map_filter_insert_not. intros y. cbn [fst in_temp].
  rewrite Nat.eqb_refl. discriminate.
Qed.

(** The result of [extract_linear16_audio], and the files after it: those
    before it without the temporary directory. *)
Lemma extract_linear16_audio_exact (tools : Tools) (src : Select.Path)
  (rate : Z) (w : World) :
  fst (extract_linear16_audio tools src rate w)
  = (if ffmpeg_installed tools then
       match fs w !! InVoice src with
       | Some input =>
           match ffmpeg tools (linear16_options rate) input with
           | Some output => inr output
           | None => inl CalledProcessError
           end
       | None => inl CalledProcessError
       end
     else inl (SystemExit FFMPEG_NOT_FOUND))
  /\ fs (snd (extract_linear16_audio tools src rate w))
     = filter (fun kv : path * string => in_temp (next_tmp w) (fst kv) = false) (fs w)
  /\ next_tmp (snd (extract_linear16_audio tools src rate w)) = S (next_tmp w).
Proof.
  unfold extract_linear16_audio, with_tmpdir, st_bind, run_ffmpeg.
  change ["-ac"; "1"; "-ar"; Json.decimal rate; "-f"; "wav"]
    with (linear16_options rate).
  destruct (ffmpeg_installed tools); [|now cbn].
  cbn [fs log]. destruct (fs w !! InVoice src) as [input|] eqn:Hin; [|now cbn].
  destruct (ffmpeg tools (linear16_options rate) input) as [output|]; [|now cbn].
  unfold write_file, read_bytes. cbn [fs log trace next_tmp fst snd].
  rewrite lookup_insert_eq. cbn [fs log trace next_tmp fst snd].
  now rewrite cleanup_forgets_temp.
Qed.

(** X13. What [extract_linear16_audio] returns and what it leaves alone.
    Without ffmpeg it ends with [SystemExit] and the install hint; when
    the clip is missing or ffmpeg exits with an error it raises
    [CalledProcessError]; otherwise it returns what ffmpeg wrote. In
    every case each file outside its temporary directory is as it was
    before, and no file of that directory is left. *)
Theorem extract_linear16_audio_outcome (tools : Tools) (src : Select.Path)
  (rate : Z) (w : World) :
  fst (extract_linear16_audio tools src rate w)
  = (if ffmpeg_installed tools then
       match fs w !! InVoice src with
       | Some input =>
           match ffmpeg tools (linear16_options rate) input with
           | Some output => inr output
           | None => inl CalledProcessError
           end
       | None => inl CalledProcessError
       end
     else inl (SystemExit FFMPEG_NOT_FOUND))
  /\ forall p : path,
       fs (snd (extract_linear16_audio tools src rate w)) !! p
       = if in_temp (next_tmp w) p then None else fs w !! p.
Proof.
  destruct (extract_linear16_audio_exact tools src rate w) as (Hr & Hfs & _).
  split; [exact Hr|]. intros p. rewrite Hfs. apply lookup_after_cleanup.
Qed.

(** [run_google_speech], step by step. *)
Lemma run_google_speech_exact (tools : Tools) (client : SpeechClient)
  (clip : Select.Path) (w : World) :
  run_google_speech tools client clip w
  = match extract_linear16_audio tools clip SAMPLE_RATE w with
    | (inl e, w1) => (inl e, w1)
    | (inr wav, w1) =>
        match (do operation <- long_running_recognize client wav;
               operation_result operation 900) with
        | inl e => (inl e, w1)
        | inr response =>
            match transcript_of response with
            | inl e => (inl e, w1)
            | inr t => write_file (result_path clip) t w1
            end
        end
    end.
Proof.
  unfold run_google_speech, run_google_speech_mode, USE_LONG_RUNNING.
  unfold st_bind at 1.
  destruct (extract_linear16_audio tools clip SAMPLE_RATE w) as [[e|wav] w1];
    [reflexivity|].
  unfold st_bind at 1. unfold st_lift at 1.
  destruct (do operation <- long_running_recognize client wav;
            operation_result operation 900) as [e|response]; [reflexivity|].
  unfold st_bind, st_lift. now destruct (transcript_of response).
Qed.

(** The files after [run_google_speech]: those before it without the
    temporary directory, and with the transcript when the run succeeds. *)
Lemma run_google_speech_cases (tools : Tools) (client : SpeechClient)
  (clip : Select.Path) (w : World) :
  let keep := filter (fun kv : path * string => in_temp (next_tmp w) (fst kv) = false)
                     (fs w) in
  (exists e, fst (run_google_speech tools client clip w) = inl e
             /\ fs (snd (run_google_speech tools client clip w)) = keep)
  \/ (exists t, fst (run_google_speech tools client clip w) = inr tt
                /\ (t <> EmptyString /\ strip t = t)
                /\ fs (snd (run_google_speech tools client clip w))
                   = <[result_path clip := t]> keep).
Proof.
  cbv zeta. rewrite run_google_speech_exact.
  destruct (extract_linear16_audio_exact tools clip SAMPLE_RATE w) as (_ & Hfs & _).
  destruct (extract_linear16_audio tools clip SAMPLE_RATE w) as [[e|wav] w1];
    cbn [snd] in Hfs; [left; exists e; split; [reflexivity|exact Hfs]|].
  destruct (do operation <- long_running_recognize client wav;
            operation_result operation 900) as [e|response];
    [left; exists e; split; [reflexivity|exact Hfs]|].
  pose proof (transcript_of_trimmed response) as Ht.
  destruct (transcript_of response) as [e|t];
    [left; exists e; split; [reflexivity|exact Hfs]|].
  right. exists t. unfold write_file. cbn [fst snd fs]. rewrite Hfs.
  split; [reflexivity|]. split; [now apply Ht|reflexivity].
Qed.

(** X14. [run_google_speech] changes one file at most, the transcript of
    the clip: every other file outside the temporary directory is as
    before, also the clip, and no file of that directory is left. When
    the run fails the transcript file is untouched; when it succeeds the
    file holds a text that is not empty and has no white space at its
    ends. *)
Theorem run_google_speech_files (tools : Tools) (client : SpeechClient)
  (clip : Select.Path) (w : World) :
  (forall p : path,
      p <> result_path clip ->
      fs (snd (run_google_speech tools client clip w)) !! p
      = if in_temp (next_tmp w) p then None else fs w !! p)
  /\ (forall e : exn,
        fst (run_google_speech tools client clip w) = inl e ->
        fs (snd (run_google_speech tools client clip w)) !! result_path clip
        = fs w !! result_path clip)
  /\ (fst (run_google_speech tools client clip w) = inr tt ->
      exists t : string,
        fs (snd (run_google_speech tools client clip w)) !! result_path clip = Some t
        /\ t <> EmptyString /\ strip t = t).
Proof.
  split; [|split].
  - intros p Hp.
    destruct (run_google_speech_cases tools client clip w)
      as [(e & _ & ->)|(t & _ & _ & ->)].
    + apply lookup_after_cleanup.
    + rewrite lookup_insert_ne by congruence. apply lookup_after_cleanup.
  - intros e He.
    destruct (run_google_speech_cases tools client clip w)
      as [(e' & _ & ->)|(t & Hok & _)]; [|congruence].
    now rewrite lookup_after_cleanup.
  - intros Hok.
    destruct (run_google_speech_cases tools client clip w)
      as [(e' & He & _)|(t & _ & Ht & ->)]; [congruence|].
    exists t. now rewrite lookup_insert_eq.
Qed.

Lemma run_google_speech_files_witness :
  fs (snd (run_google_speech copy_tools (client_with 5 ["hello"]) "MYR_17388.mp4"
             clip_world))
     !! InVoice "MYR_17388.mp4" = Some "RIFF0000"
  /\ exists t : string,
       fs (snd (run_google_speech copy_tools (client_with 5 ["hello"]) "MYR_17388.mp4"
                  clip_world))
          !! result_path "MYR_17388.mp4" = Some t
       /\ t <> EmptyString /\ strip t = t.
Proof.
  destruct (run_google_speech_files copy_tools (client_with 5 ["hello"])
              "MYR_17388.mp4" clip_world) as (Hother & _ & Hok).
  split.
  - rewrite Hother; [reflexivity|discriminate].
  - apply Hok. vm_compute. reflexivity.
Defined.

End GoogleRuns.

(** ** The Vosk run *)
Section VoskRuns.
Import Py Fs Vosk Runs.

Lemma blocks_of_nonempty (n : nat) (b : list ascii) (rest : list (list ascii)) :
  (0 < n)%nat -> blocks_of n (b :: rest) -> b <> [].
Proof.
  intros Hn H. cbn [blocks_of] in H. destruct rest; [tauto|].
  destruct H as [Hlen _]. intros ->. cbn in Hlen. lia.
Qed.

Lemma blocks_of_cons (n : nat) (c : ascii) (cs : list ascii)
  (blocks : list (list ascii)) :
  (0 < n)%nat -> blocks_of n blocks ->
  concat blocks = skipn n (c :: cs) ->
  blocks_of n (firstn n (c :: cs) :: blocks).
Proof.
  intros Hn Hb Hcat. cbn [blocks_of]. destruct blocks as [|b rest].
  - split; [|apply firstn_le_length].
    destruct n as [|n]; [lia|]. cbn [firstn]. discriminate.
  - split; [|exact Hb]. apply firstn_length_le.
    assert (Hne : skipn n (c :: cs) <> []).
    { rewrite <- Hcat. cbn [concat].
      pose proof (blocks_of_nonempty n b rest Hn Hb) as Hb0.
      destruct b; [congruence|discriminate]. }
    destruct (Nat.le_gt_cases n (length (c :: cs))) as [Hle|Hgt]; [exact Hle|].
    exfalso. apply Hne. apply skipn_all2. lia.
Qed.

(** The loop of [transcribe] is the plain iteration over the blocks of
    the frame data, whatever the number of bytes read at a time. *)
Lemma feed_as_blocks (rec : Recognizer) (chunk : positive) (n : nat) :
  forall (data : list ascii), (length data <= n)%nat ->
  forall (st : rstate rec) (pieces : list Json.value),
  exists blocks : list (list ascii),
    concat blocks = data
    /\ blocks_of (Pos.to_nat chunk) blocks
    /\ feed rec chunk st data pieces = feed_blocks rec st blocks pieces.
Proof.
  induction n as [|n IH]; intros data Hlen st pieces.
  - destruct data; [|cbn in Hlen; lia]. exists []. simp feed. now cbn.
  - destruct data as [|c cs]; [exists []; simp feed; now cbn|].
    assert (Hpos : (0 < Pos.to_nat chunk)%nat) by lia.
    assert (Hshort : (length (skipn (Pos.to_nat chunk) (c :: cs)) <= n)%nat).
    { rewrite length_skipn. cbn [length] in *. lia. }
    simp feed. cbv zeta. cbn [feed_blocks].
    destruct (accept_waveform rec st (firstn (Pos.to_nat chunk) (c :: cs)))
      as [[|] st1] eqn:Hacc.
    + destruct (get_text (fst (result rec st1))) as [e|piece] eqn:Hget.
      * destruct (IH _ Hshort st1 pieces) as (blocks & Hcat & Hb & _).
        exists (firstn (Pos.to_nat chunk) (c :: cs) :: blocks).
        split; [cbn [concat]; rewrite Hcat; apply firstn_skipn|].
        split; [now apply blocks_of_cons|].
        cbn [feed_blocks]. now rewrite Hacc, Hget.
      * destruct (IH _ Hshort (snd (result rec st1)) (pieces ++ [piece]))
          as (blocks & Hcat & Hb & Hfeed).
        exists (firstn (Pos.to_nat chunk) (c :: cs) :: blocks).
        split; [cbn [concat]; rewrite Hcat; apply firstn_skipn|].
        split; [now apply blocks_of_cons|].
        cbn [feed_blocks]. now rewrite Hacc, Hget.
    + destruct (IH _ Hshort st1 pieces) as (blocks & Hcat & Hb & Hfeed).
      exists (firstn (Pos.to_nat chunk) (c :: cs) :: blocks).
      split; [cbn [concat]; rewrite Hcat; apply firstn_skipn|].
      split; [now apply blocks_of_cons|].
      cbn [feed_blocks]. now rewrite Hacc.
Qed.

(** X15. [transcribe] reads the wave file and hands the recogniser its
    frame data in blocks: every byte once and in order, every block of
    the size of 4000 frames but the last, which is not empty and not
    longer. The recogniser gets nothing else: the text that [transcribe]
    returns is that of the plain iteration over these blocks, followed by
    the final result. *)
Theorem transcribe_in_blocks_of_4000_frames (env : Env) (audio_wav : path)
  (rec : Recognizer) (w : World) (content : string) (wf : Wave) :
  fs w !! audio_wav = Some content ->
  wave_open env content = inr wf ->
  exists blocks : list (list ascii),
    concat blocks = frames wf
    /\ blocks_of (4000 * Pos.to_nat (frame_bytes wf)) blocks
    /\ transcribe env audio_wav rec w
       = (do fed <- feed_blocks rec (rinit rec) blocks [];
          do last <- get_text (final_result rec (snd fed));
          do texts <- true_strings (fst fed ++ [last]);
          ret (strip (join " " texts)),
          log (ReadFile audio_wav) w).
Proof.
  intros Hfile Hopen.
  destruct (feed_as_blocks rec (4000 * frame_bytes wf) (length (frames wf))
              (frames wf) (le_n _) (rinit rec) [])
    as (blocks & Hcat & Hblocks & Hfeed).
  exists blocks. split; [exact Hcat|]. split.
  - rewrite Pos2Nat.inj_mul in Hblocks. exact Hblocks.
  - rewrite transcribe_exact, Hfile, Hopen. cbn [bind]. now rewrite Hfeed.
Qed.

Lemma transcribe_in_blocks_of_4000_frames_witness :
  exists blocks : list (list ascii),
    concat blocks = list_ascii_of_string "RIFF0000"
    /\ blocks_of (4000 * 2) blocks
    /\ transcribe pcm_env (InVoice "MYR_17388.mp4") silent clip_world
       = (do fed <- feed_blocks silent (rinit silent) blocks [];
          do last <- get_text (final_result silent (snd fed));
          do texts <- true_strings (fst fed ++ [last]);
          ret (strip (join " " texts)),
          log (ReadFile (InVoice "MYR_17388.mp4")) clip_world).
Proof.
  apply (transcribe_in_blocks_of_4000_frames pcm_env (InVoice "MYR_17388.mp4") silent
           clip_world "RIFF0000"
           {| frame_bytes := 2; frames := list_ascii_of_string "RIFF0000" |});
    reflexivity.
Defined.

(** [transcribe] changes no file, and its text has no white space at its
    ends. *)
Lemma transcribe_keeps_files (env : Env) (audio_wav : path) (rec : Recognizer)
  (w : World) :
  fs (snd (transcribe env audio_wav rec w)) = fs w
  /\ forall t, fst (transcribe env audio_wav rec w) = inr t -> strip t = t.
Proof.
  unfold transcribe, st_bind, st_lift, st_ret, read_bytes.
  destruct (fs w !! audio_wav) as [content|];
    [|split; [reflexivity|intros t; discriminate]].
  destruct (wave_open env content) as [e|wf];
    [split; [reflexivity|intros t; discriminate]|].
  destruct (feed rec (4000 * frame_bytes wf) (rinit rec) (frames wf) []) as [e|fed];
    [split; [reflexivity|intros t; discriminate]|].
  destruct (get_text (final_result rec (snd fed))) as [e|last];
    [split; [reflexivity|intros t; discriminate]|].
  destruct (true_strings (fst fed ++ [last])) as [e|texts];
    [split; [reflexivity|intros t; discriminate]|].
  cbn [fst snd log fs]. split; [reflexivity|].
  intros t [= <-]. apply strip_idempotent.
Qed.

(** The files after [run_vosk]: those before it without the temporary
    directory, and with the transcript when the run succeeds. *)
Lemma run_vosk_returns (env : Env) (clip : Select.Path) (model : Recognizer)
  (w w' : World) (res : M unit) :
  run_vosk env clip model w = (res, w') ->
  let keep := filter (fun kv : path * string => in_temp (next_tmp w) (fst kv) = false)
                     (fs w) in
  (exists e, res = inl e /\ fs w' = keep)
  \/ (exists t, res = inr tt /\ strip t = t
                /\ fs w' = <[result_path clip := t]> keep).
Proof.
  cbv zeta. unfold run_vosk. unfold st_bind at 1. unfold with_tmpdir.
  unfold st_bind at 1. unfold convert_to_wav, run_ffmpeg.
  destruct (ffmpeg_installed (tools env));
    [|intros [= <- <-]; left; exists FileNotFoundError; split; reflexivity].
  cbn [fs]. destruct (fs w !! InVoice clip) as [input|];
    [|intros [= <- <-]; left; exists CalledProcessError; split; reflexivity].
  destruct (ffmpeg (tools env) FFMPEG_ARGS input) as [output|];
    [|intros [= <- <-]; left; exists CalledProcessError; split; reflexivity].
  unfold write_file at 1.
  match goal with
  | |- context [transcribe env ?wav model ?w1] =>
      destruct (transcribe_keeps_files env wav model w1) as [Hfs Ht];
      destruct (transcribe env wav model w1) as [[e|t] w2]
  end; cbn [fst snd fs log] in *.
  - intros [= <- <-]. left. exists e. split; [reflexivity|].
    cbn [fs]. rewrite Hfs. apply cleanup_forgets_temp.
  - unfold write_file. intros [= <- <-]. right. exists t.
    split; [reflexivity|]. split; [now apply Ht|].
    cbn [fs]. rewrite Hfs. now rewrite cleanup_forgets_temp.
Qed.

Lemma run_vosk_cases (env : Env) (clip : Select.Path) (model : Recognizer)
  (w : World) :
  let keep := filter (fun kv : path * string => in_temp (next_tmp w) (fst kv) = false)
                     (fs w) in
  (exists e, fst (run_vosk env clip model w) = inl e
             /\ fs (snd (run_vosk env clip model w)) = keep)
  \/ (exists t, fst (run_vosk env clip model w) = inr tt
                /\ strip t = t
                /\ fs (snd (run_vosk env clip model w))
                   = <[result_path clip := t]> keep).
Proof.
  destruct (run_vosk env clip model w) as [res w'] eqn:Hrun.
  exact (run_vosk_returns env clip model w w' res Hrun).
Qed.

(** X16. [run_vosk] changes one file at most, the transcript of the clip:
    every other file outside its temporary directory is as before, the
    clip too, and no file of that directory is left. When the run fails
    the transcript file is untouched; when it succeeds the file holds a
    text without white space at its ends. Without ffmpeg the run ends
    with the [FileNotFoundError] of [subprocess.run], and with
    [CalledProcessError] when ffmpeg is there and the clip is not. *)
Theorem run_vosk_files (env : Env) (clip : Select.Path) (model : Recognizer)
  (w : World) :
  (forall p : path,
      p <> result_path clip ->
      fs (snd (run_vosk env clip model w)) !! p
      = if in_temp (next_tmp w) p then None else fs w !! p)
  /\ (forall e : exn,
        fst (run_vosk env clip model w) = inl e ->
        fs (snd (run_vosk env clip model w)) !! result_path clip
        = fs w !! result_path clip)
  /\ (fst (run_vosk env clip model w) = inr tt ->
      exists t : string,
        fs (snd (run_vosk env clip model w)) !! result_path clip = Some t
        /\ strip t = t)
  /\ (ffmpeg_installed (tools env) = false ->
      fst (run_vosk env clip model w) = inl FileNotFoundError)
  /\ (ffmpeg_installed (tools env) = true ->
      fs w !! InVoice clip = None ->
      fst (run_vosk env clip model w) = inl CalledProcessError).
Proof.
  split; [|split; [|split; [|split]]].
  - intros p Hp.
    destruct (run_vosk_cases env clip model w) as [(e & _ & ->)|(t & _ & _ & ->)].
    + apply lookup_after_cleanup.
    + rewrite lookup_insert_ne by congruence. apply lookup_after_cleanup.
  - intros e He.
    destruct (run_vosk_cases env clip model w) as [(e' & _ & ->)|(t & Hok & _)];
      [|congruence].
    now rewrite lookup_after_cleanup.
  - intros Hok.
    destruct (run_vosk_cases env clip model w) as [(e' & He & _)|(t & _ & Ht & ->)];
      [congruence|].
    exists t. now rewrite lookup_insert_eq.
  - intros Hno. unfold run_vosk. unfold st_bind at 1. unfold with_tmpdir.
    unfold st_bind at 1. unfold convert_to_wav, run_ffmpeg. now rewrite Hno.
  - intros Hyes Hnone. unfold run_vosk. unfold st_bind at 1. unfold with_tmpdir.
    unfold st_bind at 1. unfold convert_to_wav, run_ffmpeg. rewrite Hyes.
    cbn [fs]. now rewrite Hnone.
Qed.

Lemma run_vosk_files_witness :
  fs (snd (run_vosk pcm_env "MYR_17388.mp4" silent clip_world))
     !! InVoice "MYR_17388.mp4" = Some "RIFF0000"
  /\ fst (run_vosk {| tools := {| ffmpeg_installed := false;
                                  ffmpeg := fun _ input => Some input |};
                      wave_open := wave_open pcm_env |}
                   "MYR_17388.mp4" silent clip_world) = inl FileNotFoundError.
Proof.
  split.
  - destruct (run_vosk_files pcm_env "MYR_17388.mp4" silent clip_world) as (H & _).
    rewrite H; [reflexivity|discriminate].
  - destruct (run_vosk_files
                {| tools := {| ffmpeg_installed := false;
                               ffmpeg := fun _ input => Some input |};
                   wave_open := wave_open pcm_env |}
                "MYR_17388.mp4" silent clip_world) as (_ & _ & _ & H & _).
    apply H. reflexivity.
Defined.

End VoskRuns.

(** ** The loop of [main] over the selected clips *)
Section Loops.
Import Py Fs Runs.

Lemma lookup_persistent (d : nat) (m : gmap path string) (p : path) :
  persistent p = true ->
  filter (fun kv : path * string => in_temp d (fst kv) = false) m !! p = m !! p.
Proof.
  intros Hp. rewrite lookup_after_cleanup. now destruct p.
Qed.

Variable action : Select.Path -> ST World unit.

(** What the files written by a run are like. *)
Variable written_text : string -> Prop.

Hypothesis action_cases : forall (clip : Select.Path) (w : World),
  let keep := filter (fun kv : path * string => in_temp (next_tmp w) (fst kv) = false)
                     (fs w) in
  (exists e, fst (action clip w) = inl e /\ fs (snd (action clip w)) = keep)
  \/ (exists t, fst (action clip w) = inr tt
                /\ written_text t
                /\ fs (snd (action clip w)) = <[result_path clip := t]> keep).

Lemma action_keeps_written (clip : Select.Path) (w : World) (p : path) :
  persistent p = true ->
  (exists t, fs w !! p = Some t /\ written_text t) ->
  exists t, fs (snd (action clip w)) !! p = Some t /\ written_text t.
Proof.
  intros Hp (t & Ht & Hq).
  destruct (action_cases clip w) as [(e & _ & ->)|(t' & _ & Hq' & ->)].
  - exists t. now rewrite lookup_persistent.
  - destruct (decide (p = result_path clip)) as [->|Hne].
    + exists t'. now rewrite lookup_insert_eq.
    + exists t. rewrite lookup_insert_ne by congruence. now rewrite lookup_persistent.
Qed.

Lemma for_each_keeps_written (targets : list Select.Path) (w : World) (p : path) :
  persistent p = true ->
  (exists t, fs w !! p = Some t /\ written_text t) ->
  exists t, fs (snd (for_each action targets w)) !! p = Some t /\ written_text t.
Proof.
  intros Hp. revert w. induction targets as [|clip rest IH]; intros w Hw; [exact Hw|].
  cbn [for_each]. unfold st_bind.
  pose proof (action_keeps_written clip w p Hp Hw) as Hstep.
  destruct (action clip w) as [[e|[]] w1]; cbn [snd] in *; [exact Hstep|].
  now apply IH.
Qed.

(** The loop: the clips that got their transcript are the first ones of
    the list; no other file outside the temporary directories changes. *)
Lemma for_each_files (targets : list Select.Path) (w : World) :
  exists done rest : list Select.Path,
    targets = done ++ rest
    /\ (forall p, persistent p = true ->
                  (forall clip, In clip done -> p <> result_path clip) ->
                  fs (snd (for_each action targets w)) !! p = fs w !! p)
    /\ (forall clip, In clip done ->
          exists t, fs (snd (for_each action targets w)) !! result_path clip = Some t
                    /\ written_text t)
    /\ (fst (for_each action targets w) = inr tt -> rest = [])
    /\ (forall e, fst (for_each action targets w) = inl e -> rest <> []).
Proof.
  revert w. induction targets as [|clip more IH]; intros w.
  - exists [], []. cbn. repeat split; try tauto; discriminate.
  - cbn [for_each]. unfold st_bind.
    pose proof (action_cases clip w) as Hc. cbv zeta in Hc.
    destruct (action clip w) as [[e|[]] w1] eqn:Hact; cbn [fst snd] in *.
    + destruct Hc as [(e' & _ & Hfs)|(t & [=] & _)].
      exists [], (clip :: more). cbn [app fst snd]. repeat split.
      * intros p Hp _. rewrite Hfs. now apply lookup_persistent.
      * intros c [].
      * discriminate.
      * discriminate.
    + destruct Hc as [(e' & [=] & _)|(t & _ & Hq & Hfs)].
      destruct (IH w1) as (done & rest & Hsplit & Hother & Hdone & Hok & Hfail).
      exists (clip :: done), rest. split; [cbn [app]; now rewrite Hsplit|].
      split; [|split; [|split; assumption]].
      * intros p Hp Hne. rewrite Hother; [|exact Hp|].
        -- rewrite Hfs, lookup_insert_ne; [now apply lookup_persistent|].
           intros Heq. apply (Hne clip); [now left|congruence].
        -- intros c Hin. apply Hne. now right.
      * intros c [<-|Hin]; [|now apply Hdone].
        apply for_each_keeps_written; [reflexivity|].
        exists t. rewrite Hfs, lookup_insert_eq. auto.
Qed.

(** The run over the selection of a directory. *)
Lemma selected_runs_files (start_id limit : Z) (d : Select.Dir) (w : World) :
  0 <= limit ->
  exists targets done rest : list Select.Path,
    Select.select_targets d start_id limit = inr targets
    /\ (length targets <= Z.to_nat limit)%nat
    /\ targets = done ++ rest
    /\ (forall name,
          fs (snd (selected_runs start_id limit action d w)) !! InVoice name
          = fs w !! InVoice name)
    /\ (forall name,
          (forall clip, In clip done -> InResult name <> result_path clip) ->
          fs (snd (selected_runs start_id limit action d w)) !! InResult name
          = fs w !! InResult name)
    /\ (forall clip, In clip done ->
          exists t, fs (snd (selected_runs start_id limit action d w))
                       !! result_path clip = Some t
                    /\ written_text t)
    /\ (fst (selected_runs start_id limit action d w) = inr tt ->
        done = targets /\ targets <> [])
    /\ (targets = [] ->
        selected_runs start_id limit action d w = (inl (SystemExit NO_TARGETS), w)).
Proof.
  intros Hlimit.
  destruct (select_targets_facts d start_id limit Hlimit)
    as (targets & Hsel & _ & _ & Hlen).
  unfold selected_runs, st_bind, st_lift. rewrite Hsel.
  destruct targets as [|t0 ts].
  - exists [], [], []. cbn [fst snd st_raise app length].
    repeat split; try reflexivity; try lia; try discriminate.
    intros c [].
  - destruct (for_each_files (t0 :: ts) w)
      as (done & rest & Hsplit & Hother & Hdone & Hok & _).
    exists (t0 :: ts), done, rest.
    split; [reflexivity|]. split; [rewrite Hlen; lia|]. split; [exact Hsplit|].
    split; [intros name; apply Hother; [reflexivity|discriminate]|].
    split; [intros name Hne; apply Hother; [reflexivity|exact Hne]|].
    split; [exact Hdone|]. split; [|discriminate].
    intros Hr. split; [|discriminate].
    rewrite Hsplit, (Hok Hr). now rewrite app_nil_r.
Qed.

End Loops.

Section Batches.
Import Py Fs Runs.

(** X17. The run of [stt_google.py] over the selected clips, for every
    listing of the voice directory: at most 20 clips are selected; no
    file of the voice directory is changed or removed; a transcript file
    changes only if it is the transcript of a selected clip that was
    transcribed, and these clips are the first ones of the selection;
    each of them has a transcript that is not empty and has no white
    space at its ends; when the run ends without an error every selected
    clip was transcribed; when nothing is selected it ends with
    [SystemExit] and changes nothing. *)
Theorem google_transcribe_selected_files (tools : Tools)
  (client : Google.SpeechClient) (d : Select.Dir) (w : World) :
  exists targets done rest : list Select.Path,
    Select.select_targets d GoogleBatch.START_ID GoogleBatch.TARGET_COUNT = inr targets
    /\ (length targets <= 20)%nat
    /\ targets = done ++ rest
    /\ (forall name,
          fs (snd (GoogleBatch.transcribe_selected tools client d w)) !! InVoice name
          = fs w !! InVoice name)
    /\ (forall name,
          (forall clip, In clip done -> InResult name <> result_path clip) ->
          fs (snd (GoogleBatch.transcribe_selected tools client d w)) !! InResult name
          = fs w !! InResult name)
    /\ (forall clip, In clip done ->
          exists t, fs (snd (GoogleBatch.transcribe_selected tools client d w))
                       !! result_path clip = Some t
                    /\ (t <> EmptyString /\ Py.strip t = t))
    /\ (fst (GoogleBatch.transcribe_selected tools client d w) = inr tt ->
        done = targets /\ targets <> [])
    /\ (targets = [] ->
        GoogleBatch.transcribe_selected tools client d w
        = (inl (SystemExit NO_TARGETS), w)).
Proof.
  apply (selected_runs_files (Google.run_google_speech tools client)
           (fun t => t <> EmptyString /\ Py.strip t = t)
           (run_google_speech_cases tools client)
           GoogleBatch.START_ID GoogleBatch.TARGET_COUNT d w).
  discriminate.
Qed.

Lemma google_transcribe_selected_files_witness :
  fs (snd (GoogleBatch.transcribe_selected copy_tools (Google.client_with 5 ["hello"])
             {| Select.entries := ["MYR_17388.mp4"]; Select.case_insensitive := false |}
             clip_world))
     !! InVoice "MYR_17388.mp4" = Some "RIFF0000".
Proof.
  destruct (google_transcribe_selected_files copy_tools
              (Google.client_with 5 ["hello"])
              {| Select.entries := ["MYR_17388.mp4"]; Select.case_insensitive := false |}
              clip_world)
    as (targets & done & rest & _ & _ & _ & Hvoice & _).
  rewrite Hvoice. reflexivity.
Defined.

(** X18. The run of [stt_vosk.py] over the selected clips, for every
    listing of the voice directory: at most 20 clips are selected; no
    file of the voice directory is changed or removed; a transcript file
    changes only if it is the transcript of a selected clip that was
    transcribed, and these clips are the first ones of the selection;
    each of them has a transcript without white space at its ends; when
    the run ends without an error every selected clip was transcribed;
    when nothing is selected it ends with [SystemExit] and changes
    nothing. *)
Theorem vosk_transcribe_selected_files (env : Vosk.Env) (model : Vosk.Recognizer)
  (d : Select.Dir) (w : World) :
  exists targets done rest : list Select.Path,
    Select.select_targets d VoskBatch.START_ID VoskBatch.TARGET_COUNT = inr targets
    /\ (length targets <= 20)%nat
    /\ targets = done ++ rest
    /\ (forall name,
          fs (snd (VoskBatch.transcribe_selected env model d w)) !! InVoice name
          = fs w !! InVoice name)
    /\ (forall name,
          (forall clip, In clip done -> InResult name <> result_path clip) ->
          fs (snd (VoskBatch.transcribe_selected env model d w)) !! InResult name
          = fs w !! InResult name)
    /\ (forall clip, In clip done ->
          exists t, fs (snd (VoskBatch.transcribe_selected env model d w))
                       !! result_path clip = Some t
                    /\ Py.strip t = t)
    /\ (fst (VoskBatch.transcribe_selected env model d w) = inr tt ->
        done = targets /\ targets <> [])
    /\ (targets = [] ->
        VoskBatch.transcribe_selected env model d w
        = (inl (SystemExit NO_TARGETS), w)).
Proof.
  apply (selected_runs_files (fun clip => Vosk.run_vosk env clip model)
           (fun t => Py.strip t = t)
           (fun clip w => run_vosk_cases env clip model w)
           VoskBatch.START_ID VoskBatch.TARGET_COUNT d w).
  discriminate.
Qed.

Lemma vosk_transcribe_selected_files_witness :
  fs (snd (VoskBatch.transcribe_selected Vosk.pcm_env Vosk.silent
             {| Select.entries := ["MYR_17388.mp4"]; Select.case_insensitive := false |}
             clip_world))
     !! InVoice "MYR_17388.mp4" = Some "RIFF0000".
Proof.
  destruct (vosk_transcribe_selected_files Vosk.pcm_env Vosk.silent
              {| Select.entries := ["MYR_17388.mp4"]; Select.case_insensitive := false |}
              clip_world)
    as (targets & done & rest & _ & _ & _ & Hvoice & _).
  rewrite Hvoice. reflexivity.
Defined.

End Batches.

(** ** [stt_whisper.py]: the commands of a run *)
Section WhisperRuns.
Import Py Runs Whisper.

(** The loop hands one command per clip to [subprocess.run], in the order
    of the clips, up to and with the first one that fails. *)
Lemma for_each_commands (env : Env) (targets : list Select.Path) (w : World) :
  exists done rest : list Select.Path,
    targets = done ++ rest
    /\ snd (for_each (run_whisper env) targets w) = w ++ map (command env) done
    /\ (forall before clip after,
          done = before ++ clip :: after -> after <> [] ->
          subprocess_run env (w ++ map (command env) before) (command env clip)
          = inr tt)
    /\ (fst (for_each (run_whisper env) targets w) = inr tt -> rest = [])
    /\ (forall e, fst (for_each (run_whisper env) targets w) = inl e ->
          exists before clip,
            done = before ++ [clip]
            /\ subprocess_run env (w ++ map (command env) before) (command env clip)
               = inl e).
Proof.
  revert w. induction targets as [|clip more IH]; intros w.
  - exists [], []. cbn. rewrite app_nil_r. repeat split; try discriminate.
    intros before c after H. now destruct before.
  - cbn [for_each]. unfold st_bind.
    change (run_whisper env clip w)
      with (subprocess_run env w (command env clip), w ++ [command env clip]).
    destruct (subprocess_run env w (command env clip)) as [e|[]] eqn:Hrun.
    + exists [clip], more. cbn [fst snd map app].
      split; [reflexivity|]. split; [reflexivity|]. split; [|split].
      * intros before c after H Hne.
        destruct before as [|b before]; cbn [app] in H.
        -- injection H as _ <-. congruence.
        -- injection H as _ H. now destruct before.
      * discriminate.
      * intros e' [= <-]. exists [], clip. cbn [map app]. rewrite app_nil_r.
        split; [reflexivity|exact Hrun].
    + destruct (IH (w ++ [command env clip]))
        as (done & rest & Hsplit & Hcmds & Hmid & Hok & Hfail).
      exists (clip :: done), rest. split; [cbn [app]; now rewrite Hsplit|].
      split; [rewrite Hcmds; cbn [map]; now rewrite <- app_assoc|].
      split; [|split; [exact Hok|]].
      * intros before c after H Hne.
        destruct before as [|b before]; cbn [app] in H.
        -- injection H as <- _. cbn [map]. rewrite app_nil_r. exact Hrun.
        -- injection H as <- H. cbn [map].
           change (w ++ command env clip :: map (command env) before)
             with (w ++ [command env clip] ++ map (command env) before).
           rewrite app_assoc. now apply (Hmid before c after).
      * intros e He. destruct (Hfail e He) as (before & c & Hd & Hc).
        exists (clip :: before), c. split; [cbn [app]; now rewrite Hd|].
        cbn [map].
        change (w ++ command env clip :: map (command env) before)
          with (w ++ [command env clip] ++ map (command env) before).
        now rewrite app_assoc.
Qed.

(** X19. The run of [stt_whisper.py] over the selected clips, for every
    listing of the voice directory: it hands [subprocess.run] one whisper
    command per clip, in the order of the selection (ascending
    identifiers, all at least 17388), at most 20; each command names the
    clip in the voice directory and asks for Korean, the large model and
    text output into the result directory; every command before the last
    one handed over succeeded; when the run ends without an error every
    selected clip got its command; when nothing is selected the run
    ends with [SystemExit] before any command. *)
Theorem whisper_transcribe_selected_commands (env : Env) (d : Select.Dir)
  (w : World) :
  exists targets done rest : list Select.Path,
    Select.select_targets d START_ID TARGET_COUNT = inr targets
    /\ targets = done ++ rest
    /\ (length targets <= 20)%nat
    /\ StronglySorted (fun a b => Select.clip_key a <= Select.clip_key b) targets
    /\ (forall clip, In clip targets -> Select.qualifies 17388 clip = true)
    /\ snd (transcribe_selected env d w)
       = w ++ map (fun clip =>
                     ["whisper"; String.append "data\voice" (String.append (sep env) clip);
                      "--language"; "Korean"; "--model"; "large";
                      "--output_dir"; "data\result_whisper"; "--output_format"; "txt"])
                  done
    /\ (forall before clip after,
          done = before ++ clip :: after -> after <> [] ->
          subprocess_run env (w ++ map (command env) before) (command env clip)
          = inr tt)
    /\ (fst (transcribe_selected env d w) = inr tt -> done = targets /\ targets <> [])
    /\ (targets = [] ->
        transcribe_selected env d w = (inl (SystemExit NO_TARGETS), w)).
Proof.
  destruct (select_targets_facts d START_ID TARGET_COUNT ltac:(discriminate))
    as (targets & Hsel & Hq & Hsorted & Hlen).
  unfold transcribe_selected, selected_runs, st_bind, st_lift. rewrite Hsel.
  destruct targets as [|t0 ts].
  - exists [], [], []. cbn [fst snd st_raise app length map].
    rewrite app_nil_r.
    repeat split; try reflexivity; try lia; try discriminate; try constructor.
    + intros c [].
    + intros before c after H. now destruct before.
  - destruct (for_each_commands env (t0 :: ts) w)
      as (done & rest & Hsplit & Hcmds & Hmid & Hok & _).
    exists (t0 :: ts), done, rest.
    split; [reflexivity|]. split; [exact Hsplit|].
    split; [rewrite Hlen; unfold TARGET_COUNT; lia|].
    split; [exact Hsorted|]. split; [exact Hq|]. split; [exact Hcmds|].
    split; [exact Hmid|]. split; [|discriminate].
    intros Hr. split; [|discriminate].
    rewrite Hsplit, (Hok Hr). now rewrite app_nil_r.
Qed.

Lemma whisper_transcribe_selected_commands_witness :
  exists targets done rest : list Select.Path,
    Select.select_targets {| Select.entries := Select.plain_names;
                             Select.case_insensitive := false |} 17388 20
    = inr targets
    /\ targets = done ++ rest
    /\ snd (transcribe_selected (failing_after 1)
              {| Select.entries := Select.plain_names;
                 Select.case_insensitive := false |} [])
       = map (command (failing_after 1)) done.
Proof.
  destruct (whisper_transcribe_selected_commands (failing_after 1)
              {| Select.entries := Select.plain_names;
                 Select.case_insensitive := false |} [])
    as (targets & done & rest & Hsel & Hsplit & _ & _ & _ & Hcmds & _).
  exists targets, done, rest. split; [exact Hsel|]. split; [exact Hsplit|].
  exact Hcmds.
Defined.

End WhisperRuns.
